(** * rshapes: 2d shape drawing and collision queries of raylib

    A shallow embedding of [src/rshapes.c] (with the types of [raylib.h])
    and the properties of its tessellation, curve flattening and collision
    routines.

    Arithmetic model.  A C [float] is an IEEE 754 binary32 number: the
    Standard Library's [spec_float] at precision 24 and maximal exponent
    128, every operation rounded to nearest-even on its own (the
    evaluation method of SSE2 and of every target with
    [FLT_EVAL_METHOD == 0], without contraction into fused multiply-adds).
    A C [int] is a [Z] in the 32-bit range.  The conversion of a [float]
    to [int] is undefined behaviour for NaN, infinities and values whose
    integral part is out of range, so it returns an [option].  The
    functions of [<math.h>] that IEEE 754 specifies exactly ([sqrtf],
    [fabsf], [ceilf]) are defined; the others ([acosf], [cosf], [sinf],
    [powf]) are parameters of the development. *)

From Stdlib Require Import ZArith QArith Qabs List Bool Lia.
From Stdlib Require Import Floats.SpecFloat.
Import ListNotations.

Local Open Scope Z_scope.

(** ** Binary32 arithmetic *)

Module F32.

Definition prec : Z := 24.
Definition emax : Z := 128.

Definition float : Type := spec_float.

Definition add : float -> float -> float := SFadd prec emax.
Definition sub : float -> float -> float := SFsub prec emax.
Definition mul : float -> float -> float := SFmul prec emax.
Definition div : float -> float -> float := SFdiv prec emax.
Definition sqrtf : float -> float := SFsqrt prec emax.
Definition fabsf : float -> float := SFabs.

(** The C comparison operators; each is false as soon as an operand is NaN. *)
Definition ltb (x y : float) : bool := SFltb x y.
Definition leb (x y : float) : bool := SFleb x y.
Definition gtb (x y : float) : bool := SFltb y x.
Definition geb (x y : float) : bool := SFleb y x.
Definition eqb (x y : float) : bool := SFeqb x y.

(** [(float)z] for an integer [z], correctly rounded. *)
Definition of_Z (z : Z) : float := binary_normalize prec emax z 0 false.

(** The real value [m * 2^e] of a finite number, cut towards zero. *)
Definition trunc_mag (m : positive) (e : Z) : Z :=
  if 0 <=? e then Z.pos m * 2 ^ e else Z.pos m / 2 ^ (- e).

Definition INT_MIN : Z := - 2 ^ 31.
Definition INT_MAX : Z := 2 ^ 31 - 1.

(** [(int)x]: truncation towards zero; [None] where C leaves the
    conversion undefined. *)
Definition to_int (x : float) : option Z :=
  match x with
  | S754_zero _ => Some 0
  | S754_finite s m e =>
      let z := cond_Zopp s (trunc_mag m e) in
      if (INT_MIN <=? z) && (z <=? INT_MAX) then Some z else None
  | S754_infinity _ | S754_nan => None
  end.

(** [ceilf]: the least integral value not below [x]; keeps the sign of a
    zero result, as IEEE 754 roundToIntegralTowardPositive does. *)
Definition ceilf (x : float) : float :=
  match x with
  | S754_finite s m e =>
      if 0 <=? e then x
      else
        let q := Z.pos m / 2 ^ (- e) in
        let r := Z.pos m mod 2 ^ (- e) in
        if s then (if q =? 0 then S754_zero true else of_Z (- q))
        else of_Z (if r =? 0 then q else q + 1)
  | _ => x
  end.

Definition is_nan (x : float) : bool :=
  match x with S754_nan => true | _ => false end.

(** A number of the format: mantissa and exponent are canonical. *)
Definition valid (x : float) : Prop := valid_binary prec emax x = true.

(** A value of the format other than NaN (infinities included). *)
Definition is_number (x : float) : bool :=
  valid_binary prec emax x && negb (is_nan x).

(** Strictly positive: a positive finite number or [+inf]. *)
Definition positive_number (x : float) : bool :=
  match x with
  | S754_finite false _ _ | S754_infinity false => true
  | _ => false
  end.

(** The comparisons as propositions. *)
Definition lt (x y : float) : Prop := ltb x y = true.
Definition le (x y : float) : Prop := leb x y = true.

(** The exact value of a finite number, as a rational. *)
Definition to_Q (x : float) : option Q :=
  match x with
  | S754_zero _ => Some 0%Q
  | S754_finite s m e => Some (inject_Z (cond_Zopp s (Z.pos m)) * Qpower 2 e)%Q
  | S754_infinity _ | S754_nan => None
  end.

Definition one : float := of_Z 1.
Definition two : float := of_Z 2.
Definition half : float := div one two.            (* 0.5f *)
Definition tenth : float := div one (of_Z 10).     (* 0.1f *)

End F32.

#[warnings="-notation-for-abbreviation"]
Notation float := F32.float.

Declare Scope f32_scope.
Delimit Scope f32_scope with f32.
Bind Scope f32_scope with F32.float.
Infix "+" := F32.add : f32_scope.
Infix "-" := F32.sub : f32_scope.
Infix "*" := F32.mul : f32_scope.
Infix "/" := F32.div : f32_scope.
Infix "<?" := F32.ltb : f32_scope.
Infix "<=?" := F32.leb : f32_scope.
Infix ">?" := F32.gtb : f32_scope.
Infix ">=?" := F32.geb : f32_scope.
Infix "=?" := F32.eqb : f32_scope.
Notation "$ z" := (F32.of_Z z) (at level 5, z at level 0, format "$ z") : f32_scope.

Local Open Scope f32_scope.

Arguments F32.of_Z : simpl never.
Arguments F32.add : simpl never.
Arguments F32.sub : simpl never.
Arguments F32.mul : simpl never.
Arguments F32.div : simpl never.
Arguments F32.ltb : simpl never.
Arguments F32.leb : simpl never.
Arguments F32.eqb : simpl never.

(** ** Types of [raylib.h] *)

Record RlVector2 : Type := mkVector2 { v_x : float; v_y : float }.

Record RlColor : Type := mkColor { c_r : Z; c_g : Z; c_b : Z; c_a : Z }.

Record RlRectangle : Type :=
  mkRectangle { rec_x : float; rec_y : float; rec_width : float; rec_height : float }.

(** [RlTexture2D]: an [unsigned int] id and four [int] fields. *)
Record RlTexture2D : Type :=
  mkTexture { tex_id : Z; tex_width : Z; tex_height : Z; tex_mipmaps : Z; tex_format : Z }.

(** ** Constants *)

(** [#define PI 3.14159265358979323846f]: the binary32 number nearest to
    the literal is [13176795 * 2^-22] (see [PI_nearest] below). *)
Definition PI : float := S754_finite false 13176795 (-22).

(** [#define DEG2RAD (PI/180.0f)] *)
Definition DEG2RAD : float := PI / $180.

(** [#define SMOOTH_CIRCLE_ERROR_RATE 0.5f] *)
Definition SMOOTH_CIRCLE_ERROR_RATE : float := F32.half.

(** [#define BEZIER_LINE_DIVISIONS 24] *)
Definition BEZIER_LINE_DIVISIONS : Z := 24.

(** ** The shapes texture (module state) *)

(** The two globals [texShapes] and [texShapesRec]. *)
Record shapes_state : Type :=
  mkShapes { texShapes : RlTexture2D; texShapesRec : RlRectangle }.

Definition default_texShapes : RlTexture2D := mkTexture 1 1 1 1 7.
Definition default_texShapesRec : RlRectangle := mkRectangle $0 $0 $1 $1.

(** The initial values of the globals. *)
Definition shapes_init : shapes_state := mkShapes default_texShapes default_texShapesRec.

(** [SetShapesTexture]: the new value of the globals. *)
Definition SetShapesTexture (texture : RlTexture2D) (source : RlRectangle)
    (st : shapes_state) : shapes_state :=
  if (tex_id texture =? 0)%Z || (rec_width source =? $0) || (rec_height source =? $0)
  then mkShapes (mkTexture 1 1 1 1 7) (mkRectangle $0 $0 $1 $1)
  else mkShapes texture source.

(** A sequence of calls [SetShapesTexture(t1, s1); ...; SetShapesTexture(tn, sn)]. *)
Definition run_SetShapesTexture (calls : list (RlTexture2D * RlRectangle))
    (st : shapes_state) : shapes_state :=
  fold_left (fun s c => SetShapesTexture (fst c) (snd c) s) calls st.

(** The binding is usable: a texture id and a source rectangle whose
    width and height all compare different from zero. *)
Definition shapes_valid (st : shapes_state) : Prop :=
  tex_id (texShapes st) <> 0%Z
  /\ (rec_width (texShapesRec st) =? $0) = false
  /\ (rec_height (texShapesRec st) =? $0) = false.

(** ** The rendering backend, as the trace of its calls *)

Inductive draw_mode : Type := RLGL_LINES | RLGL_TRIANGLES | RLGL_QUADS.

Inductive rl_call : Type :=
  | rlSetTexture (id : Z)
  | rlBegin (mode : draw_mode)
  | rlEnd
  | rlColor4ub (r g b a : Z)
  | rlTexCoord2f (u v : float)
  | rlVertex2f (x y : float).

(** The vertices of a trace, in emission order. *)
Definition vertices (tr : list rl_call) : list RlVector2 :=
  flat_map (fun c => match c with rlVertex2f x y => [mkVector2 x y] | _ => [] end) tr.

(** Sequencing of computations that may hit undefined behaviour. *)
Notation "'let?' x ':=' e 'in' k" :=
  (match e with Some x => k | None => None end)
  (at level 10, x pattern, e at level 100, k at level 200).

(** ** Drawing functions *)

Section Drawing.

(** The functions of [<math.h>] that IEEE 754 leaves to the C library. *)
Variables acosf cosf sinf : float -> float.
Variable powf : float -> float -> float.

(** The build configuration: is [SUPPORT_QUADS_DRAW_MODE] defined? *)
Variable SUPPORT_QUADS_DRAW_MODE : bool.

(** The globals [texShapes] and [texShapesRec] at the time of the call. *)
Variable shapes : shapes_state.

(** The four texture coordinates the QUADS paths compute from the globals. *)
Definition tex_u0 : float :=
  rec_x (texShapesRec shapes) / $(tex_width (texShapes shapes)).
Definition tex_u1 : float :=
  (rec_x (texShapesRec shapes) + rec_width (texShapesRec shapes))
    / $(tex_width (texShapes shapes)).
Definition tex_v0 : float :=
  rec_y (texShapesRec shapes) / $(tex_height (texShapes shapes)).
Definition tex_v1 : float :=
  (rec_y (texShapesRec shapes) + rec_height (texShapesRec shapes))
    / $(tex_height (texShapes shapes)).

Definition color4ub (color : RlColor) : rl_call :=
  rlColor4ub (c_r color) (c_g color) (c_b color) (c_a color).

(** [rlVertex2f(center.x + cosf(DEG2RAD*angle)*radius,
                center.y + sinf(DEG2RAD*angle)*radius)] *)
Definition arc_vertex (center : RlVector2) (radius angle : float) : rl_call :=
  rlVertex2f (v_x center + cosf (DEG2RAD * angle) * radius)
             (v_y center + sinf (DEG2RAD * angle) * radius).

(** [for (int i = 0; i < n; i++) { body(angle); angle += step; }]:
    the calls made and the final [angle]. *)
Fixpoint arc_loop (n : nat) (step : float) (body : float -> list rl_call)
    (angle : float) : list rl_call * float :=
  match n with
  | O => ([], angle)
  | S n' =>
      let (tr, angle') := arc_loop n' step body (angle + step) in
      (body angle ++ tr, angle')
  end.

(** What a sector or ring walks: radius, normalized angles, segment count. *)
Record arc : Type :=
  mkArc { arc_radius : float; arc_start : float; arc_end : float; arc_segments : Z }.

(** [RL_DrawCircleSector], up to the computation of [stepLength]: the
    clamped radius, the ordered angles and the segment count used. *)
Definition RL_DrawCircleSector_arc (radius startAngle endAngle : float)
    (segments : Z) : option arc :=
  let radius := if radius <=? $0 then F32.tenth else radius in
  let '(startAngle, endAngle) :=
    if endAngle <? startAngle then (endAngle, startAngle)
    else (startAngle, endAngle) in
  let? minSegments := F32.to_int (F32.ceilf ((endAngle - startAngle) / $90)) in
  if (segments <? minSegments)%Z then
    let th := acosf ($2 * powf ($1 - SMOOTH_CIRCLE_ERROR_RATE / radius) $2 - $1) in
    let? segments :=
      F32.to_int ((endAngle - startAngle) * F32.ceilf ($2 * PI / th) / $360) in
    let segments := if (segments <=? 0)%Z then minSegments else segments in
    Some (mkArc radius startAngle endAngle segments)
  else Some (mkArc radius startAngle endAngle segments).

(** The body of [RL_DrawCircleSector] after the segment count is known. *)
Definition sector_emit (center : RlVector2) (a : arc) (color : RlColor) : list rl_call :=
  let radius := arc_radius a in
  let segments := arc_segments a in
  let stepLength := (arc_end a - arc_start a) / $segments in
  let angle := arc_start a in
  if SUPPORT_QUADS_DRAW_MODE then
    let quad angle :=
      [ color4ub color;
        rlTexCoord2f tex_u0 tex_v0;
        rlVertex2f (v_x center) (v_y center);
        rlTexCoord2f tex_u1 tex_v0;
        arc_vertex center radius (angle + stepLength * $2);
        rlTexCoord2f tex_u1 tex_v1;
        arc_vertex center radius (angle + stepLength);
        rlTexCoord2f tex_u0 tex_v1;
        arc_vertex center radius angle ] in
    let (tr, angle) :=
      arc_loop (Z.to_nat (Z.quot segments 2)) (stepLength * $2) quad angle in
    let last :=
      if (Z.rem segments 2 =? 0)%Z then []
      else
        [ color4ub color;
          rlTexCoord2f tex_u0 tex_v0;
          rlVertex2f (v_x center) (v_y center);
          rlTexCoord2f tex_u1 tex_v1;
          arc_vertex center radius (angle + stepLength);
          rlTexCoord2f tex_u0 tex_v1;
          arc_vertex center radius angle;
          rlTexCoord2f tex_u1 tex_v0;
          rlVertex2f (v_x center) (v_y center) ] in
    [rlSetTexture (tex_id (texShapes shapes)); rlBegin RLGL_QUADS]
      ++ tr ++ last ++ [rlEnd; rlSetTexture 0]
  else
    let triangle angle :=
      [ color4ub color;
        rlVertex2f (v_x center) (v_y center);
        arc_vertex center radius (angle + stepLength);
        arc_vertex center radius angle ] in
    [rlBegin RLGL_TRIANGLES]
      ++ fst (arc_loop (Z.to_nat segments) stepLength triangle angle)
      ++ [rlEnd].

(** [RL_DrawCircleSector]: the calls made to the backend. *)
Definition RL_DrawCircleSector (center : RlVector2) (radius startAngle endAngle : float)
    (segments : Z) (color : RlColor) : option (list rl_call) :=
  let? a := RL_DrawCircleSector_arc radius startAngle endAngle segments in
  Some (sector_emit center a color).

(** The body of [RL_DrawRing] for a true ring ([innerRadius > 0]). *)
Definition ring_emit (center : RlVector2) (innerRadius : float) (a : arc)
    (color : RlColor) : list rl_call :=
  let outerRadius := arc_radius a in
  let segments := arc_segments a in
  let stepLength := (arc_end a - arc_start a) / $segments in
  let angle := arc_start a in
  if SUPPORT_QUADS_DRAW_MODE then
    let quad angle :=
      [ color4ub color;
        rlTexCoord2f tex_u0 tex_v1;
        arc_vertex center outerRadius angle;
        rlTexCoord2f tex_u0 tex_v0;
        arc_vertex center innerRadius angle;
        rlTexCoord2f tex_u1 tex_v0;
        arc_vertex center innerRadius (angle + stepLength);
        rlTexCoord2f tex_u1 tex_v1;
        arc_vertex center outerRadius (angle + stepLength) ] in
    [rlSetTexture (tex_id (texShapes shapes)); rlBegin RLGL_QUADS]
      ++ fst (arc_loop (Z.to_nat segments) stepLength quad angle)
      ++ [rlEnd; rlSetTexture 0]
  else
    let triangles angle :=
      [ color4ub color;
        arc_vertex center innerRadius angle;
        arc_vertex center innerRadius (angle + stepLength);
        arc_vertex center outerRadius angle;
        arc_vertex center innerRadius (angle + stepLength);
        arc_vertex center outerRadius (angle + stepLength);
        arc_vertex center outerRadius angle ] in
    [rlBegin RLGL_TRIANGLES]
      ++ fst (arc_loop (Z.to_nat segments) stepLength triangles angle)
      ++ [rlEnd].

(** [RL_DrawRing]: the calls made to the backend. *)
Definition RL_DrawRing (center : RlVector2) (innerRadius outerRadius startAngle endAngle : float)
    (segments : Z) (color : RlColor) : option (list rl_call) :=
  if startAngle =? endAngle then Some []
  else
    let '(innerRadius, outerRadius) :=
      if outerRadius <? innerRadius
      then (outerRadius, if innerRadius <=? $0 then F32.tenth else innerRadius)
      else (innerRadius, outerRadius) in
    let '(startAngle, endAngle) :=
      if endAngle <? startAngle then (endAngle, startAngle)
      else (startAngle, endAngle) in
    let? minSegments := F32.to_int (F32.ceilf ((endAngle - startAngle) / $90)) in
    let? segments :=
      if (segments <? minSegments)%Z then
        let th :=
          acosf ($2 * powf ($1 - SMOOTH_CIRCLE_ERROR_RATE / outerRadius) $2 - $1) in
        let? segments :=
          F32.to_int ((endAngle - startAngle) * F32.ceilf ($2 * PI / th) / $360) in
        Some (if (segments <=? 0)%Z then minSegments else segments)
      else Some segments in
    if innerRadius <=? $0
    then RL_DrawCircleSector center outerRadius startAngle endAngle segments color
    else Some (ring_emit center innerRadius
                 (mkArc outerRadius startAngle endAngle segments) color).

End Drawing.

(** The quantities [RL_DrawCircleSector] derives before it draws, by name. *)

(** The angles in walking order, low to high. *)
Definition ordered_angles (startAngle endAngle : float) : float * float :=
  if endAngle <? startAngle then (endAngle, startAngle) else (startAngle, endAngle).

(** [radius], or [0.1f] in place of a radius that is not positive. *)
Definition clamped_radius (radius : float) : float :=
  if radius <=? $0 then F32.tenth else radius.

(** [minSegments = (int)ceilf((endAngle - startAngle)/90)] *)
Definition sector_minSegments (startAngle endAngle : float) : option Z :=
  let '(startAngle, endAngle) := ordered_angles startAngle endAngle in
  F32.to_int (F32.ceilf ((endAngle - startAngle) / $90)).

(** The segment count derived from the error rate:
    [(int)((endAngle - startAngle)*ceilf(2*PI/th)/360)]. *)
Definition sector_auto_segments (acosf : float -> float) (powf : float -> float -> float)
    (radius startAngle endAngle : float) : option Z :=
  let radius := clamped_radius radius in
  let '(startAngle, endAngle) := ordered_angles startAngle endAngle in
  let th := acosf ($2 * powf ($1 - SMOOTH_CIRCLE_ERROR_RATE / radius) $2 - $1) in
  F32.to_int ((endAngle - startAngle) * F32.ceilf ($2 * PI / th) / $360).

(** ** Triangle strips and the quadratic bezier flattener *)

(** [points[i] = v] on an array held as a list (every index the code
    writes is inside the array). *)
Fixpoint array_set {A : Type} (l : list A) (i : nat) (v : A) : list A :=
  match l, i with
  | [], _ => []
  | _ :: l', O => v :: l'
  | x :: l', S i' => x :: array_set l' i' v
  end.

(** [points[i]], undefined outside of the array. *)
Definition array_get {A : Type} (l : list A) (i : Z) : option A :=
  if (i <? 0)%Z then None else nth_error l (Z.to_nat i).

Definition vertex2f (p : RlVector2) : rl_call := rlVertex2f (v_x p) (v_y p).

(** The loop of [RL_DrawTriangleStrip], from index [i], [n] iterations. *)
Fixpoint strip_loop (points : list RlVector2) (n : nat) (i : Z) : option (list rl_call) :=
  match n with
  | O => Some []
  | S n' =>
      let? p := array_get points i in
      let? p1 := array_get points (i - 1) in
      let? p2 := array_get points (i - 2) in
      let? tr := strip_loop points n' (i + 1) in
      if (Z.rem i 2 =? 0)%Z
      then Some ([vertex2f p; vertex2f p2; vertex2f p1] ++ tr)
      else Some ([vertex2f p; vertex2f p1; vertex2f p2] ++ tr)
  end.

(** [RL_DrawTriangleStrip] *)
Definition RL_DrawTriangleStrip (points : list RlVector2) (pointCount : Z)
    (color : RlColor) : option (list rl_call) :=
  if (pointCount >=? 3)%Z then
    let? tr := strip_loop points (Z.to_nat (pointCount - 2)) 2 in
    Some ([rlBegin RLGL_TRIANGLES;
           rlColor4ub (c_r color) (c_g color) (c_b color) (c_a color)]
          ++ tr ++ [rlEnd])
  else Some [].

Section Bezier.

Variable powf : float -> float -> float.

Variables startPos endPos controlPos : RlVector2.
Variable thick : float.

(** [const float step = 1.0f/BEZIER_LINE_DIVISIONS;] *)
Definition bezier_step : float := $1 / $BEZIER_LINE_DIVISIONS.

(** The body of the loop of [RL_DrawLineBezierQuad], run [n] times from
    index [i]: the final contents of [points]. *)
Fixpoint bezier_quad_loop (n : nat) (i : Z) (previous : RlVector2)
    (points : list RlVector2) : list RlVector2 :=
  match n with
  | O => points
  | S n' =>
      let t := bezier_step * $i in
      let a := powf ($1 - t) $2 in
      let b := $2 * ($1 - t) * t in
      let c := powf t $2 in
      let current_y := a * v_y startPos + b * v_y controlPos + c * v_y endPos in
      let current_x := a * v_x startPos + b * v_x controlPos + c * v_x endPos in
      let current := mkVector2 current_x current_y in
      let dy := v_y current - v_y previous in
      let dx := v_x current - v_x previous in
      let size := F32.half * thick / F32.sqrtf (dx * dx + dy * dy) in
      let points :=
        if (i =? 1)%Z then
          array_set
            (array_set points 0
               (mkVector2 (v_x previous + dy * size) (v_y previous - dx * size)))
            1 (mkVector2 (v_x previous - dy * size) (v_y previous + dx * size))
        else points in
      let points :=
        array_set points (Z.to_nat (2 * i + 1))
          (mkVector2 (v_x current - dy * size) (v_y current + dx * size)) in
      let points :=
        array_set points (Z.to_nat (2 * i))
          (mkVector2 (v_x current + dy * size) (v_y current - dx * size)) in
      bezier_quad_loop n' (i + 1) current points
  end.

(** The point [current] of iteration [i]: the curve at [t = step*i]. *)
Definition bezier_quad_sample (i : Z) : RlVector2 :=
  let t := bezier_step * $i in
  let a := powf ($1 - t) $2 in
  let b := $2 * ($1 - t) * t in
  let c := powf t $2 in
  mkVector2 (a * v_x startPos + b * v_x controlPos + c * v_x endPos)
            (a * v_y startPos + b * v_y controlPos + c * v_y endPos).

(** The array [points] when [RL_DrawLineBezierQuad] hands it to
    [RL_DrawTriangleStrip]. *)
Definition bezier_quad_points : list RlVector2 :=
  bezier_quad_loop (Z.to_nat BEZIER_LINE_DIVISIONS) 1 startPos
    (repeat (mkVector2 $0 $0) (Z.to_nat (2 * BEZIER_LINE_DIVISIONS + 2))).

(** [RL_DrawLineBezierQuad] *)
Definition RL_DrawLineBezierQuad (color : RlColor) : option (list rl_call) :=
  RL_DrawTriangleStrip bezier_quad_points (2 * BEZIER_LINE_DIVISIONS + 2) color.

End Bezier.

(** ** Collision detection *)

(** [RL_CheckCollisionPointRec] *)
Definition RL_CheckCollisionPointRec (point : RlVector2) (rec : RlRectangle) : bool :=
  (v_x point >=? rec_x rec) && (v_x point <? rec_x rec + rec_width rec)
  && (v_y point >=? rec_y rec) && (v_y point <? rec_y rec + rec_height rec).

(** [RL_CheckCollisionCircles] *)
Definition RL_CheckCollisionCircles (center1 : RlVector2) (radius1 : float)
    (center2 : RlVector2) (radius2 : float) : bool :=
  let dx := v_x center2 - v_x center1 in
  let dy := v_y center2 - v_y center1 in
  let distance := F32.sqrtf (dx * dx + dy * dy) in
  distance <=? radius1 + radius2.

(** [RL_CheckCollisionPointCircle] *)
Definition RL_CheckCollisionPointCircle (point center : RlVector2) (radius : float) : bool :=
  RL_CheckCollisionCircles point $0 center radius.

(** The three barycentric coordinates [RL_CheckCollisionPointTriangle]
    computes for [point] in the triangle [(p1, p2, p3)]. *)
Definition triangle_alpha (point p1 p2 p3 : RlVector2) : float :=
  ((v_y p2 - v_y p3) * (v_x point - v_x p3) + (v_x p3 - v_x p2) * (v_y point - v_y p3))
  / ((v_y p2 - v_y p3) * (v_x p1 - v_x p3) + (v_x p3 - v_x p2) * (v_y p1 - v_y p3)).

Definition triangle_beta (point p1 p2 p3 : RlVector2) : float :=
  ((v_y p3 - v_y p1) * (v_x point - v_x p3) + (v_x p1 - v_x p3) * (v_y point - v_y p3))
  / ((v_y p2 - v_y p3) * (v_x p1 - v_x p3) + (v_x p3 - v_x p2) * (v_y p1 - v_y p3)).

Definition triangle_gamma (point p1 p2 p3 : RlVector2) : float :=
  $1 - triangle_alpha point p1 p2 p3 - triangle_beta point p1 p2 p3.

(** [RL_CheckCollisionPointTriangle] *)
Definition RL_CheckCollisionPointTriangle (point p1 p2 p3 : RlVector2) : bool :=
  let alpha := triangle_alpha point p1 p2 p3 in
  let beta := triangle_beta point p1 p2 p3 in
  let gamma := $1 - alpha - beta in
  (alpha >? $0) && (beta >? $0) && (gamma >? $0).

(** The test [RL_CheckCollisionPointPoly] makes on the edge from [vc] to
    [vn]: the edge's y-span straddles [point.y] and the point lies left of
    the edge at that height. *)
Definition poly_edge_crosses (point vc vn : RlVector2) : bool :=
  (((v_y vc >=? v_y point) && (v_y vn <? v_y point))
   || ((v_y vc <? v_y point) && (v_y vn >=? v_y point)))
  && (v_x point <?
        (v_x vn - v_x vc) * (v_y point - v_y vc) / (v_y vn - v_y vc) + v_x vc).

(** The loop of [RL_CheckCollisionPointPoly]: [n] iterations from index [i]. *)
Fixpoint poly_loop (point : RlVector2) (points : list RlVector2) (n : nat) (i : Z)
    (collision : bool) : option bool :=
  match n with
  | O => Some collision
  | S n' =>
      let? vc := array_get points i in
      let? vn := array_get points (i + 1) in
      poly_loop point points n' (i + 1)
        (if poly_edge_crosses point vc vn then negb collision else collision)
  end.

(** [RL_CheckCollisionPointPoly]; [None] when the loop reads outside of
    [points]. *)
Definition RL_CheckCollisionPointPoly (point : RlVector2) (points : list RlVector2)
    (pointCount : Z) : option bool :=
  if (pointCount >? 2)%Z
  then poly_loop point points (Z.to_nat (pointCount - 1)) 0 false
  else Some false.

(** [RL_CheckCollisionRecs] *)
Definition RL_CheckCollisionRecs (rec1 rec2 : RlRectangle) : bool :=
  ((rec_x rec1 <? rec_x rec2 + rec_width rec2)
   && (rec_x rec1 + rec_width rec1 >? rec_x rec2))
  && ((rec_y rec1 <? rec_y rec2 + rec_height rec2)
      && (rec_y rec1 + rec_height rec1 >? rec_y rec2)).

(** [RL_CheckCollisionCircleRec]; [None] when the conversion of the
    rectangle's center to [int] is undefined. *)
Definition RL_CheckCollisionCircleRec (center : RlVector2) (radius : float)
    (rec : RlRectangle) : option bool :=
  let? recCenterX := F32.to_int (rec_x rec + rec_width rec / $2) in
  let? recCenterY := F32.to_int (rec_y rec + rec_height rec / $2) in
  let dx := F32.fabsf (v_x center - $recCenterX) in
  let dy := F32.fabsf (v_y center - $recCenterY) in
  if dx >? rec_width rec / $2 + radius then Some false
  else if dy >? rec_height rec / $2 + radius then Some false
  else if dx <=? rec_width rec / $2 then Some true
  else if dy <=? rec_height rec / $2 then Some true
  else
    let cornerDistanceSq :=
      (dx - rec_width rec / $2) * (dx - rec_width rec / $2)
      + (dy - rec_height rec / $2) * (dy - rec_height rec / $2) in
    Some (cornerDistanceSq <=? radius * radius).

(** [RL_GetCollisionRec] *)
Definition RL_GetCollisionRec (rec1 rec2 : RlRectangle) : RlRectangle :=
  let left := if rec_x rec1 >? rec_x rec2 then rec_x rec1 else rec_x rec2 in
  let right1 := rec_x rec1 + rec_width rec1 in
  let right2 := rec_x rec2 + rec_width rec2 in
  let right := if right1 <? right2 then right1 else right2 in
  let top := if rec_y rec1 >? rec_y rec2 then rec_y rec1 else rec_y rec2 in
  let bottom1 := rec_y rec1 + rec_height rec1 in
  let bottom2 := rec_y rec2 + rec_height rec2 in
  let bottom := if bottom1 <? bottom2 then bottom1 else bottom2 in
  if (left <? right) && (top <? bottom)
  then mkRectangle left top (right - left) (bottom - top)
  else mkRectangle $0 $0 $0 $0.

(** ** More drawing functions *)

Section MoreDrawing.

Variables acosf cosf sinf : float -> float.
Variable powf : float -> float -> float.
Variable SUPPORT_QUADS_DRAW_MODE : bool.
Variable shapes : shapes_state.

(** [RL_DrawCircleV] *)
Definition RL_DrawCircleV (center : RlVector2) (radius : float) (color : RlColor)
    : option (list rl_call) :=
  RL_DrawCircleSector acosf cosf sinf powf SUPPORT_QUADS_DRAW_MODE shapes
    center radius $0 $360 36 color.

(** [RL_DrawCircle] *)
Definition RL_DrawCircle (centerX centerY : Z) (radius : float) (color : RlColor)
    : option (list rl_call) :=
  RL_DrawCircleV (mkVector2 $centerX $centerY) radius color.

(** The body of [RL_DrawCircleSectorLines] after the segment count is
    known: a cap line, the arc, a cap line. *)
Definition sector_lines_emit (center : RlVector2) (a : arc) (color : RlColor)
    : list rl_call :=
  let radius := arc_radius a in
  let segments := arc_segments a in
  let stepLength := (arc_end a - arc_start a) / $segments in
  let angle := arc_start a in
  let cap angle :=
    [ color4ub color;
      rlVertex2f (v_x center) (v_y center);
      arc_vertex cosf sinf center radius angle ] in
  let line angle :=
    [ color4ub color;
      arc_vertex cosf sinf center radius angle;
      arc_vertex cosf sinf center radius (angle + stepLength) ] in
  let (tr, angle') := arc_loop (Z.to_nat segments) stepLength line angle in
  [rlBegin RLGL_LINES] ++ cap angle ++ tr ++ cap angle' ++ [rlEnd].

(** [RL_DrawCircleSectorLines]; it opens with the statements of
    [RL_DrawCircleSector]. *)
Definition RL_DrawCircleSectorLines (center : RlVector2)
    (radius startAngle endAngle : float) (segments : Z) (color : RlColor)
    : option (list rl_call) :=
  let? a := RL_DrawCircleSector_arc acosf powf radius startAngle endAngle segments in
  Some (sector_lines_emit center a color).

(** The body of [RL_DrawRingLines] for a true ring. *)
Definition ring_lines_emit (center : RlVector2) (innerRadius : float) (a : arc)
    (color : RlColor) : list rl_call :=
  let outerRadius := arc_radius a in
  let segments := arc_segments a in
  let stepLength := (arc_end a - arc_start a) / $segments in
  let angle := arc_start a in
  let cap angle :=
    [ color4ub color;
      arc_vertex cosf sinf center outerRadius angle;
      arc_vertex cosf sinf center innerRadius angle ] in
  let lines angle :=
    [ color4ub color;
      arc_vertex cosf sinf center outerRadius angle;
      arc_vertex cosf sinf center outerRadius (angle + stepLength);
      arc_vertex cosf sinf center innerRadius angle;
      arc_vertex cosf sinf center innerRadius (angle + stepLength) ] in
  let (tr, angle') := arc_loop (Z.to_nat segments) stepLength lines angle in
  [rlBegin RLGL_LINES] ++ cap angle ++ tr ++ cap angle' ++ [rlEnd].

(** [RL_DrawRingLines] *)
Definition RL_DrawRingLines (center : RlVector2)
    (innerRadius outerRadius startAngle endAngle : float)
    (segments : Z) (color : RlColor) : option (list rl_call) :=
  if startAngle =? endAngle then Some []
  else
    let '(innerRadius, outerRadius) :=
      if outerRadius <? innerRadius
      then (outerRadius, if innerRadius <=? $0 then F32.tenth else innerRadius)
      else (innerRadius, outerRadius) in
    let '(startAngle, endAngle) :=
      if endAngle <? startAngle then (endAngle, startAngle)
      else (startAngle, endAngle) in
    let? minSegments := F32.to_int (F32.ceilf ((endAngle - startAngle) / $90)) in
    let? segments :=
      if (segments <? minSegments)%Z then
        let th :=
          acosf ($2 * powf ($1 - SMOOTH_CIRCLE_ERROR_RATE / outerRadius) $2 - $1) in
        let? segments :=
          F32.to_int ((endAngle - startAngle) * F32.ceilf ($2 * PI / th) / $360) in
        Some (if (segments <=? 0)%Z then minSegments else segments)
      else Some segments in
    if innerRadius <=? $0
    then RL_DrawCircleSectorLines center outerRadius startAngle endAngle segments color
    else Some (ring_lines_emit center innerRadius
                 (mkArc outerRadius startAngle endAngle segments) color).

(** [rlVertex2f(center.x + cosf(angle)*radius, center.y + sinf(angle)*radius)],
    the angle in radians. *)
Definition polar_vertex (center : RlVector2) (radius angle : float) : rl_call :=
  rlVertex2f (v_x center + cosf angle * radius) (v_y center + sinf angle * radius).

(** [if (sides < 3) sides = 3;] *)
Definition poly_sides (sides : Z) : Z := if (sides <? 3)%Z then 3%Z else sides.

(** [RL_DrawPoly] *)
Definition RL_DrawPoly (center : RlVector2) (sides : Z) (radius rotation : float)
    (color : RlColor) : list rl_call :=
  let sides := poly_sides sides in
  let centralAngle := rotation * DEG2RAD in
  let angleStep := $360 / $sides * DEG2RAD in
  if SUPPORT_QUADS_DRAW_MODE then
    let quad centralAngle :=
      let nextAngle := centralAngle + angleStep in
      [ color4ub color;
        rlTexCoord2f (tex_u0 shapes) (tex_v0 shapes);
        rlVertex2f (v_x center) (v_y center);
        rlTexCoord2f (tex_u0 shapes) (tex_v1 shapes);
        polar_vertex center radius centralAngle;
        rlTexCoord2f (tex_u1 shapes) (tex_v0 shapes);
        polar_vertex center radius nextAngle;
        rlTexCoord2f (tex_u1 shapes) (tex_v1 shapes);
        polar_vertex center radius centralAngle ] in
    [rlSetTexture (tex_id (texShapes shapes)); rlBegin RLGL_QUADS]
      ++ fst (arc_loop (Z.to_nat sides) angleStep quad centralAngle)
      ++ [rlEnd; rlSetTexture 0]
  else
    let triangle centralAngle :=
      [ color4ub color;
        rlVertex2f (v_x center) (v_y center);
        polar_vertex center radius (centralAngle + angleStep);
        polar_vertex center radius centralAngle ] in
    [rlBegin RLGL_TRIANGLES]
      ++ fst (arc_loop (Z.to_nat sides) angleStep triangle centralAngle)
      ++ [rlEnd].

(** [RL_DrawPolyLines] *)
Definition RL_DrawPolyLines (center : RlVector2) (sides : Z) (radius rotation : float)
    (color : RlColor) : list rl_call :=
  let sides := poly_sides sides in
  let centralAngle := rotation * DEG2RAD in
  let angleStep := $360 / $sides * DEG2RAD in
  let line centralAngle :=
    [ color4ub color;
      polar_vertex center radius centralAngle;
      polar_vertex center radius (centralAngle + angleStep) ] in
  [rlBegin RLGL_LINES]
    ++ fst (arc_loop (Z.to_nat sides) angleStep line centralAngle)
    ++ [rlEnd].

(** [RL_DrawPolyLinesEx] *)
Definition RL_DrawPolyLinesEx (center : RlVector2) (sides : Z)
    (radius rotation lineThick : float) (color : RlColor) : list rl_call :=
  let sides := poly_sides sides in
  let centralAngle := rotation * DEG2RAD in
  let exteriorAngle := $360 / $sides * DEG2RAD in
  let innerRadius := radius - lineThick * cosf (DEG2RAD * exteriorAngle / $2) in
  if SUPPORT_QUADS_DRAW_MODE then
    let quad centralAngle :=
      let nextAngle := centralAngle + exteriorAngle in
      [ color4ub color;
        rlTexCoord2f (tex_u0 shapes) (tex_v1 shapes);
        polar_vertex center radius centralAngle;
        rlTexCoord2f (tex_u0 shapes) (tex_v0 shapes);
        polar_vertex center innerRadius centralAngle;
        rlTexCoord2f (tex_u1 shapes) (tex_v1 shapes);
        polar_vertex center innerRadius nextAngle;
        rlTexCoord2f (tex_u1 shapes) (tex_v0 shapes);
        polar_vertex center radius nextAngle ] in
    [rlSetTexture (tex_id (texShapes shapes)); rlBegin RLGL_QUADS]
      ++ fst (arc_loop (Z.to_nat sides) exteriorAngle quad centralAngle)
      ++ [rlEnd; rlSetTexture 0]
  else
    let triangles centralAngle :=
      let nextAngle := centralAngle + exteriorAngle in
      [ color4ub color;
        polar_vertex center radius nextAngle;
        polar_vertex center radius centralAngle;
        polar_vertex center innerRadius centralAngle;
        polar_vertex center innerRadius centralAngle;
        polar_vertex center innerRadius nextAngle;
        polar_vertex center radius nextAngle ] in
    [rlBegin RLGL_TRIANGLES]
      ++ fst (arc_loop (Z.to_nat sides) exteriorAngle triangles centralAngle)
      ++ [rlEnd].

(** The loop of [RL_DrawTriangleFan], from index [i], [n] iterations. *)
Fixpoint fan_loop (points : list RlVector2) (n : nat) (i : Z) : option (list rl_call) :=
  match n with
  | O => Some []
  | S n' =>
      let? p0 := array_get points 0 in
      let? p := array_get points i in
      let? p' := array_get points (i + 1) in
      let? tr := fan_loop points n' (i + 1) in
      Some ([ rlTexCoord2f (tex_u0 shapes) (tex_v0 shapes); vertex2f p0;
              rlTexCoord2f (tex_u0 shapes) (tex_v1 shapes); vertex2f p;
              rlTexCoord2f (tex_u1 shapes) (tex_v1 shapes); vertex2f p';
              rlTexCoord2f (tex_u1 shapes) (tex_v0 shapes); vertex2f p' ] ++ tr)
  end.

(** [RL_DrawTriangleFan] *)
Definition RL_DrawTriangleFan (points : list RlVector2) (pointCount : Z)
    (color : RlColor) : option (list rl_call) :=
  if (pointCount >=? 3)%Z then
    let? tr := fan_loop points (Z.to_nat (pointCount - 2)) 1 in
    Some ([rlSetTexture (tex_id (texShapes shapes)); rlBegin RLGL_QUADS; color4ub color]
          ++ tr ++ [rlEnd; rlSetTexture 0])
  else Some [].

End MoreDrawing.

(** ** Lines *)

(** The loop of [RL_DrawLineStrip], from index [i], [n] iterations. *)
Fixpoint line_strip_loop (points : list RlVector2) (n : nat) (i : Z)
    : option (list rl_call) :=
  match n with
  | O => Some []
  | S n' =>
      let? p := array_get points i in
      let? p' := array_get points (i + 1) in
      let? tr := line_strip_loop points n' (i + 1) in
      Some ([vertex2f p; vertex2f p'] ++ tr)
  end.

(** [RL_DrawLineStrip] *)
Definition RL_DrawLineStrip (points : list RlVector2) (pointCount : Z)
    (color : RlColor) : option (list rl_call) :=
  if (pointCount >=? 2)%Z then
    let? tr := line_strip_loop points (Z.to_nat (pointCount - 1)) 0 in
    Some ([rlBegin RLGL_LINES; color4ub color] ++ tr ++ [rlEnd])
  else Some [].

(** [RL_DrawLineV] *)
Definition RL_DrawLineV (startPos endPos : RlVector2) (color : RlColor) : list rl_call :=
  [rlBegin RLGL_LINES; color4ub color; vertex2f startPos; vertex2f endPos; rlEnd].

(** [RL_DrawLine] *)
Definition RL_DrawLine (startPosX startPosY endPosX endPosY : Z) (color : RlColor)
    : list rl_call :=
  [rlBegin RLGL_LINES; color4ub color;
   rlVertex2f $startPosX $startPosY; rlVertex2f $endPosX $endPosY; rlEnd].

(** The four corners of the band [RL_DrawLineEx] draws; [None] when it
    draws nothing. *)
Definition line_ex_strip (startPos endPos : RlVector2) (thick : float)
    : option (list RlVector2) :=
  let delta := mkVector2 (v_x endPos - v_x startPos) (v_y endPos - v_y startPos) in
  let length := F32.sqrtf (v_x delta * v_x delta + v_y delta * v_y delta) in
  if (length >? $0) && (thick >? $0) then
    let scale := thick / ($2 * length) in
    let radius := mkVector2 (SFopp scale * v_y delta) (scale * v_x delta) in
    Some [ mkVector2 (v_x startPos - v_x radius) (v_y startPos - v_y radius);
           mkVector2 (v_x startPos + v_x radius) (v_y startPos + v_y radius);
           mkVector2 (v_x endPos - v_x radius) (v_y endPos - v_y radius);
           mkVector2 (v_x endPos + v_x radius) (v_y endPos + v_y radius) ]
  else None.

(** [RL_DrawLineEx] *)
Definition RL_DrawLineEx (startPos endPos : RlVector2) (thick : float) (color : RlColor)
    : option (list rl_call) :=
  match line_ex_strip startPos endPos thick with
  | Some strip => RL_DrawTriangleStrip strip 4 color
  | None => Some []
  end.

(** The end of each iteration of the three bezier flatteners: the offset
    pair of [current] (and, in the first iteration, of [previous]) goes
    into [points]. *)
Definition bezier_store (thick : float) (i : Z) (previous current : RlVector2)
    (points : list RlVector2) : list RlVector2 :=
  let dy := v_y current - v_y previous in
  let dx := v_x current - v_x previous in
  let size := F32.half * thick / F32.sqrtf (dx * dx + dy * dy) in
  let points :=
    if (i =? 1)%Z then
      array_set
        (array_set points 0
           (mkVector2 (v_x previous + dy * size) (v_y previous - dx * size)))
        1 (mkVector2 (v_x previous - dy * size) (v_y previous + dx * size))
    else points in
  let points :=
    array_set points (Z.to_nat (2 * i + 1))
      (mkVector2 (v_x current - dy * size) (v_y current + dx * size)) in
  array_set points (Z.to_nat (2 * i))
    (mkVector2 (v_x current + dy * size) (v_y current - dx * size)).

(** [EaseCubicInOut] *)
Definition EaseCubicInOut (t b c d : float) : float :=
  let t := t / (F32.half * d) in
  if t <? $1 then F32.half * c * t * t * t + b
  else
    let t := t - $2 in
    F32.half * c * (t * t * t + $2) + b.

Section MoreBezier.

Variable powf : float -> float -> float.
Variable thick : float.

(** The loop of [RL_DrawLineBezierCubic]. *)
Fixpoint bezier_cubic_loop (startPos endPos startControlPos endControlPos : RlVector2)
    (n : nat) (i : Z) (previous : RlVector2) (points : list RlVector2)
    : list RlVector2 :=
  match n with
  | O => points
  | S n' =>
      let t := bezier_step * $i in
      let a := powf ($1 - t) $3 in
      let b := $3 * powf ($1 - t) $2 * t in
      let c := $3 * ($1 - t) * powf t $2 in
      let d := powf t $3 in
      let current_y :=
        a * v_y startPos + b * v_y startControlPos + c * v_y endControlPos
        + d * v_y endPos in
      let current_x :=
        a * v_x startPos + b * v_x startControlPos + c * v_x endControlPos
        + d * v_x endPos in
      let current := mkVector2 current_x current_y in
      bezier_cubic_loop startPos endPos startControlPos endControlPos n' (i + 1)
        current (bezier_store thick i previous current points)
  end.

(** [RL_DrawLineBezierCubic] *)
Definition RL_DrawLineBezierCubic
    (startPos endPos startControlPos endControlPos : RlVector2) (color : RlColor)
    : option (list rl_call) :=
  RL_DrawTriangleStrip
    (bezier_cubic_loop startPos endPos startControlPos endControlPos
       (Z.to_nat BEZIER_LINE_DIVISIONS) 1 startPos
       (repeat (mkVector2 $0 $0) (Z.to_nat (2 * BEZIER_LINE_DIVISIONS + 2))))
    (2 * BEZIER_LINE_DIVISIONS + 2) color.

(** The loop of [RL_DrawLineBezier]. *)
Fixpoint bezier_ease_loop (startPos endPos : RlVector2)
    (n : nat) (i : Z) (previous : RlVector2) (points : list RlVector2)
    : list RlVector2 :=
  match n with
  | O => points
  | S n' =>
      let current_y :=
        EaseCubicInOut $i (v_y startPos) (v_y endPos - v_y startPos)
          $BEZIER_LINE_DIVISIONS in
      let current_x :=
        v_x previous + (v_x endPos - v_x startPos) / $BEZIER_LINE_DIVISIONS in
      let current := mkVector2 current_x current_y in
      bezier_ease_loop startPos endPos n' (i + 1)
        current (bezier_store thick i previous current points)
  end.

(** [RL_DrawLineBezier] *)
Definition RL_DrawLineBezier (startPos endPos : RlVector2) (color : RlColor)
    : option (list rl_call) :=
  RL_DrawTriangleStrip
    (bezier_ease_loop startPos endPos
       (Z.to_nat BEZIER_LINE_DIVISIONS) 1 startPos
       (repeat (mkVector2 $0 $0) (Z.to_nat (2 * BEZIER_LINE_DIVISIONS + 2))))
    (2 * BEZIER_LINE_DIVISIONS + 2) color.

End MoreBezier.

(** ** Lines and points: collision *)

(** [FLT_EPSILON] of [<float.h>]: [2^-23]. *)
Definition FLT_EPSILON : float := S754_finite false 8388608 (-46).

(** [fminf] and [fmaxf]: a NaN operand is ignored.  (For zeros of
    opposite signs C allows either result; the callers only compare the
    result, so the choice does not show.) *)
Definition fminf (x y : float) : float :=
  if F32.is_nan x then y else if F32.is_nan y then x
  else if y <? x then y else x.

Definition fmaxf (x y : float) : float :=
  if F32.is_nan x then y else if F32.is_nan y then x
  else if x <? y then y else x.

(** [RL_CheckCollisionLines].  [collisionPoint] is [None] for a null
    pointer and the value pointed to otherwise; the result carries that
    value after the call. *)
Definition RL_CheckCollisionLines (startPos1 endPos1 startPos2 endPos2 : RlVector2)
    (collisionPoint : option RlVector2) : bool * option RlVector2 :=
  let div :=
    (v_y endPos2 - v_y startPos2) * (v_x endPos1 - v_x startPos1)
    - (v_x endPos2 - v_x startPos2) * (v_y endPos1 - v_y startPos1) in
  if F32.fabsf div >=? FLT_EPSILON then
    let xi :=
      ((v_x startPos2 - v_x endPos2)
         * (v_x startPos1 * v_y endPos1 - v_y startPos1 * v_x endPos1)
       - (v_x startPos1 - v_x endPos1)
         * (v_x startPos2 * v_y endPos2 - v_y startPos2 * v_x endPos2)) / div in
    let yi :=
      ((v_y startPos2 - v_y endPos2)
         * (v_x startPos1 * v_y endPos1 - v_y startPos1 * v_x endPos1)
       - (v_y startPos1 - v_y endPos1)
         * (v_x startPos2 * v_y endPos2 - v_y startPos2 * v_x endPos2)) / div in
    let outside (i a b : float) : bool :=
      (F32.fabsf (a - b) >? FLT_EPSILON) && ((i <? fminf a b) || (i >? fmaxf a b)) in
    let collision :=
      negb (outside xi (v_x startPos1) (v_x endPos1)
            || outside xi (v_x startPos2) (v_x endPos2)
            || outside yi (v_y startPos1) (v_y endPos1)
            || outside yi (v_y startPos2) (v_y endPos2)) in
    match collisionPoint with
    | Some _ => (collision, if collision then Some (mkVector2 xi yi) else collisionPoint)
    | None => (collision, None)
    end
  else (false, collisionPoint).

(** [RL_CheckCollisionPointLine] *)
Definition RL_CheckCollisionPointLine (point p1 p2 : RlVector2) (threshold : Z) : bool :=
  let dxc := v_x point - v_x p1 in
  let dyc := v_y point - v_y p1 in
  let dxl := v_x p2 - v_x p1 in
  let dyl := v_y p2 - v_y p1 in
  let cross := dxc * dyl - dyc * dxl in
  if F32.fabsf cross <? $threshold * fmaxf (F32.fabsf dxl) (F32.fabsf dyl) then
    if F32.fabsf dxl >=? F32.fabsf dyl then
      if dxl >? $0
      then (v_x p1 <=? v_x point) && (v_x point <=? v_x p2)
      else (v_x p2 <=? v_x point) && (v_x point <=? v_x p1)
    else
      if dyl >? $0
      then (v_y p1 <=? v_y point) && (v_y point <=? v_y p2)
      else (v_y p2 <=? v_y point) && (v_y point <=? v_y p1)
  else false.

(** ** Rectangles and pixels *)

(** The rectangle and pixel functions also set the current normal, a call
    the functions above never make. *)
Inductive rl_command : Type :=
  | rl (c : rl_call)
  | rlNormal3f (x y z : float).

(** The vertices of a trace of commands, in emission order. *)
Definition command_vertices (tr : list rl_command) : list RlVector2 :=
  flat_map (fun c => match c with rl (rlVertex2f x y) => [mkVector2 x y] | _ => [] end) tr.

Section Rectangles.

Variables cosf sinf : float -> float.
Variable SUPPORT_QUADS_DRAW_MODE : bool.
Variable shapes : shapes_state.

(** [RL_DrawPixelV] *)
Definition RL_DrawPixelV (position : RlVector2) (color : RlColor) : list rl_command :=
  if SUPPORT_QUADS_DRAW_MODE then
    [ rl (rlSetTexture (tex_id (texShapes shapes)));
      rl (rlBegin RLGL_QUADS);
      rlNormal3f $0 $0 $1;
      rl (color4ub color);
      rl (rlTexCoord2f (tex_u0 shapes) (tex_v0 shapes));
      rl (rlVertex2f (v_x position) (v_y position));
      rl (rlTexCoord2f (tex_u0 shapes) (tex_v1 shapes));
      rl (rlVertex2f (v_x position) (v_y position + $1));
      rl (rlTexCoord2f (tex_u1 shapes) (tex_v1 shapes));
      rl (rlVertex2f (v_x position + $1) (v_y position + $1));
      rl (rlTexCoord2f (tex_u1 shapes) (tex_v0 shapes));
      rl (rlVertex2f (v_x position + $1) (v_y position));
      rl rlEnd;
      rl (rlSetTexture 0) ]
  else
    [ rl (rlBegin RLGL_TRIANGLES);
      rl (color4ub color);
      rl (rlVertex2f (v_x position) (v_y position));
      rl (rlVertex2f (v_x position) (v_y position + $1));
      rl (rlVertex2f (v_x position + $1) (v_y position));
      rl (rlVertex2f (v_x position + $1) (v_y position));
      rl (rlVertex2f (v_x position) (v_y position + $1));
      rl (rlVertex2f (v_x position + $1) (v_y position + $1));
      rl rlEnd ].

(** [RL_DrawPixel] *)
Definition RL_DrawPixel (posX posY : Z) (color : RlColor) : list rl_command :=
  RL_DrawPixelV (mkVector2 $posX $posY) color.

(** The corners [RL_DrawRectanglePro] computes before it draws. *)
Record corners : Type :=
  mkCorners { topLeft : RlVector2; topRight : RlVector2;
              bottomLeft : RlVector2; bottomRight : RlVector2 }.

Definition rectangle_corners (rec : RlRectangle) (origin : RlVector2) (rotation : float)
    : corners :=
  if rotation =? $0 then
    let x := rec_x rec - v_x origin in
    let y := rec_y rec - v_y origin in
    mkCorners (mkVector2 x y)
              (mkVector2 (x + rec_width rec) y)
              (mkVector2 x (y + rec_height rec))
              (mkVector2 (x + rec_width rec) (y + rec_height rec))
  else
    let sinRotation := sinf (rotation * DEG2RAD) in
    let cosRotation := cosf (rotation * DEG2RAD) in
    let x := rec_x rec in
    let y := rec_y rec in
    let dx := SFopp (v_x origin) in
    let dy := SFopp (v_y origin) in
    mkCorners
      (mkVector2 (x + dx * cosRotation - dy * sinRotation)
                 (y + dx * sinRotation + dy * cosRotation))
      (mkVector2 (x + (dx + rec_width rec) * cosRotation - dy * sinRotation)
                 (y + (dx + rec_width rec) * sinRotation + dy * cosRotation))
      (mkVector2 (x + dx * cosRotation - (dy + rec_height rec) * sinRotation)
                 (y + dx * sinRotation + (dy + rec_height rec) * cosRotation))
      (mkVector2 (x + (dx + rec_width rec) * cosRotation
                    - (dy + rec_height rec) * sinRotation)
                 (y + (dx + rec_width rec) * sinRotation
                    + (dy + rec_height rec) * cosRotation)).

(** [RL_DrawRectanglePro] *)
Definition RL_DrawRectanglePro (rec : RlRectangle) (origin : RlVector2)
    (rotation : float) (color : RlColor) : list rl_command :=
  let c := rectangle_corners rec origin rotation in
  if SUPPORT_QUADS_DRAW_MODE then
    [ rl (rlSetTexture (tex_id (texShapes shapes)));
      rl (rlBegin RLGL_QUADS);
      rlNormal3f $0 $0 $1;
      rl (color4ub color);
      rl (rlTexCoord2f (tex_u0 shapes) (tex_v0 shapes));
      rl (vertex2f (topLeft c));
      rl (rlTexCoord2f (tex_u0 shapes) (tex_v1 shapes));
      rl (vertex2f (bottomLeft c));
      rl (rlTexCoord2f (tex_u1 shapes) (tex_v1 shapes));
      rl (vertex2f (bottomRight c));
      rl (rlTexCoord2f (tex_u1 shapes) (tex_v0 shapes));
      rl (vertex2f (topRight c));
      rl rlEnd;
      rl (rlSetTexture 0) ]
  else
    [ rl (rlBegin RLGL_TRIANGLES);
      rl (color4ub color);
      rl (vertex2f (topLeft c));
      rl (vertex2f (bottomLeft c));
      rl (vertex2f (topRight c));
      rl (vertex2f (topRight c));
      rl (vertex2f (bottomLeft c));
      rl (vertex2f (bottomRight c));
      rl rlEnd ].

(** [RL_DrawRectangleRec] *)
Definition RL_DrawRectangleRec (rec : RlRectangle) (color : RlColor) : list rl_command :=
  RL_DrawRectanglePro rec (mkVector2 $0 $0) $0 color.

(** [RL_DrawRectangleV] *)
Definition RL_DrawRectangleV (position size : RlVector2) (color : RlColor)
    : list rl_command :=
  RL_DrawRectanglePro
    (mkRectangle (v_x position) (v_y position) (v_x size) (v_y size))
    (mkVector2 $0 $0) $0 color.

(** [RL_DrawRectangle] *)
Definition RL_DrawRectangle (posX posY width height : Z) (color : RlColor)
    : list rl_command :=
  RL_DrawRectangleV (mkVector2 $posX $posY) (mkVector2 $width $height) color.

(** The thickness [RL_DrawRectangleLinesEx] goes on with. *)
Definition lines_ex_thick (rec : RlRectangle) (lineThick : float) : float :=
  if (lineThick >? rec_width rec) || (lineThick >? rec_height rec) then
    if rec_width rec >? rec_height rec then rec_height rec / $2
    else if rec_width rec <? rec_height rec then rec_width rec / $2
    else lineThick
  else lineThick.

(** [RL_DrawRectangleLinesEx] *)
Definition RL_DrawRectangleLinesEx (rec : RlRectangle) (lineThick : float)
    (color : RlColor) : list rl_command :=
  let lineThick := lines_ex_thick rec lineThick in
  let top := mkRectangle (rec_x rec) (rec_y rec) (rec_width rec) lineThick in
  let bottom := mkRectangle (rec_x rec) (rec_y rec - lineThick + rec_height rec)
                            (rec_width rec) lineThick in
  let left := mkRectangle (rec_x rec) (rec_y rec + lineThick) lineThick
                          (rec_height rec - lineThick * $2) in
  let right := mkRectangle (rec_x rec - lineThick + rec_width rec)
                           (rec_y rec + lineThick) lineThick
                           (rec_height rec - lineThick * $2) in
  RL_DrawRectangleRec top color ++ RL_DrawRectangleRec bottom color
    ++ RL_DrawRectangleRec left color ++ RL_DrawRectangleRec right color.

End Rectangles.

(** ** Notions the properties are stated with *)

(** Exact coordinates and plane geometry over the rationals. *)
Definition exact_point (p : RlVector2) : option (Q * Q) :=
  let? x := F32.to_Q (v_x p) in
  let? y := F32.to_Q (v_y p) in
  Some (x, y).

Definition qsub (p q : Q * Q) : Q * Q := (fst p - fst q, snd p - snd q)%Q.
Definition qdot (p q : Q * Q) : Q := (fst p * fst q + snd p * snd q)%Q.

(** [p] and [q] straddle [c] across the direction [dir], up to [tol]:
    [c] is exactly their midpoint, each is at distance [1] from [c] (the
    squared distance is within [tol] of [1]), and the offset from [c] is
    normal to [dir] (the cosine of their angle is at most [tol]). *)
Definition straddles (p q c : RlVector2) (dir : Q * Q) (tol : Q) : Prop :=
  match exact_point p, exact_point q, exact_point c with
  | Some p, Some q, Some c =>
      (fst p + fst q == 2 * fst c /\ snd p + snd q == 2 * snd c
       /\ Qabs (qdot (qsub p c) (qsub p c) - 1) <= tol
       /\ Qabs (qdot (qsub q c) (qsub q c) - 1) <= tol
       /\ qdot (qsub p c) dir * qdot (qsub p c) dir
          <= tol * tol * (qdot (qsub p c) (qsub p c) * qdot dir dir))%Q
  | _, _, _ => False
  end.

(** The exact vector from [a] to [b]; the null vector when a coordinate is
    not finite. *)
Definition exact_vector (a b : RlVector2) : Q * Q :=
  match exact_point a, exact_point b with
  | Some a, Some b => qsub b a
  | _, _ => (0, 0)%Q
  end.

(** The exact value of [(b - a) x (p - a)]; zero when [p] lies on the line
    through [a] and [b]. *)
Definition exact_cross (p a b : RlVector2) : option Q :=
  let? px := F32.to_Q (v_x p) in
  let? py := F32.to_Q (v_y p) in
  let? ax := F32.to_Q (v_x a) in
  let? ay := F32.to_Q (v_y a) in
  let? bx := F32.to_Q (v_x b) in
  let? b_y := F32.to_Q (v_y b) in
  Some ((bx - ax) * (py - ay) - (b_y - ay) * (px - ax))%Q.

(** The exact value of [(p - a) . (b - a)]; between [0] and [|b - a|^2]
    when the projection of [p] falls between [a] and [b]. *)
Definition exact_dot (p a b : RlVector2) : option Q :=
  let? px := F32.to_Q (v_x p) in
  let? py := F32.to_Q (v_y p) in
  let? ax := F32.to_Q (v_x a) in
  let? ay := F32.to_Q (v_y a) in
  let? bx := F32.to_Q (v_x b) in
  let? b_y := F32.to_Q (v_y b) in
  Some ((px - ax) * (bx - ax) + (py - ay) * (b_y - ay))%Q.

(** [p] lies exactly on the segment from [a] to [b], ends excluded. *)
Definition on_open_segment (p a b : RlVector2) : Prop :=
  match exact_cross p a b, exact_dot p a b, exact_dot b a b with
  | Some c, Some d, Some l => (c == 0 /\ 0 < d /\ d < l)%Q
  | _, _, _ => False
  end.

(** The edges between consecutive points of a chain: [(l0, l1)],
    [(l1, l2)], ... up to the last point; none leads back to the first. *)
Definition chain_edges (l : list RlVector2) : list (RlVector2 * RlVector2) :=
  combine l (tl l).

(** One step of the even-odd rule: the answer flips on a crossed edge. *)
Definition toggle (point : RlVector2) (collision : bool)
    (edge : RlVector2 * RlVector2) : bool :=
  if poly_edge_crosses point (fst edge) (snd edge) then negb collision else collision.

(** The y-span of the edge from [vc] to [vn] straddles the height of
    [point]: one end is at that height or above it, the other strictly
    below it. *)
Definition straddles_y (point vc vn : RlVector2) : bool :=
  ((v_y point <=? v_y vc) && (v_y vn <? v_y point))
  || ((v_y vc <? v_y point) && (v_y point <=? v_y vn)).

(** The abscissa at which the line through [vc] and [vn] meets the height
    of [point]. *)
Definition edge_x_at (point vc vn : RlVector2) : float :=
  (v_x vn - v_x vc) * (v_y point - v_y vc) / (v_y vn - v_y vc) + v_x vc.

(** The even-odd rule on a chain of points: the answer starts false and
    flips on every edge between two consecutive points that [toggles]. *)
Definition even_odd (toggles : RlVector2 -> RlVector2 -> bool)
    (chain : list RlVector2) : bool :=
  fold_left (fun collision edge => xorb collision (toggles (fst edge) (snd edge)))
    (chain_edges chain) false.

(** [width*height], as a [float] product. *)
Definition rec_area (rec : RlRectangle) : float := rec_width rec * rec_height rec.

(** The four edges [x], [y], [x + width], [y + height] are numbers. *)
Definition rec_well_formed (rec : RlRectangle) : Prop :=
  F32.is_number (rec_x rec) = true
  /\ F32.is_number (rec_y rec) = true
  /\ F32.is_number (rec_x rec + rec_width rec) = true
  /\ F32.is_number (rec_y rec + rec_height rec) = true.

(** The right edge lies right of the left one, the bottom edge below the
    top one. *)
Definition rec_positive_extent (rec : RlRectangle) : Prop :=
  F32.lt (rec_x rec) (rec_x rec + rec_width rec)
  /\ F32.lt (rec_y rec) (rec_y rec + rec_height rec).

Definition clamp (x lo hi : float) : float :=
  if x <? lo then lo else if x >? hi then hi else x.

(** The circle-rectangle test as the specification words it: the
    rectangle's center, the delta from it to the circle's center clamped
    to the half-extents, and what remains of the delta compared, squared,
    with the squared radius. *)
Definition closest_point_test (center : RlVector2) (radius : float)
    (rec : RlRectangle) : bool :=
  let recCenterX := rec_x rec + rec_width rec / $2 in
  let recCenterY := rec_y rec + rec_height rec / $2 in
  let dx := v_x center - recCenterX in
  let dy := v_y center - recCenterY in
  let halfW := rec_width rec / $2 in
  let halfH := rec_height rec / $2 in
  let rx := dx - clamp dx (SFopp halfW) halfW in
  let ry := dy - clamp dy (SFopp halfH) halfH in
  rx * rx + ry * ry <=? radius * radius.

(** Zero (of either sign) or NaN. *)
Definition zero_or_nan (x : float) : bool :=
  match x with S754_zero _ | S754_nan => true | _ => false end.

(** Not negative: NaN, a zero, a positive number or [+inf]. *)
Definition nonneg_or_nan (x : float) : bool :=
  match x with
  | S754_nan | S754_zero _ | S754_infinity false | S754_finite false _ _ => true
  | _ => false
  end.

(** Not positive: NaN, a zero, a negative number or [-inf]. *)
Definition nonpos_or_nan (x : float) : bool :=
  match x with
  | S754_nan | S754_zero _ | S754_infinity true | S754_finite true _ _ => true
  | _ => false
  end.

(** An infinity or NaN. *)
Definition infinite_or_nan (x : float) : bool :=
  match x with S754_infinity _ | S754_nan => true | _ => false end.

(** The number of vertices a sector of [n] segments takes. *)
Definition sector_vertex_count (quads : bool) (n : Z) : nat :=
  if quads
  then (4 * Z.to_nat (Z.quot n 2) + (if (Z.rem n 2 =? 0)%Z then 0 else 4))%nat
  else (3 * Z.to_nat n)%nat.

(** Both coordinates are NaN. *)
Definition nan_point (p : RlVector2) : bool :=
  F32.is_nan (v_x p) && F32.is_nan (v_y p).

(** What [z + b] can be for a [z] that is a zero or a NaN: NaN, [b]
    itself, or a zero where [b] is one. *)
Definition zero_shifted (b v : float) : Prop :=
  v = S754_nan \/ v = b \/ (zero_or_nan b = true /\ zero_or_nan v = true).

(** The first [m] entries of [points] are NaN points. *)
Definition nan_upto (m : nat) (points : list RlVector2) : Prop :=
  forall k : nat, (k < m)%nat ->
    exists v : RlVector2, nth_error points k = Some v /\ nan_point v = true.

(** * Properties *)

(** ** Facts on binary32 comparisons *)

Module F32Facts.

Import F32.
Local Open Scope Z_scope.

Lemma geb_leb (x y : float) : geb x y = leb y x.
Proof. reflexivity. Qed.

Lemma gtb_ltb (x y : float) : gtb x y = ltb y x.
Proof. reflexivity. Qed.

Lemma compare_cont_Eq_refl (m : positive) : Pos.compare_cont Eq m m = Eq.
Proof. exact (Pos.compare_refl m). Qed.

Lemma SFcompare_swap (x y : float) :
  SFcompare y x = option_map CompOpp (SFcompare x y).
Proof.
  destruct x as [[]|[]| |[] mx ex], y as [[]|[]| |[] my ey]; simpl; try reflexivity.
  - rewrite (Z.compare_antisym ey ex).
    destruct (ey ?= ex)%Z; simpl; try reflexivity.
    change (Pos.compare_cont Eq my mx) with (Pos.compare my mx).
    change (Pos.compare_cont Eq mx my) with (Pos.compare mx my).
    rewrite (Pos.compare_antisym mx my). reflexivity.
  - rewrite (Z.compare_antisym ey ex).
    destruct (ey ?= ex)%Z; simpl; try reflexivity.
    change (Pos.compare_cont Eq my mx) with (Pos.compare my mx).
    change (Pos.compare_cont Eq mx my) with (Pos.compare mx my).
    rewrite (Pos.compare_antisym mx my). reflexivity.
Qed.

(** [<] is asymmetric, NaN included. *)
Lemma ltb_asym (x y : float) : ltb x y = true -> ltb y x = false.
Proof.
  unfold ltb, SFltb. rewrite (SFcompare_swap x y).
  destruct (SFcompare x y) as [[]|]; simpl; congruence.
Qed.

Lemma ltb_irrefl (x : float) : ltb x x = false.
Proof.
  destruct (ltb x x) eqn:E; [|reflexivity].
  pose proof (ltb_asym _ _ E). congruence.
Qed.

(** A number that compares with anything is not NaN, hence equal to itself. *)
Lemma leb_refl_of_ltb (x y : float) : ltb x y = true -> leb x x = true.
Proof.
  unfold ltb, leb, SFltb, SFleb.
  destruct x as [[]|[]| |[] mx ex]; simpl; try reflexivity; try discriminate;
    intros _; rewrite Z.compare_refl, compare_cont_Eq_refl; reflexivity.
Qed.

(** Two numbers that compare equal are not ordered by [<]. *)
Lemma ltb_false_of_eqb (x y : float) : eqb x y = true -> ltb y x = false.
Proof.
  unfold ltb, eqb, SFltb, SFeqb. rewrite (SFcompare_swap x y).
  destruct (SFcompare x y) as [[]|]; simpl; congruence.
Qed.

(** Above a non-negative number there are only positive ones. *)
Lemma pos_of_nonneg_ltb (x y : float) :
  leb (of_Z 0) x = true -> ltb x y = true -> leb y (of_Z 0) = false.
Proof.
  unfold ltb, leb, SFltb, SFleb.
  destruct x as [[]|[]| |[] mx ex], y as [[]|[]| |[] my ey]; simpl;
    try reflexivity; try discriminate.
Qed.

(** Case analysis on every comparison of exponents and mantissas in sight. *)
Ltac compare_cases :=
  repeat match goal with
    | H : context [Pos.compare_cont Eq ?a ?b] |- _ =>
        change (Pos.compare_cont Eq a b) with (Pos.compare a b) in H
    | |- context [Pos.compare_cont Eq ?a ?b] =>
        change (Pos.compare_cont Eq a b) with (Pos.compare a b)
    end;
  repeat match goal with
    | H : context [Z.compare ?a ?b] |- _ => destruct (Z.compare_spec a b)
    | |- context [Z.compare ?a ?b] => destruct (Z.compare_spec a b)
    | H : context [Pos.compare ?a ?b] |- _ => destruct (Pos.compare_spec a b)
    | |- context [Pos.compare ?a ?b] => destruct (Pos.compare_spec a b)
    end;
  subst; simpl in *; try discriminate; try reflexivity; try lia.

Lemma ltb_trans (a b c : float) :
  ltb a b = true -> ltb b c = true -> ltb a c = true.
Proof.
  unfold ltb, SFltb.
  destruct a as [[]|[]| |[] ma ea], b as [[]|[]| |[] mb eb], c as [[]|[]| |[] mc ec];
    simpl; try discriminate; try reflexivity; intros H1 H2; compare_cases.
Qed.

Lemma leb_ltb_trans (a b c : float) :
  leb a b = true -> ltb b c = true -> ltb a c = true.
Proof.
  unfold ltb, leb, SFltb, SFleb.
  destruct a as [[]|[]| |[] ma ea], b as [[]|[]| |[] mb eb], c as [[]|[]| |[] mc ec];
    simpl; try discriminate; try reflexivity; intros H1 H2; compare_cases.
Qed.

Lemma ltb_leb_trans (a b c : float) :
  ltb a b = true -> leb b c = true -> ltb a c = true.
Proof.
  unfold ltb, leb, SFltb, SFleb.
  destruct a as [[]|[]| |[] ma ea], b as [[]|[]| |[] mb eb], c as [[]|[]| |[] mc ec];
    simpl; try discriminate; try reflexivity; intros H1 H2; compare_cases.
Qed.

(** Two numbers, neither a NaN, are ordered one way or the other. *)
Lemma leb_of_not_ltb (a b : float) :
  is_nan a = false -> is_nan b = false -> ltb a b = false -> leb b a = true.
Proof.
  unfold ltb, leb, SFltb, SFleb.
  destruct a as [[]|[]| |[] ma ea], b as [[]|[]| |[] mb eb];
    simpl; try discriminate; try reflexivity; intros _ _ H; compare_cases.
Qed.

(** *** Subtraction never cancels to zero *)

Lemma digits2_pos_size (m : positive) : digits2_pos m = Pos.size m.
Proof. induction m; simpl; congruence. Qed.

Lemma digits2_upper (m : positive) : Z.pos m < 2 ^ Z.pos (digits2_pos m).
Proof.
  rewrite digits2_pos_size.
  pose proof (Pos.size_gt m) as H.
  apply Pos2Z.pos_lt_pos in H. now rewrite Pos2Z.inj_pow in H.
Qed.

Lemma digits2_lower (m : positive) : 2 ^ Z.pos (digits2_pos m) <= 2 * Z.pos m.
Proof.
  rewrite digits2_pos_size.
  pose proof (Pos.size_le m) as H.
  apply Pos2Z.pos_le_pos in H. now rewrite Pos2Z.inj_pow in H.
Qed.

(** One shift to the right drops one digit and keeps the sign. *)
Lemma shr_1_digits (s : shr_record) :
  0 <= shr_m s ->
  0 <= shr_m (shr_1 s)
  /\ Zdigits2 (shr_m (shr_1 s)) = Z.max 0 (Zdigits2 (shr_m s) - 1).
Proof.
  destruct s as [m r t]. cbn [shr_m]. intros Hm.
  destruct m as [|[p|p|]|p]; cbn [shr_1 shr_m Zdigits2 digits2_pos];
    rewrite ?Pos2Z.inj_succ; lia.
Qed.

Lemma iter_shr_1_digits (p : positive) :
  forall s : shr_record,
    0 <= shr_m s ->
    0 <= shr_m (iter_pos shr_1 p s)
    /\ Zdigits2 (shr_m (iter_pos shr_1 p s)) = Z.max 0 (Zdigits2 (shr_m s) - Z.pos p).
Proof.
  induction p as [p IH|p IH|]; intros s Hs; simpl.
  - destruct (shr_1_digits s Hs) as [H1 E1].
    destruct (IH _ H1) as [H2 E2].
    destruct (IH _ H2) as [H3 E3].
    split; [assumption|]. rewrite E3, E2, E1. lia.
  - destruct (IH _ Hs) as [H2 E2].
    destruct (IH _ H2) as [H3 E3].
    split; [assumption|]. rewrite E3, E2. lia.
  - now apply shr_1_digits.
Qed.

Lemma Zdigits2_pos (m : Z) : 0 < m -> 0 < Zdigits2 m.
Proof. destruct m; simpl; lia. Qed.

Lemma pos_of_digits (m : Z) : 0 <= m -> 0 < Zdigits2 m -> 0 < m.
Proof. destruct m; simpl; lia. Qed.

(** Rounding a positive mantissa whose exponent is not below [emin] to
    the format leaves a positive mantissa. *)
Lemma shr_fexp_pos (m e : Z) (l : location) :
  0 < m -> emin prec emax <= e ->
  0 < shr_m (fst (shr_fexp prec emax m e l))
  /\ emin prec emax <= snd (shr_fexp prec emax m e l).
Proof.
  intros Hm He. unfold shr_fexp, shr.
  assert (Hrec : shr_m (shr_record_of_loc m l) = m) by (destruct l as [|[]]; reflexivity).
  pose proof (Zdigits2_pos m Hm) as Hd.
  destruct (fexp prec emax (Zdigits2 m + e) - e) as [|p|p] eqn:En; simpl;
    try (rewrite Hrec; lia).
  destruct (iter_shr_1_digits p (shr_record_of_loc m l)) as [H0 E]; [rewrite Hrec; lia|].
  rewrite Hrec in E. split.
  - apply pos_of_digits; [assumption|]. rewrite E.
    unfold fexp, emin, prec, emax in *. lia.
  - lia.
Qed.

Lemma round_nearest_even_ge (m : Z) (l : location) : m <= round_nearest_even m l.
Proof. destruct l as [|[]]; simpl; try lia. destruct (Z.even m); lia. Qed.

Lemma binary_round_aux_pos (m : positive) (e : Z) (l : location) :
  emin prec emax <= e ->
  positive_number (binary_round_aux prec emax false (Z.pos m) e l) = true.
Proof.
  intros He. unfold binary_round_aux.
  destruct (shr_fexp_pos (Z.pos m) e l) as [H1 E1]; [lia|assumption|].
  destruct (shr_fexp prec emax (Z.pos m) e l) as [mrs' e']. simpl in H1, E1.
  pose proof (round_nearest_even_ge (shr_m mrs') (loc_of_shr_record mrs')) as Hr.
  destruct (shr_fexp_pos (round_nearest_even (shr_m mrs') (loc_of_shr_record mrs')) e' loc_Exact)
    as [H2 E2]; [lia|assumption|].
  destruct (shr_fexp prec emax _ e' loc_Exact) as [mrs'' e'']. simpl in H2.
  destruct (shr_m mrs''); try lia.
  destruct (e'' <=? emax - prec); reflexivity.
Qed.

Lemma binary_normalize_pos (d e : Z) :
  0 < d -> emin prec emax <= e ->
  positive_number (binary_normalize prec emax d e false) = true.
Proof.
  intros Hd He. destruct d as [|d|d]; try lia.
  unfold binary_normalize, binary_round, shl_align.
  destruct (fexp prec emax (Z.pos (digits2_pos d) + e) - e) as [|p|p] eqn:En;
    apply binary_round_aux_pos; try assumption.
  unfold fexp, emin, prec, emax in *. lia.
Qed.

Lemma valid_finite (s : bool) (m : positive) (e : Z) :
  valid (S754_finite s m e) ->
  emin prec emax <= e
  /\ Z.pos (digits2_pos m) <= prec
  /\ (emin prec emax < e -> Z.pos (digits2_pos m) = prec).
Proof.
  unfold valid, valid_binary, bounded, canonical_mantissa.
  intros H. apply andb_prop in H. destruct H as [H _].
  apply Z.eqb_eq in H. unfold fexp in H. lia.
Qed.

Lemma shl_align_value (m : positive) (e e' : Z) :
  e' <= e ->
  Z.pos (fst (shl_align m e e')) = Z.pos m * 2 ^ (e - e').
Proof.
  intros He. unfold shl_align.
  destruct (e' - e) as [|d|d] eqn:Ed; try lia.
  - replace (e - e') with 0 by lia. simpl fst. lia.
  - replace (e - e') with (Z.pos d) by lia. simpl fst.
    change (Pos.iter xO m d) with (shift_pos d m).
    rewrite shift_pos_correct, Z.pow_pos_fold. lia.
Qed.

(** Between two numbers of the format with the same sign, the one with
    the larger exponent, or with the larger mantissa at equal exponents,
    has the larger magnitude. *)
Lemma magnitude_lt (m1 m2 : positive) (e1 e2 : Z) (s1 s2 : bool) :
  valid (S754_finite s1 m1 e1) -> valid (S754_finite s2 m2 e2) ->
  match e1 ?= e2 with
  | Lt => True
  | Eq => Pos.compare_cont Eq m1 m2 = Lt
  | Gt => False
  end ->
  Z.pos (fst (shl_align m1 e1 (Z.min e2 e1)))
  < Z.pos (fst (shl_align m2 e2 (Z.min e2 e1))).
Proof.
  intros V1 V2 H.
  apply valid_finite in V1, V2.
  destruct V1 as (V1a & V1b & V1c), V2 as (V2a & V2b & V2c).
  rewrite !shl_align_value by lia.
  destruct (Z.compare_spec e1 e2) as [E|E|E]; [| |contradiction].
  - subst e2. rewrite Z.min_id, Z.sub_diag, !Z.mul_1_r.
    exact H.
  - replace (Z.min e2 e1) with e1 by lia.
    rewrite Z.sub_diag, Z.mul_1_r.
    specialize (V2c ltac:(lia)).
    pose proof (digits2_upper m1) as U1.
    pose proof (digits2_lower m2) as L2.
    rewrite V2c in L2.
    assert (Z.pos m1 < 2 ^ prec).
    { eapply Z.lt_le_trans; [exact U1|]. apply Z.pow_le_mono_r; lia. }
    assert (2 ^ 1 <= 2 ^ (e2 - e1)) by (apply Z.pow_le_mono_r; lia).
    change (2 ^ 1) with 2 in *. nia.
Qed.

(** In binary32 the difference of two distinct numbers is never zero:
    if [x < y] then [0 < y - x]. *)
Lemma sub_positive (x y : float) :
  valid x -> valid y -> ltb x y = true -> ltb (of_Z 0) (sub y x) = true.
Proof.
  intros Vx Vy Hlt.
  assert (P : positive_number (sub y x) = true).
  { unfold ltb, SFltb in Hlt. unfold sub.
    destruct x as [sx|sx| |sx mx ex], y as [sy|sy| |sy my ey];
      try destruct sx; try destruct sy; try discriminate Hlt; try reflexivity.
    - (* both negative *)
      unfold SFsub. apply binary_normalize_pos.
      + cbn [cond_Zopp]. cbn [SFcompare] in Hlt.
        pose proof (magnitude_lt my mx ey ex true true Vy Vx) as M.
        rewrite Z.min_comm in M.
        rewrite (Z.compare_antisym ex ey) in M.
        destruct (ex ?= ey) eqn:E; cbn [CompOpp] in M; try discriminate Hlt.
        * change (Pos.compare_cont Eq my mx) with (Pos.compare my mx) in M.
          change (Pos.compare_cont Eq mx my) with (Pos.compare mx my) in Hlt.
          rewrite (Pos.compare_antisym mx my) in M.
          destruct (mx ?= my)%positive; try discriminate Hlt.
          specialize (M eq_refl). lia.
        * specialize (M I). lia.
      + apply valid_finite in Vx, Vy. lia.
    - (* x negative, y positive *)
      unfold SFsub. apply binary_normalize_pos.
      + cbn [cond_Zopp]. lia.
      + apply valid_finite in Vx, Vy. lia.
    - (* both positive *)
      unfold SFsub. apply binary_normalize_pos.
      + cbn [cond_Zopp]. cbn [SFcompare] in Hlt.
        pose proof (magnitude_lt mx my ex ey false false Vx Vy) as M.
        destruct (ex ?= ey) eqn:E; try discriminate Hlt.
        * destruct (Pos.compare_cont Eq mx my); try discriminate Hlt.
          specialize (M eq_refl). lia.
        * specialize (M I). lia.
      + apply valid_finite in Vx, Vy. lia. }
  unfold ltb, SFltb.
  destruct (sub y x) as [[]|[]| |[] m e]; try discriminate P; reflexivity.
Qed.

Lemma is_number_valid (x : float) : is_number x = true -> valid x.
Proof. unfold is_number, valid. intros H. now apply andb_prop in H. Qed.

Lemma is_number_not_nan (x : float) : is_number x = true -> is_nan x = false.
Proof.
  unfold is_number. intros H. apply andb_prop in H.
  now apply negb_true_iff.
Qed.

End F32Facts.

(** ** The shapes texture *)

Lemma shapes_init_valid : shapes_valid shapes_init.
Proof. split; [discriminate | split; reflexivity]. Qed.

Lemma SetShapesTexture_valid (texture : RlTexture2D) (source : RlRectangle)
    (st : shapes_state) :
  shapes_valid (SetShapesTexture texture source st).
Proof.
  unfold SetShapesTexture.
  destruct (tex_id texture =? 0)%Z eqn:Hid; simpl; [exact shapes_init_valid|].
  destruct (rec_width source =? $0) eqn:Hw; simpl; [exact shapes_init_valid|].
  destruct (rec_height source =? $0) eqn:Hh; simpl; [exact shapes_init_valid|].
  repeat split; simpl; try assumption.
  now apply Z.eqb_neq.
Qed.

Lemma run_SetShapesTexture_valid (calls : list (RlTexture2D * RlRectangle)) :
  forall st, shapes_valid st -> shapes_valid (run_SetShapesTexture calls st).
Proof.
  induction calls as [|[texture source] calls IH]; intros st Hst; simpl.
  - exact Hst.
  - apply IH, SetShapesTexture_valid.
Qed.

(** C9.  [SetShapesTexture(texture, source)] resets the binding to the
    default white pixel [{1,1,1,1,7}] with source [{0,0,1,1}] when
    [texture.id == 0], [source.width == 0] or [source.height == 0], and
    stores the supplied pair otherwise; so the binding is valid after any
    call, from any state, and after any sequence of calls from the
    default: its texture id, source width and source height are never
    zero. *)
Theorem SetShapesTexture_binding :
  forall (texture : RlTexture2D) (source : RlRectangle) (st : shapes_state)
         (calls : list (RlTexture2D * RlRectangle)),
    (tex_id texture = 0%Z \/ (rec_width source =? $0) = true
     \/ (rec_height source =? $0) = true ->
     SetShapesTexture texture source st
     = mkShapes (mkTexture 1 1 1 1 7) (mkRectangle $0 $0 $1 $1))
    /\ (tex_id texture <> 0%Z /\ (rec_width source =? $0) = false
        /\ (rec_height source =? $0) = false ->
        SetShapesTexture texture source st = mkShapes texture source)
    /\ shapes_init = mkShapes (mkTexture 1 1 1 1 7) (mkRectangle $0 $0 $1 $1)
    /\ shapes_valid (SetShapesTexture texture source st)
    /\ shapes_valid (run_SetShapesTexture calls shapes_init).
Proof.
  intros texture source st calls.
  split; [|split; [|split; [reflexivity|split]]].
  - unfold SetShapesTexture. intros [H|[H|H]].
    + rewrite H. reflexivity.
    + rewrite H, orb_true_r. reflexivity.
    + rewrite H, orb_true_r. reflexivity.
  - unfold SetShapesTexture. intros (Hid & Hw & Hh).
    apply Z.eqb_neq in Hid. rewrite Hid, Hw, Hh. reflexivity.
  - apply SetShapesTexture_valid.
  - apply run_SetShapesTexture_valid, shapes_init_valid.
Qed.

(** A texture with id [0] resets the binding; a later valid pair replaces
    it; a source of width [-0.0] resets it again. *)
Example SetShapesTexture_runs :
  let atlas := mkTexture 3 256 256 1 7 in
  let cell := mkRectangle $8 $8 $2 $2 in
  run_SetShapesTexture [(mkTexture 0 256 256 1 7, cell)] shapes_init = shapes_init
  /\ run_SetShapesTexture [(mkTexture 0 256 256 1 7, cell); (atlas, cell)] shapes_init
     = mkShapes atlas cell
  /\ run_SetShapesTexture
       [(atlas, cell); (atlas, mkRectangle $8 $8 (S754_zero true) $2)] shapes_init
     = shapes_init.
Proof. vm_compute. repeat split. Qed.

(** ** Points, circles and rectangles *)

(** C10.  [RL_CheckCollisionPointRec] holds exactly when
    [rec.x <= p.x < rec.x + rec.width] and
    [rec.y <= p.y < rec.y + rec.height]: a point on the right or on the
    bottom edge is never inside, and the top-left corner of a rectangle
    of positive extent is. *)
Theorem point_rec_half_open :
  forall (point : RlVector2) (rec : RlRectangle),
    (RL_CheckCollisionPointRec point rec = true <->
       F32.le (rec_x rec) (v_x point)
       /\ F32.lt (v_x point) (rec_x rec + rec_width rec)
       /\ F32.le (rec_y rec) (v_y point)
       /\ F32.lt (v_y point) (rec_y rec + rec_height rec))
    /\ (forall y, RL_CheckCollisionPointRec
                    (mkVector2 (rec_x rec + rec_width rec) y) rec = false)
    /\ (forall x, RL_CheckCollisionPointRec
                    (mkVector2 x (rec_y rec + rec_height rec)) rec = false)
    /\ (F32.lt (rec_x rec) (rec_x rec + rec_width rec) ->
        F32.lt (rec_y rec) (rec_y rec + rec_height rec) ->
        RL_CheckCollisionPointRec (mkVector2 (rec_x rec) (rec_y rec)) rec = true).
Proof.
  intros point rec. unfold RL_CheckCollisionPointRec, F32.le, F32.lt.
  rewrite !F32Facts.geb_leb.
  split; [split|split; [|split]].
  - intros H. rewrite !andb_true_iff in H. tauto.
  - intros (H1 & H2 & H3 & H4). rewrite H1, H2, H3, H4. reflexivity.
  - intros y. simpl. rewrite F32Facts.ltb_irrefl, andb_false_r. reflexivity.
  - intros x. simpl. rewrite F32Facts.ltb_irrefl, !andb_false_r. reflexivity.
  - intros Hx Hy. simpl.
    rewrite (F32Facts.leb_refl_of_ltb _ _ Hx), (F32Facts.leb_refl_of_ltb _ _ Hy).
    rewrite Hx, Hy. reflexivity.
Qed.

(** The corners of the rectangle [{0, 0, 4, 3}]. *)
Example point_rec_corners :
  let rec := mkRectangle $0 $0 $4 $3 in
  RL_CheckCollisionPointRec (mkVector2 $0 $0) rec = true
  /\ RL_CheckCollisionPointRec (mkVector2 $4 $0) rec = false
  /\ RL_CheckCollisionPointRec (mkVector2 $0 $3) rec = false
  /\ RL_CheckCollisionPointRec (mkVector2 $4 $3) rec = false.
Proof. vm_compute. repeat split. Qed.

(** C8.  [RL_CheckCollisionPointCircle(p, c, r)] is
    [RL_CheckCollisionCircles(p, 0, c, r)]: the distance between [p] and
    [c] is compared with [0 + r]. *)
Theorem point_circle_is_circles :
  forall (p c : RlVector2) (r : float),
    RL_CheckCollisionPointCircle p c r = RL_CheckCollisionCircles p $0 c r
    /\ RL_CheckCollisionPointCircle p c r =
         (F32.sqrtf ((v_x c - v_x p) * (v_x c - v_x p)
                     + (v_y c - v_y p) * (v_y c - v_y p)) <=? $0 + r).
Proof. intros p c r. split; reflexivity. Qed.

Example point_circle_3_4_5 :
  RL_CheckCollisionPointCircle (mkVector2 $3 $4) (mkVector2 $0 $0) $5 = true
  /\ RL_CheckCollisionPointCircle (mkVector2 $3 $4) (mkVector2 $0 $0) $4 = false.
Proof. vm_compute. split; reflexivity. Qed.

(** ** Point in triangle *)

(** The point [(9, 1)] lies exactly on the edge from [(10, 0)] to
    [(0, 10)], and the test reports it inside the triangle
    [(10, 0), (0, 10), (0, 0)]: [alpha] and [beta] are [0.9f] and [0.1f],
    both rounded, and [1 - alpha - beta] comes out as [1.5 * 2^-26]. *)
Lemma point_triangle_rounded_edge_point :
  on_open_segment (mkVector2 $9 $1) (mkVector2 $10 $0) (mkVector2 $0 $10)
  /\ triangle_gamma (mkVector2 $9 $1)
       (mkVector2 $10 $0) (mkVector2 $0 $10) (mkVector2 $0 $0)
     = S754_finite false 12582912 (-49)
  /\ RL_CheckCollisionPointTriangle (mkVector2 $9 $1)
       (mkVector2 $10 $0) (mkVector2 $0 $10) (mkVector2 $0 $0) = true.
Proof.
  split; [|split; vm_compute; reflexivity].
  vm_compute. repeat split.
Qed.

(** C6 (amended).  [RL_CheckCollisionPointTriangle] holds exactly when the
    three barycentric coordinates it computes, [alpha], [beta] and
    [gamma = 1 - alpha - beta], are all strictly positive; a point for
    which one of the computed coordinates is zero is not colliding. *)
Theorem point_triangle_strict :
  forall (point p1 p2 p3 : RlVector2),
    (RL_CheckCollisionPointTriangle point p1 p2 p3 = true <->
       F32.lt $0 (triangle_alpha point p1 p2 p3)
       /\ F32.lt $0 (triangle_beta point p1 p2 p3)
       /\ F32.lt $0 (triangle_gamma point p1 p2 p3))
    /\ ((triangle_alpha point p1 p2 p3 =? $0) = true
        \/ (triangle_beta point p1 p2 p3 =? $0) = true
        \/ (triangle_gamma point p1 p2 p3 =? $0) = true ->
        RL_CheckCollisionPointTriangle point p1 p2 p3 = false).
Proof.
  intros point p1 p2 p3.
  unfold RL_CheckCollisionPointTriangle, F32.lt.
  fold (triangle_gamma point p1 p2 p3). rewrite !F32Facts.gtb_ltb.
  split.
  - rewrite !andb_true_iff. tauto.
  - intros [H|[H|H]]; apply F32Facts.ltb_false_of_eqb in H; rewrite H;
      rewrite ?andb_false_r; reflexivity.
Qed.

(** Points of the edges of the triangle [(0,0), (4,0), (0,4)] whose
    coordinates are computed exactly, and an interior point. *)
Example point_triangle_exact_edges :
  let p1 := mkVector2 $0 $0 in
  let p2 := mkVector2 $4 $0 in
  let p3 := mkVector2 $0 $4 in
  RL_CheckCollisionPointTriangle (mkVector2 $2 $0) p1 p2 p3 = false
  /\ RL_CheckCollisionPointTriangle (mkVector2 $2 $2) p1 p2 p3 = false
  /\ RL_CheckCollisionPointTriangle (mkVector2 $0 $2) p1 p2 p3 = false
  /\ RL_CheckCollisionPointTriangle p1 p1 p2 p3 = false
  /\ RL_CheckCollisionPointTriangle (mkVector2 $1 $1) p1 p2 p3 = true.
Proof. vm_compute. repeat split. Qed.

(** ** Circle and rectangle *)

(** C4.  [RL_CheckCollisionCircleRec] cuts the rectangle's center to an
    [int] before it measures from it.  For the rectangle [{0, 0, 1, 1}]
    the center [(0.5, 0.5)] becomes [(0, 0)], and the circle of radius
    [0.5] at [(1.25, 0.5)], whose closest rectangle point [(1, 0.5)] is at
    distance [0.25] (squared, [1/16]), is reported as not colliding; the
    test on the untruncated center accepts it. *)
Theorem circle_rec_center_truncated :
  let center := mkVector2 ($5 / $4) F32.half in
  let rec := mkRectangle $0 $0 $1 $1 in
  let closest := mkVector2 $1 F32.half in
  F32.to_int (rec_x rec + rec_width rec / $2) = Some 0%Z
  /\ F32.to_int (rec_y rec + rec_height rec / $2) = Some 0%Z
  /\ RL_CheckCollisionCircleRec center F32.half rec = Some false
  /\ closest_point_test center F32.half rec = true
  /\ (v_x closest =? rec_x rec + rec_width rec) = true
  /\ (rec_y rec <=? v_y closest) = true
  /\ (v_y closest <=? rec_y rec + rec_height rec) = true
  /\ match exact_point center, exact_point closest, F32.to_Q F32.half with
     | Some c, Some p, Some r =>
         (qdot (qsub p c) (qsub p c) == 1 # 16 /\ 1 # 16 <= r * r)%Q
     | _, _, _ => False
     end.
Proof. vm_compute. repeat split; intros H; discriminate H. Qed.

(** ** Point in polygon *)

Lemma array_get_of_nat {A : Type} (l : list A) (k : nat) :
  array_get l (Z.of_nat k) = nth_error l k.
Proof.
  unfold array_get.
  destruct (Z.ltb_spec (Z.of_nat k) 0) as [H|H]; [lia|].
  now rewrite Nat2Z.id.
Qed.

Lemma array_get_middle {A : Type} (pre : list A) (x : A) (rest : list A) :
  array_get (pre ++ x :: rest) (Z.of_nat (length pre)) = Some x.
Proof.
  rewrite array_get_of_nat, nth_error_app2 by lia.
  now rewrite Nat.sub_diag.
Qed.

(** The loop started at the head of [l], inside [pre ++ l ++ rest], for
    one iteration less than [l] has points folds [toggle] over the edges
    of [l]. *)
Lemma poly_loop_chain (point : RlVector2) (l : list RlVector2) :
  forall (pre rest : list RlVector2) (x : RlVector2) (c : bool),
    poly_loop point (pre ++ (x :: l) ++ rest) (length l) (Z.of_nat (length pre)) c
    = Some (fold_left (toggle point) (chain_edges (x :: l)) c).
Proof.
  induction l as [|y l IH]; intros pre rest x c.
  - reflexivity.
  - cbn [length poly_loop].
    change ((x :: y :: l) ++ rest) with (x :: (y :: l) ++ rest).
    rewrite array_get_middle.
    replace (pre ++ x :: (y :: l) ++ rest) with ((pre ++ [x]) ++ (y :: l) ++ rest)
      by (rewrite <- app_assoc; reflexivity).
    replace (Z.of_nat (length pre) + 1)%Z with (Z.of_nat (length (pre ++ [x])))
      by (rewrite length_app; simpl; lia).
    change ((y :: l) ++ rest) with (y :: l ++ rest) at 1.
    rewrite array_get_middle.
    rewrite IH. reflexivity.
Qed.

Lemma chain_edges_length (l : list RlVector2) :
  length (chain_edges l) = Nat.pred (length l).
Proof.
  destruct l as [|x l]; [reflexivity|].
  unfold chain_edges. rewrite length_combine. cbn [tl length Nat.pred]. lia.
Qed.

Lemma last_cons_default {A : Type} (y : A) (l : list A) (d d' : A) :
  last (y :: l) d = last (y :: l) d'.
Proof.
  revert y. induction l as [|z l IH]; intros y; [reflexivity|].
  change (last (z :: l) d = last (z :: l) d'). apply IH.
Qed.

(** One more point at the end of a chain adds one edge, from the chain's
    last point to the new one. *)
Lemma chain_edges_snoc (l : list RlVector2) :
  forall (x z : RlVector2),
    chain_edges ((x :: l) ++ [z]) = chain_edges (x :: l) ++ [(last (x :: l) x, z)].
Proof.
  induction l as [|y l IH]; intros x z.
  - reflexivity.
  - change (chain_edges ((x :: y :: l) ++ [z]))
      with ((x, y) :: chain_edges ((y :: l) ++ [z])).
    rewrite IH.
    change (chain_edges (x :: y :: l)) with ((x, y) :: chain_edges (y :: l)).
    change (last (x :: y :: l) x) with (last (y :: l) x).
    rewrite (last_cons_default y l x y). reflexivity.
Qed.

(** The test on the first [1 + length l] points of an array. *)
Lemma point_poly_prefix (point x : RlVector2) (l rest : list RlVector2) :
  (2 <= length l)%nat ->
  RL_CheckCollisionPointPoly point ((x :: l) ++ rest) (Z.of_nat (S (length l)))
  = Some (fold_left (toggle point) (chain_edges (x :: l)) false).
Proof.
  intros Hl. unfold RL_CheckCollisionPointPoly.
  destruct (Z.gtb_spec (Z.of_nat (S (length l))) 2) as [_|H]; [|lia].
  replace (Z.to_nat (Z.of_nat (S (length l)) - 1)) with (length l) by lia.
  exact (poly_loop_chain point l [] rest x false).
Qed.

(** The loop's toggle is the flip of the even-odd rule for the edges that
    straddle the point's height and pass right of the point. *)
Lemma fold_toggle_crossing (point : RlVector2) (edges : list (RlVector2 * RlVector2)) :
  forall c : bool,
    fold_left (toggle point) edges c
    = fold_left
        (fun collision edge =>
           xorb collision
             (straddles_y point (fst edge) (snd edge)
              && (v_x point <? edge_x_at point (fst edge) (snd edge))))
        edges c.
Proof.
  induction edges as [|e edges IH]; intros c; [reflexivity|].
  cbn [fold_left]. rewrite IH. f_equal.
  unfold toggle, poly_edge_crosses, straddles_y, edge_x_at.
  rewrite !F32Facts.geb_leb.
  destruct (_ && (v_x point <? _)), c; reflexivity.
Qed.

(** A point inside the square [(0,0), (10,0), (10,10), (0,10)], closed by
    a copy of its first point: two edges straddle the point's height, the
    right one and the left one, and the answer flips on the right one
    only, the left one passing left of the point.  Flipping on every
    straddling edge would report the point outside. *)
Lemma point_poly_straddle_not_enough :
  let square :=
    [ mkVector2 $0 $0; mkVector2 $10 $0; mkVector2 $10 $10; mkVector2 $0 $10;
      mkVector2 $0 $0 ] in
  let inside := mkVector2 $5 $5 in
  RL_CheckCollisionPointPoly inside square 5 = Some true
  /\ even_odd (straddles_y inside) square = false
  /\ straddles_y inside (mkVector2 $10 $0) (mkVector2 $10 $10) = true
  /\ (v_x inside <? edge_x_at inside (mkVector2 $10 $0) (mkVector2 $10 $10)) = true
  /\ straddles_y inside (mkVector2 $0 $10) (mkVector2 $0 $0) = true
  /\ (v_x inside <? edge_x_at inside (mkVector2 $0 $10) (mkVector2 $0 $0)) = false.
Proof. vm_compute. repeat split. Qed.

(** C5.  [RL_CheckCollisionPointPoly] answers false for [pointCount <= 2].
    For [pointCount > 2] points of the array it folds the even-odd rule
    over the [pointCount - 1] edges between consecutive points, from
    [(points[0], points[1])] to
    [(points[pointCount-2], points[pointCount-1])]: the answer flips on an
    edge when its y-span straddles the point's y and, in addition, the
    point lies left of the edge at that height,
    [point.x < (vn.x - vc.x)*(point.y - vc.y)/(vn.y - vc.y) + vc.x].
    The edge from the last point back to the first is not among them: on
    the chain closed by a copy of its first point the answer is the one
    for the open chain, flipped or not by that one edge. *)
Theorem point_poly_open_chain :
  forall (point : RlVector2) (points : list RlVector2) (pointCount : Z),
    let toggles (vc vn : RlVector2) : bool :=
      straddles_y point vc vn && (v_x point <? edge_x_at point vc vn) in
    ((pointCount <= 2)%Z ->
     RL_CheckCollisionPointPoly point points pointCount = Some false)
    /\ ((2 < pointCount <= Z.of_nat (length points))%Z ->
        let chain := firstn (Z.to_nat pointCount) points in
        RL_CheckCollisionPointPoly point points pointCount
        = Some (even_odd toggles chain)
        /\ Z.of_nat (length (chain_edges chain)) = (pointCount - 1)%Z
        /\ forall first : RlVector2,
             hd_error points = Some first ->
             RL_CheckCollisionPointPoly point (chain ++ [first]) (pointCount + 1)
             = Some (xorb (even_odd toggles chain)
                       (toggles (last chain first) first))).
Proof.
  intros point points pointCount toggles. split.
  - intros H. unfold RL_CheckCollisionPointPoly.
    destruct (Z.gtb_spec pointCount 2) as [H'|_]; [lia|reflexivity].
  - intros [Hlo Hhi] chain.
    assert (Hlen : length chain = Z.to_nat pointCount)
      by (unfold chain; rewrite length_firstn; lia).
    destruct chain as [|x l] eqn:Hchain; [simpl in Hlen; lia|].
    cbn [length] in Hlen.
    assert (Hl : (2 <= length l)%nat) by lia.
    assert (Hcount : pointCount = Z.of_nat (S (length l))) by lia.
    split; [|split].
    + rewrite <- (firstn_skipn (Z.to_nat pointCount) points).
      fold chain. rewrite Hchain, Hcount.
      rewrite point_poly_prefix by assumption.
      now rewrite fold_toggle_crossing.
    + rewrite chain_edges_length. cbn [length Nat.pred]. lia.
    + intros first _.
      replace (pointCount + 1)%Z with (Z.of_nat (S (length (l ++ [first]))))
        by (rewrite length_app; simpl; lia).
      change ((x :: l) ++ [first]) with (x :: (l ++ [first])).
      rewrite <- (app_nil_r (x :: (l ++ [first]))).
      rewrite point_poly_prefix by (rewrite length_app; simpl; lia).
      change (x :: (l ++ [first])) with ((x :: l) ++ [first]).
      rewrite fold_toggle_crossing.
      rewrite chain_edges_snoc, fold_left_app.
      rewrite (last_cons_default x l x first). reflexivity.
Qed.

(** The open chain [(0,0), (4,0), (2,4)]: the point [(-1, 1)], left of
    the triangle, is reported inside, since the edge from [(2,4)] back to
    [(0,0)] is not tested; on the closed chain it is outside.  The point
    [(2, 1)] is inside either way. *)
Example point_poly_missing_edge :
  let tri := [mkVector2 $0 $0; mkVector2 $4 $0; mkVector2 $2 $4] in
  let outside := mkVector2 (SFopp $1) $1 in
  RL_CheckCollisionPointPoly outside tri 3 = Some true
  /\ RL_CheckCollisionPointPoly outside (tri ++ [mkVector2 $0 $0]) 4 = Some false
  /\ RL_CheckCollisionPointPoly (mkVector2 $2 $1) tri 3 = Some true
  /\ RL_CheckCollisionPointPoly (mkVector2 $2 $1) tri 2 = Some false
  /\ RL_CheckCollisionPointPoly (mkVector2 $2 $1) tri 4 = None.
Proof. vm_compute. repeat split. Qed.

(** ** Segment counts of circle sectors *)

(** The literal [3.14159265358979323846f] lies within half a unit in the
    last place ([2^-23]) of [PI]. *)
Lemma PI_nearest :
  match F32.to_Q PI with
  | Some q =>
      (Qabs (q - (314159265358979323846 # 100000000000000000000)) <= (1 # 8388608))%Q
  | None => False
  end.
Proof. vm_compute. discriminate. Qed.

(** A full circle of radius [0.5] with [segments = 0]: [minSegments] is
    [4], the error-rate formula yields [th = acosf(-1) = PI], hence
    [360*ceilf(2*PI/PI)/360 = 2] segments, and [2], being positive, is
    used.  The run consults the C library only for [powf(0, 2)] and
    [acosf(-1)]. *)
Lemma sector_segments_below_minimum :
  sector_minSegments $0 $360 = Some 4%Z
  /\ (forall (acosf : float -> float) (powf : float -> float -> float),
        powf $0 $2 = $0 ->
        acosf (SFopp $1) = PI ->
        RL_DrawCircleSector_arc acosf powf F32.half $0 $360 0
        = Some (mkArc F32.half $0 $360 2)).
Proof.
  split; [vm_compute; reflexivity|].
  intros acosf powf Hpow Hacos. unfold RL_DrawCircleSector_arc.
  replace (F32.half <=? $0) with false by (vm_compute; reflexivity).
  replace ($360 <? $0) with false by (vm_compute; reflexivity).
  replace (F32.to_int (F32.ceilf (($360 - $0) / $90))) with (Some 4%Z)
    by (vm_compute; reflexivity).
  cbn [Z.ltb Z.compare].
  replace ($1 - SMOOTH_CIRCLE_ERROR_RATE / F32.half) with $0
    by (vm_compute; reflexivity).
  rewrite Hpow.
  replace ($2 * $0 - $1) with (SFopp $1) by (vm_compute; reflexivity).
  rewrite Hacos.
  replace (F32.to_int (($360 - $0) * F32.ceilf ($2 * PI / PI) / $360))
    with (Some 2%Z) by (vm_compute; reflexivity).
  reflexivity.
Qed.

(** C1 (amended).  When the caller asks for fewer segments than
    [minSegments = (int)ceilf((endAngle - startAngle)/90)],
    [RL_DrawCircleSector] walks the arc with the count [d] derived from
    the error rate if [d] is positive, and with [minSegments] otherwise.
    The count used is at least [minSegments] whenever [d <= 0] or
    [d >= minSegments], and positive whenever [minSegments] is. *)
Theorem sector_segments_used :
  forall (acosf : float -> float) (powf : float -> float -> float)
         (radius startAngle endAngle : float) (segments minSegments d : Z),
    sector_minSegments startAngle endAngle = Some minSegments ->
    (segments < minSegments)%Z ->
    sector_auto_segments acosf powf radius startAngle endAngle = Some d ->
    exists a : arc,
      RL_DrawCircleSector_arc acosf powf radius startAngle endAngle segments = Some a
      /\ arc_radius a = clamped_radius radius
      /\ (arc_start a, arc_end a) = ordered_angles startAngle endAngle
      /\ arc_segments a = (if (d <=? 0)%Z then minSegments else d)
      /\ ((d <= 0 \/ minSegments <= d)%Z -> (minSegments <= arc_segments a)%Z)
      /\ ((0 < minSegments)%Z -> (0 < arc_segments a)%Z).
Proof.
  intros acosf powf radius startAngle endAngle segments minSegments d Hmin Hlt Hd.
  unfold RL_DrawCircleSector_arc, sector_minSegments, sector_auto_segments,
    clamped_radius, ordered_angles in *.
  destruct (endAngle <? startAngle); rewrite Hmin;
    (destruct (Z.ltb_spec segments minSegments) as [_|H]; [|lia]);
    rewrite Hd; eexists; (split; [reflexivity|]); cbn [arc_radius arc_start arc_end arc_segments];
    (split; [reflexivity|]); (split; [reflexivity|]); (split; [reflexivity|]);
    destruct (Z.leb_spec d 0); split; lia.
Qed.

(** The full circle of radius [0.5], drawn with [segments = 0] by a C
    library that squares exactly and returns [PI] for every arc cosine. *)
Lemma sector_segments_used_witness :
  exists a : arc,
    RL_DrawCircleSector_arc (fun _ => PI) (fun x _ => x * x) F32.half $0 $360 0 = Some a
    /\ arc_radius a = clamped_radius F32.half
    /\ (arc_start a, arc_end a) = ordered_angles $0 $360
    /\ arc_segments a = (if (2 <=? 0)%Z then 4%Z else 2%Z)
    /\ ((2 <= 0 \/ 4 <= 2)%Z -> (4 <= arc_segments a)%Z)
    /\ ((0 < 4)%Z -> (0 < arc_segments a)%Z).
Proof.
  apply (@sector_segments_used (fun _ => PI) (fun x _ => x * x) F32.half $0 $360 0 4 2).
  - vm_compute. reflexivity.
  - lia.
  - vm_compute. reflexivity.
Defined.

(** ** Rings without a hole *)

Section RingAsSector.

Variables acosf cosf sinf : float -> float.
Variable powf : float -> float -> float.
Variable SUPPORT_QUADS_DRAW_MODE : bool.
Variable shapes : shapes_state.

#[warnings="-notation-for-abbreviation"]
Local Notation DrawCircleSector :=
  (RL_DrawCircleSector acosf cosf sinf powf SUPPORT_QUADS_DRAW_MODE shapes).
#[warnings="-notation-for-abbreviation"]
Local Notation DrawRing :=
  (RL_DrawRing acosf cosf sinf powf SUPPORT_QUADS_DRAW_MODE shapes).

(** Angles already in walking order are left as they are. *)
Lemma ordered_angles_idem (startAngle endAngle : float) :
  let '(s, e) := ordered_angles startAngle endAngle in (e <? s) = false.
Proof.
  unfold ordered_angles.
  destruct (endAngle <? startAngle) eqn:E; [|exact E].
  apply F32Facts.ltb_asym, E.
Qed.

(** The segment count [RL_DrawCircleSector] settles on is one it keeps:
    drawing with that count, and with the angles in walking order, is
    drawing with the original arguments. *)
Lemma sector_arc_stable (radius startAngle endAngle : float) (segments : Z) (a : arc) :
  RL_DrawCircleSector_arc acosf powf radius startAngle endAngle segments = Some a ->
  RL_DrawCircleSector_arc acosf powf radius (arc_start a) (arc_end a) (arc_segments a)
  = Some (mkArc (clamped_radius radius) (arc_start a) (arc_end a) (arc_segments a)).
Proof.
  unfold RL_DrawCircleSector_arc.
  pose proof (ordered_angles_idem startAngle endAngle) as Hord.
  unfold ordered_angles in Hord. fold (clamped_radius radius).
  destruct (if endAngle <? startAngle then (endAngle, startAngle)
            else (startAngle, endAngle)) as [s e].
  destruct (F32.to_int (F32.ceilf ((e - s) / $90))) as [minSegments|] eqn:Hmin;
    [|discriminate].
  set (th := acosf ($2 * powf ($1 - SMOOTH_CIRCLE_ERROR_RATE / clamped_radius radius) $2 - $1)).
  destruct (Z.ltb_spec segments minSegments) as [Hlt|Hge].
  - destruct (F32.to_int ((e - s) * F32.ceilf ($2 * PI / th) / $360)) as [d|] eqn:Hd;
      [|discriminate].
    intros [= <-]. cbn [arc_start arc_end arc_segments]. rewrite Hord, Hmin.
    destruct (Z.leb_spec d 0) as [Hd0|Hd0].
    + rewrite Z.ltb_irrefl. reflexivity.
    + destruct (Z.ltb_spec d minSegments); [|reflexivity].
      fold th. rewrite Hd.
      destruct (Z.leb_spec d 0); [lia|reflexivity].
  - intros [= <-]. cbn [arc_start arc_end arc_segments]. rewrite Hord, Hmin.
    destruct (Z.ltb_spec segments minSegments); [lia|reflexivity].
Qed.

(** C3.  [RL_DrawRing] with [innerRadius <= 0], [startAngle != endAngle]
    and [0 <= innerRadius < outerRadius] makes exactly the backend calls
    of [RL_DrawCircleSector] with the same center, [outerRadius], angles,
    segments and color, hence emits the same vertex sequence (and is
    undefined exactly when the sector is); so does
    [RL_DrawRing(center, 0, 5, 0, 360, segments, color)] with
    [RL_DrawCircleSector(center, 5, 0, 360, segments, color)]. *)
Theorem ring_without_hole_is_sector :
  forall (center : RlVector2) (innerRadius outerRadius startAngle endAngle : float)
         (segments : Z) (color : RlColor),
    (innerRadius <=? $0) = true ->
    (startAngle =? endAngle) = false ->
    ($0 <=? innerRadius) = true ->
    (innerRadius <? outerRadius) = true ->
    DrawRing center innerRadius outerRadius startAngle endAngle segments color
    = DrawCircleSector center outerRadius startAngle endAngle segments color
    /\ option_map vertices
         (DrawRing center innerRadius outerRadius startAngle endAngle segments color)
       = option_map vertices
           (DrawCircleSector center outerRadius startAngle endAngle segments color)
    /\ DrawRing center $0 $5 $0 $360 segments color
       = DrawCircleSector center $5 $0 $360 segments color.
Proof.
  assert (main : forall center innerRadius outerRadius startAngle endAngle segments color,
    (innerRadius <=? $0) = true ->
    (startAngle =? endAngle) = false ->
    ($0 <=? innerRadius) = true ->
    (innerRadius <? outerRadius) = true ->
    DrawRing center innerRadius outerRadius startAngle endAngle segments color
    = DrawCircleSector center outerRadius startAngle endAngle segments color).
  { intros center innerRadius outerRadius startAngle endAngle segments color
      Hinner Hangles Hnonneg Hlt.
    assert (Hclamp : clamped_radius outerRadius = outerRadius).
    { unfold clamped_radius.
      now rewrite (F32Facts.pos_of_nonneg_ltb _ _ Hnonneg Hlt). }
    unfold RL_DrawRing, RL_DrawCircleSector.
    rewrite Hangles, (F32Facts.ltb_asym _ _ Hlt), Hinner.
    pose proof (sector_arc_stable outerRadius startAngle endAngle segments) as Hstable.
    unfold RL_DrawCircleSector_arc at 1 in Hstable.
    unfold RL_DrawCircleSector_arc at 2.
    fold (clamped_radius outerRadius) in *. rewrite Hclamp in *.
    destruct (if endAngle <? startAngle then (endAngle, startAngle)
              else (startAngle, endAngle)) as [s e].
    destruct (F32.to_int (F32.ceilf ((e - s) / $90))) as [minSegments|];
      [|reflexivity].
    destruct (segments <? minSegments)%Z.
    - destruct (F32.to_int _) as [d|]; [|reflexivity].
      specialize (Hstable _ eq_refl).
      cbn [arc_start arc_end arc_segments] in Hstable.
      unfold RL_DrawCircleSector. rewrite Hstable. reflexivity.
    - specialize (Hstable _ eq_refl).
      cbn [arc_start arc_end arc_segments] in Hstable.
      unfold RL_DrawCircleSector. rewrite Hstable. reflexivity. }
  intros center innerRadius outerRadius startAngle endAngle segments color
    Hinner Hangles Hnonneg Hlt.
  split; [|split].
  - now apply main.
  - now rewrite main.
  - apply main; vm_compute; reflexivity.
Qed.

End RingAsSector.

(** The full ring of the specification's scenario, without a hole, drawn
    in QUADS mode with the default shapes texture.  The C library of this
    run returns [PI] for every arc cosine, squares exactly and takes the
    cosine and sine of every angle to be those of zero. *)
Lemma ring_without_hole_is_sector_witness :
  let DrawRing :=
    RL_DrawRing (fun _ => PI) (fun _ => $1) (fun _ => $0) (fun x _ => x * x)
      true shapes_init in
  let DrawCircleSector :=
    RL_DrawCircleSector (fun _ => PI) (fun _ => $1) (fun _ => $0) (fun x _ => x * x)
      true shapes_init in
  let center := mkVector2 $0 $0 in
  let color := mkColor 255 255 255 255 in
  DrawRing center $0 $5 $0 $360 0%Z color
  = DrawCircleSector center $5 $0 $360 0%Z color
  /\ option_map vertices (DrawRing center $0 $5 $0 $360 0%Z color)
     = option_map vertices (DrawCircleSector center $5 $0 $360 0%Z color)
  /\ DrawRing center $0 $5 $0 $360 0%Z color
     = DrawCircleSector center $5 $0 $360 0%Z color.
Proof.
  apply (ring_without_hole_is_sector
           (fun _ => PI) (fun _ => $1) (fun _ => $0) (fun x _ => x * x)
           true shapes_init (mkVector2 $0 $0) $0 $5 $0 $360 0%Z
           (mkColor 255 255 255 255));
    vm_compute; reflexivity.
Defined.

(** That run draws: two segments, merged into one quad of four vertices
    around the center; in TRIANGLES mode, two triangles. *)
Example ring_without_hole_run :
  option_map (fun tr => length (vertices tr))
    (RL_DrawRing (fun _ => PI) (fun _ => $1) (fun _ => $0) (fun x _ => x * x)
       true shapes_init (mkVector2 $0 $0) $0 $5 $0 $360 0%Z (mkColor 255 255 255 255))
  = Some 4%nat
  /\ option_map (fun tr => length (vertices tr))
       (RL_DrawRing (fun _ => PI) (fun _ => $1) (fun _ => $0) (fun x _ => x * x)
          false shapes_init (mkVector2 $0 $0) $0 $5 $0 $360 0%Z (mkColor 255 255 255 255))
     = Some 6%nat.
Proof. vm_compute. split; reflexivity. Qed.

(** ** The quadratic bezier flattener *)

Lemma array_set_length {A : Type} (l : list A) :
  forall (i : nat) (v : A), length (array_set l i v) = length l.
Proof.
  induction l as [|x l IH]; intros [|i] v; simpl; try reflexivity.
  now rewrite IH.
Qed.

Lemma array_get_in_range {A : Type} (l : list A) (i : Z) :
  (0 <= i < Z.of_nat (length l))%Z -> exists v : A, array_get l i = Some v.
Proof.
  intros Hi. unfold array_get.
  destruct (Z.ltb_spec i 0) as [H|_]; [lia|].
  destruct (nth_error l (Z.to_nat i)) as [v|] eqn:E; [now exists v|].
  apply nth_error_None in E. lia.
Qed.

Lemma vertices_app (tr1 tr2 : list rl_call) :
  vertices (tr1 ++ tr2) = vertices tr1 ++ vertices tr2.
Proof. apply flat_map_app. Qed.

(** The loop of [RL_DrawTriangleStrip] stays inside the array as long as
    its last index does, and emits three vertices per iteration. *)
Lemma strip_loop_runs (points : list RlVector2) (n : nat) :
  forall i : Z,
    (2 <= i)%Z -> (i + Z.of_nat n <= Z.of_nat (length points))%Z ->
    exists tr : list rl_call,
      strip_loop points n i = Some tr /\ length (vertices tr) = (3 * n)%nat.
Proof.
  induction n as [|n IH]; intros i Hlo Hhi.
  - exists []. split; reflexivity.
  - cbn [strip_loop].
    destruct (array_get_in_range points i) as [p ->]; [lia|].
    destruct (array_get_in_range points (i - 1)) as [p1 ->]; [lia|].
    destruct (array_get_in_range points (i - 2)) as [p2 ->]; [lia|].
    destruct (IH (i + 1)%Z) as (tr & -> & Htr); [lia|lia|].
    destruct (Z.rem i 2 =? 0)%Z; eexists; (split; [reflexivity|]);
      rewrite vertices_app, length_app, Htr; simpl; lia.
Qed.

(** A strip of [pointCount >= 3] points is drawn as [pointCount - 2]
    triangles. *)
Lemma RL_DrawTriangleStrip_runs (points : list RlVector2) (color : RlColor) :
  (3 <= length points)%nat ->
  exists tr : list rl_call,
    RL_DrawTriangleStrip points (Z.of_nat (length points)) color = Some tr
    /\ length (vertices tr) = (3 * (length points - 2))%nat.
Proof.
  intros Hlen. unfold RL_DrawTriangleStrip.
  destruct (Z.geb_spec (Z.of_nat (length points)) 3) as [_|H]; [|lia].
  destruct (strip_loop_runs points (Z.to_nat (Z.of_nat (length points) - 2)) 2)
    as (tr & -> & Htr); [lia|lia|].
  eexists. split; [reflexivity|].
  rewrite !vertices_app, !length_app, Htr. simpl. lia.
Qed.

Section BezierFacts.

Variable powf : float -> float -> float.

(** The loop never changes the size of [points]. *)
Lemma bezier_quad_loop_length (startPos endPos controlPos : RlVector2) (thick : float)
    (n : nat) :
  forall (i : Z) (previous : RlVector2) (points : list RlVector2),
    length (bezier_quad_loop powf startPos endPos controlPos thick n i previous points)
    = length points.
Proof.
  induction n as [|n IH]; intros i previous points; [reflexivity|].
  cbn [bezier_quad_loop]. cbv zeta. rewrite IH.
  destruct (i =? 1)%Z; now rewrite !array_set_length.
Qed.

(** The C library squares exactly: [powf(x, 2)] is the product [x*x],
    correctly rounded. *)
Hypothesis powf_square : forall x : float, powf x $2 = x * x.

Lemma bezier_quad_loop_square (startPos endPos controlPos : RlVector2) (thick : float)
    (n : nat) :
  forall (i : Z) (previous : RlVector2) (points : list RlVector2),
    bezier_quad_loop powf startPos endPos controlPos thick n i previous points
    = bezier_quad_loop (fun x _ => x * x) startPos endPos controlPos thick n i
        previous points.
Proof.
  induction n as [|n IH]; intros i previous points; [reflexivity|].
  cbn [bezier_quad_loop]. cbv zeta. rewrite !powf_square. apply IH.
Qed.

Lemma bezier_quad_sample_square (startPos endPos controlPos : RlVector2) (i : Z) :
  bezier_quad_sample powf startPos endPos controlPos i
  = bezier_quad_sample (fun x _ => x * x) startPos endPos controlPos i.
Proof. unfold bezier_quad_sample. now rewrite !powf_square. Qed.

End BezierFacts.

(** On [P0 = (0,0)], [C = (5,10)], [P1 = (10,0)], with thickness [2] and
    squares computed as one rounded product, the offsets of the first pair
    make an angle with the initial tangent [C - P0] whose cosine is
    [0.017], and those of the last pair likewise with the final tangent
    [P1 - C]: neither is normal to the tangent, not even to one part in a
    hundred.  The flattener takes its normals from the chords. *)
Lemma bezier_quad_pairs_off_tangent :
  let P0 := mkVector2 $0 $0 in
  let C := mkVector2 $5 $10 in
  let P1 := mkVector2 $10 $0 in
  let pts := bezier_quad_points (fun x _ => x * x) P0 P1 C $2 in
  ~ straddles (nth 0 pts P0) (nth 1 pts P0) P0 (exact_vector P0 C) (1 # 100)
  /\ ~ straddles (nth 48 pts P0) (nth 49 pts P0) P1 (exact_vector C P1) (1 # 100).
Proof.
  split; vm_compute; intros (_ & _ & _ & _ & H); apply H; reflexivity.
Qed.

(** C7 (amended).  The quadratic bezier flattener fills a strip of exactly
    [2*BEZIER_LINE_DIVISIONS + 2 = 50] points and hands all [50] to
    [RL_DrawTriangleStrip], which draws them as [48] triangles.  For [P0 = (0,0)], [C = (5,10)], [P1 = (10,0)]
    and thickness [2], with a C library that squares exactly: the first
    two points have [(0,0)] as their exact midpoint, each lies at distance
    [1] from it up to rounding, on opposite sides, along the normal of the
    first chord of the flattened curve (from [P0] to the sample at
    [t = 1/24]); the last two straddle [(10,0)] in the same way, across
    the last chord (from the sample at [t = 23/24] to the one at
    [t = 1]).  Rounding stays below [2^-20]. *)
Theorem bezier_quad_strip :
  forall powf : float -> float -> float,
    (forall x : float, powf x $2 = x * x) ->
    (forall (startPos endPos controlPos : RlVector2) (thick : float) (color : RlColor),
        length (bezier_quad_points powf startPos endPos controlPos thick) = 50%nat
        /\ RL_DrawLineBezierQuad powf startPos endPos controlPos thick color
           = RL_DrawTriangleStrip
               (bezier_quad_points powf startPos endPos controlPos thick) 50 color
        /\ exists tr : list rl_call,
             RL_DrawLineBezierQuad powf startPos endPos controlPos thick color = Some tr
             /\ length (vertices tr) = 144%nat)
    /\ let P0 := mkVector2 $0 $0 in
       let C := mkVector2 $5 $10 in
       let P1 := mkVector2 $10 $0 in
       let pts := bezier_quad_points powf P0 P1 C $2 in
       let sample := bezier_quad_sample powf P0 P1 C in
       straddles (nth 0 pts P0) (nth 1 pts P0) P0
         (exact_vector P0 (sample 1%Z)) (1 # 1048576)
       /\ straddles (nth 48 pts P0) (nth 49 pts P0) P1
            (exact_vector (sample 23%Z) (sample 24%Z)) (1 # 1048576).
Proof.
  intros powf Hsq. split.
  - intros startPos endPos controlPos thick color.
    assert (Hlen : length (bezier_quad_points powf startPos endPos controlPos thick)
                   = 50%nat).
    { unfold bezier_quad_points. rewrite bezier_quad_loop_length.
      apply repeat_length. }
    split; [exact Hlen|]. split; [reflexivity|].
    destruct (RL_DrawTriangleStrip_runs
                (bezier_quad_points powf startPos endPos controlPos thick) color)
      as (tr & Hrun & Htr); [rewrite Hlen; lia|].
    rewrite Hlen in Hrun, Htr.
    exists tr. split; [exact Hrun|exact Htr].
  - cbv zeta. unfold bezier_quad_points.
    rewrite (bezier_quad_loop_square powf Hsq), !(bezier_quad_sample_square powf Hsq).
    split; vm_compute; repeat split; intros H; discriminate H.
Qed.

(** The scenario with squaring done by one correctly rounded product. *)
Lemma bezier_quad_strip_witness :
  (forall (startPos endPos controlPos : RlVector2) (thick : float) (color : RlColor),
      length (bezier_quad_points (fun x _ => x * x) startPos endPos controlPos thick)
      = 50%nat
      /\ RL_DrawLineBezierQuad (fun x _ => x * x) startPos endPos controlPos thick color
         = RL_DrawTriangleStrip
             (bezier_quad_points (fun x _ => x * x) startPos endPos controlPos thick)
             50 color
      /\ exists tr : list rl_call,
           RL_DrawLineBezierQuad (fun x _ => x * x) startPos endPos controlPos thick color
           = Some tr
           /\ length (vertices tr) = 144%nat)
  /\ let P0 := mkVector2 $0 $0 in
     let C := mkVector2 $5 $10 in
     let P1 := mkVector2 $10 $0 in
     let pts := bezier_quad_points (fun x _ => x * x) P0 P1 C $2 in
     let sample := bezier_quad_sample (fun x _ => x * x) P0 P1 C in
     straddles (nth 0 pts P0) (nth 1 pts P0) P0
       (exact_vector P0 (sample 1%Z)) (1 # 1048576)
     /\ straddles (nth 48 pts P0) (nth 49 pts P0) P1
          (exact_vector (sample 23%Z) (sample 24%Z)) (1 # 1048576).
Proof.
  apply (bezier_quad_strip (fun x _ => x * x)).
  intros x. reflexivity.
Defined.

(** ** Overlap of two rectangles *)

(** The rectangle [{0, 0, 0, 1}], of width zero, inside [{-5, -5, 10, 10}]:
    [RL_CheckCollisionRecs] reports a collision, yet the overlap
    [RL_GetCollisionRec] returns is the zeroed rectangle, of area [0]. *)
Lemma collision_rec_zero_width :
  let A := mkRectangle $0 $0 $0 $1 in
  let B := mkRectangle (SFopp $5) (SFopp $5) $10 $10 in
  RL_CheckCollisionRecs A B = true
  /\ RL_GetCollisionRec A B = mkRectangle $0 $0 $0 $0
  /\ (rec_area (RL_GetCollisionRec A B) =? $0) = true.
Proof. vm_compute. repeat split. Qed.

Section Overlap1D.

Import F32Facts.

(** One axis: the intervals from [x1] to [r1] and from [x2] to [r2]. *)
Variables x1 r1 x2 r2 : float.
Hypothesis x1_number : F32.is_nan x1 = false.
Hypothesis r1_number : F32.is_nan r1 = false.
Hypothesis x2_number : F32.is_nan x2 = false.
Hypothesis r2_number : F32.is_nan r2 = false.

(** The larger of the left ends is below the smaller of the right ends
    exactly when each left end is below each right end. *)
Lemma overlap_1d :
  ((if x1 >? x2 then x1 else x2) <? (if r1 <? r2 then r1 else r2)) = true <->
  (x1 <? r2) = true /\ (x2 <? r1) = true /\ (x1 <? r1) = true /\ (x2 <? r2) = true.
Proof.
  rewrite gtb_ltb.
  destruct (x2 <? x1) eqn:Hx; destruct (r1 <? r2) eqn:Hr;
    try (pose proof (leb_of_not_ltb x2 x1 x2_number x1_number Hx) as Hx');
    try (pose proof (leb_of_not_ltb r1 r2 r1_number r2_number Hr) as Hr').
  - split; [intros H|tauto].
    assert ((x1 <? r2) = true) by (eapply ltb_trans; eassumption).
    assert ((x2 <? r1) = true) by (eapply ltb_trans; eassumption).
    assert ((x2 <? r2) = true) by (eapply ltb_trans; eassumption).
    tauto.
  - split; [intros H|tauto].
    assert ((x1 <? r1) = true) by (eapply ltb_leb_trans; eassumption).
    assert ((x2 <? r2) = true) by (eapply ltb_trans; eassumption).
    assert ((x2 <? r1) = true) by (eapply ltb_leb_trans; eassumption).
    tauto.
  - split; [intros H|tauto].
    assert ((x1 <? r1) = true) by (eapply leb_ltb_trans; eassumption).
    assert ((x2 <? r2) = true) by (eapply ltb_trans; eassumption).
    assert ((x1 <? r2) = true) by (eapply leb_ltb_trans; eassumption).
    tauto.
  - split; [intros H|tauto].
    assert ((x1 <? r2) = true) by (eapply leb_ltb_trans; eassumption).
    assert ((x2 <? r1) = true) by (eapply ltb_leb_trans; eassumption).
    assert ((x1 <? r1) = true) by (eapply ltb_leb_trans; eassumption).
    tauto.
Qed.

(** Both ends of the overlap are ends of the intervals. *)
Lemma overlap_1d_valid :
  F32.valid x1 -> F32.valid x2 -> F32.valid r1 -> F32.valid r2 ->
  F32.valid (if x1 >? x2 then x1 else x2)
  /\ F32.valid (if r1 <? r2 then r1 else r2).
Proof.
  intros. destruct (x1 >? x2), (r1 <? r2); split; assumption.
Qed.

End Overlap1D.

(** [RL_CheckCollisionRecs] and the test of [RL_GetCollisionRec] agree on
    rectangles of positive extent; on any rectangles an overlap found is
    a collision. *)
Lemma collision_rec_tests (rec1 rec2 : RlRectangle) :
  rec_well_formed rec1 -> rec_well_formed rec2 ->
  let left := if rec_x rec1 >? rec_x rec2 then rec_x rec1 else rec_x rec2 in
  let right1 := rec_x rec1 + rec_width rec1 in
  let right2 := rec_x rec2 + rec_width rec2 in
  let right := if right1 <? right2 then right1 else right2 in
  let top := if rec_y rec1 >? rec_y rec2 then rec_y rec1 else rec_y rec2 in
  let bottom1 := rec_y rec1 + rec_height rec1 in
  let bottom2 := rec_y rec2 + rec_height rec2 in
  let bottom := if bottom1 <? bottom2 then bottom1 else bottom2 in
  ((left <? right) && (top <? bottom) = true -> RL_CheckCollisionRecs rec1 rec2 = true)
  /\ (rec_positive_extent rec1 -> rec_positive_extent rec2 ->
      RL_CheckCollisionRecs rec1 rec2 = true -> (left <? right) && (top <? bottom) = true)
  /\ F32.valid left /\ F32.valid right /\ F32.valid top /\ F32.valid bottom.
Proof.
  intros (Hx1 & Hy1 & Hr1 & Hb1) (Hx2 & Hy2 & Hr2 & Hb2).
  pose proof (overlap_1d (rec_x rec1) (rec_x rec1 + rec_width rec1)
                (rec_x rec2) (rec_x rec2 + rec_width rec2)
                (F32Facts.is_number_not_nan _ Hx1) (F32Facts.is_number_not_nan _ Hr1)
                (F32Facts.is_number_not_nan _ Hx2) (F32Facts.is_number_not_nan _ Hr2)) as HX.
  pose proof (overlap_1d (rec_y rec1) (rec_y rec1 + rec_height rec1)
                (rec_y rec2) (rec_y rec2 + rec_height rec2)
                (F32Facts.is_number_not_nan _ Hy1) (F32Facts.is_number_not_nan _ Hb1)
                (F32Facts.is_number_not_nan _ Hy2) (F32Facts.is_number_not_nan _ Hb2)) as HY.
  pose proof (overlap_1d_valid (rec_x rec1) (rec_x rec1 + rec_width rec1)
                (rec_x rec2) (rec_x rec2 + rec_width rec2)
                (F32Facts.is_number_valid _ Hx1) (F32Facts.is_number_valid _ Hx2)
                (F32Facts.is_number_valid _ Hr1) (F32Facts.is_number_valid _ Hr2)) as VX.
  pose proof (overlap_1d_valid (rec_y rec1) (rec_y rec1 + rec_height rec1)
                (rec_y rec2) (rec_y rec2 + rec_height rec2)
                (F32Facts.is_number_valid _ Hy1) (F32Facts.is_number_valid _ Hy2)
                (F32Facts.is_number_valid _ Hb1) (F32Facts.is_number_valid _ Hb2)) as VY.
  cbv zeta in *. unfold RL_CheckCollisionRecs, rec_positive_extent, F32.lt.
  rewrite !F32Facts.gtb_ltb in *. rewrite !andb_true_iff.
  repeat split; tauto.
Qed.

(** C2 (amended).  For rectangles whose edges are numbers: when
    [RL_CheckCollisionRecs(A, B)] is false, [RL_GetCollisionRec(A, B)] is
    the zeroed rectangle, of area [0]; and when [A] and [B] both have
    positive extent ([x < x + width], [y < y + height]),
    [RL_CheckCollisionRecs(A, B)] is true if and only if the overlap has a
    positive width and a positive height. *)
Theorem collision_rec_overlap :
  forall rec1 rec2 : RlRectangle,
    rec_well_formed rec1 -> rec_well_formed rec2 ->
    (RL_CheckCollisionRecs rec1 rec2 = false ->
     RL_GetCollisionRec rec1 rec2 = mkRectangle $0 $0 $0 $0
     /\ (rec_area (RL_GetCollisionRec rec1 rec2) =? $0) = true)
    /\ (rec_positive_extent rec1 -> rec_positive_extent rec2 ->
        (RL_CheckCollisionRecs rec1 rec2 = true <->
           F32.lt $0 (rec_width (RL_GetCollisionRec rec1 rec2))
           /\ F32.lt $0 (rec_height (RL_GetCollisionRec rec1 rec2)))).
Proof.
  intros rec1 rec2 W1 W2.
  destruct (collision_rec_tests rec1 rec2 W1 W2)
    as (Hfound & Hcollide & Vl & Vr & Vt & Vb).
  cbv zeta in *. unfold RL_GetCollisionRec. cbv zeta.
  set (left := if rec_x rec1 >? rec_x rec2 then rec_x rec1 else rec_x rec2) in *.
  set (right := if rec_x rec1 + rec_width rec1 <? rec_x rec2 + rec_width rec2
                then rec_x rec1 + rec_width rec1 else rec_x rec2 + rec_width rec2) in *.
  set (top := if rec_y rec1 >? rec_y rec2 then rec_y rec1 else rec_y rec2) in *.
  set (bottom := if rec_y rec1 + rec_height rec1 <? rec_y rec2 + rec_height rec2
                 then rec_y rec1 + rec_height rec1 else rec_y rec2 + rec_height rec2) in *.
  split.
  - intros Hno.
    destruct ((left <? right) && (top <? bottom)) eqn:Htest.
    + rewrite (Hfound eq_refl) in Hno. discriminate Hno.
    + split; reflexivity.
  - intros P1 P2. unfold F32.lt. split.
    + intros Hyes. specialize (Hcollide P1 P2 Hyes).
      rewrite Hcollide. cbn [rec_width rec_height].
      apply andb_prop in Hcollide. destruct Hcollide as [Hlr Htb].
      split; apply F32Facts.sub_positive; assumption.
    + intros [Hw _].
      destruct ((left <? right) && (top <? bottom)) eqn:Htest.
      * apply Hfound. reflexivity.
      * cbn [rec_width] in Hw. discriminate Hw.
Qed.

(** The overlap of [{0, 0, 10, 10}] and [{5, 5, 10, 10}] is [{5, 5, 5, 5}]. *)
Lemma collision_rec_overlap_witness :
  let A := mkRectangle $0 $0 $10 $10 in
  let B := mkRectangle $5 $5 $10 $10 in
  (RL_CheckCollisionRecs A B = false ->
   RL_GetCollisionRec A B = mkRectangle $0 $0 $0 $0
   /\ (rec_area (RL_GetCollisionRec A B) =? $0) = true)
  /\ (rec_positive_extent A -> rec_positive_extent B ->
      (RL_CheckCollisionRecs A B = true <->
         F32.lt $0 (rec_width (RL_GetCollisionRec A B))
         /\ F32.lt $0 (rec_height (RL_GetCollisionRec A B)))).
Proof.
  apply (collision_rec_overlap (mkRectangle $0 $0 $10 $10) (mkRectangle $5 $5 $10 $10));
    vm_compute; repeat split.
Defined.

(** The scenarios of the specification. *)
Example collision_rec_scenarios :
  RL_GetCollisionRec (mkRectangle $0 $0 $10 $10) (mkRectangle $5 $5 $10 $10)
  = mkRectangle $5 $5 $5 $5
  /\ RL_CheckCollisionRecs (mkRectangle $0 $0 $10 $10) (mkRectangle $5 $5 $10 $10) = true
  /\ RL_GetCollisionRec (mkRectangle $0 $0 $5 $5) (mkRectangle $10 $10 $5 $5)
     = mkRectangle $0 $0 $0 $0
  /\ RL_CheckCollisionRecs (mkRectangle $0 $0 $5 $5) (mkRectangle $10 $10 $5 $5) = false.
Proof. vm_compute. repeat split. Qed.

(** ** Algebra of the binary32 operations *)

Module F32Algebra.

Import F32.
Local Open Scope Z_scope.

(** The sign of a rounded result is the sign handed to the rounding. *)
Lemma binary_round_aux_opp (s : bool) (m e : Z) (l : location) :
  binary_round_aux prec emax (negb s) m e l
  = SFopp (binary_round_aux prec emax s m e l).
Proof.
  unfold binary_round_aux.
  destruct (shr_fexp prec emax m e l) as [mrs' e'].
  destruct (shr_fexp prec emax _ e' loc_Exact) as [mrs'' e''].
  destruct (shr_m mrs''); try reflexivity.
  destruct (e'' <=? emax - prec); reflexivity.
Qed.

Lemma binary_round_aux_nonneg (m e : Z) (l : location) :
  nonneg_or_nan (binary_round_aux prec emax false m e l) = true.
Proof.
  unfold binary_round_aux.
  destruct (shr_fexp prec emax m e l) as [mrs' e'].
  destruct (shr_fexp prec emax _ e' loc_Exact) as [mrs'' e''].
  destruct (shr_m mrs''); try reflexivity.
  destruct (e'' <=? emax - prec); reflexivity.
Qed.

Lemma binary_round_opp (s : bool) (m : positive) (e : Z) :
  binary_round prec emax (negb s) m e = SFopp (binary_round prec emax s m e).
Proof.
  unfold binary_round.
  destruct (shl_align m e _) as [mz ez]. apply binary_round_aux_opp.
Qed.

(** Rounding the opposite integer gives the opposite number; a zero
    integer gives [+0] either way. *)
Lemma binary_normalize_opp (m e : Z) :
  m <> 0 ->
  binary_normalize prec emax (- m) e false
  = SFopp (binary_normalize prec emax m e false).
Proof.
  destruct m as [|m|m]; intros H; [contradiction| |]; simpl.
  - exact (binary_round_opp false m e).
  - pose proof (binary_round_opp true m e) as E. simpl in E. rewrite E.
    destruct (binary_round prec emax true m e) as [[]|[]| |[] m' e']; reflexivity.
Qed.

Lemma mul_comm (x y : float) : mul x y = mul y x.
Proof.
  unfold mul.
  destruct x as [sx|sx| |sx mx ex], y as [sy|sy| |sy my ey]; simpl;
    rewrite ?(xorb_comm sx sy); try reflexivity.
  now rewrite (Pos.mul_comm mx my), (Z.add_comm ex ey).
Qed.

Lemma add_comm (x y : float) : add x y = add y x.
Proof.
  unfold add.
  destruct x as [sx|sx| |sx mx ex], y as [sy|sy| |sy my ey]; simpl; try reflexivity;
    try (destruct sx, sy; reflexivity).
  rewrite (Z.min_comm ex ey). f_equal. apply Z.add_comm.
Qed.

Lemma mul_opp_l (x y : float) : mul (SFopp x) y = SFopp (mul x y).
Proof.
  unfold mul.
  destruct x as [sx|sx| |sx mx ex], y as [sy|sy| |sy my ey]; simpl;
    rewrite <- ?negb_xorb_l; try reflexivity.
  apply binary_round_aux_opp.
Qed.

Lemma mul_opp_r (x y : float) : mul x (SFopp y) = SFopp (mul x y).
Proof. now rewrite mul_comm, mul_opp_l, mul_comm. Qed.

Lemma opp_involutive (x : float) : SFopp (SFopp x) = x.
Proof. destruct x as [s|s| |s m e]; simpl; rewrite ?negb_involutive; reflexivity. Qed.

(** [-x * -x = x * x] *)
Lemma square_opp (x : float) : mul (SFopp x) (SFopp x) = mul x x.
Proof. now rewrite mul_opp_l, mul_opp_r, opp_involutive. Qed.

(** [y - x] is the opposite of [x - y], unless both are [+0]. *)
Lemma sub_swap (x y : float) :
  sub y x = SFopp (sub x y)
  \/ (sub x y = S754_zero false /\ sub y x = S754_zero false).
Proof.
  unfold sub.
  destruct x as [sx|sx| |sx mx ex], y as [sy|sy| |sy my ey]; simpl;
    try (left; reflexivity);
    try (destruct sx, sy; simpl; (left; reflexivity) || (right; split; reflexivity)).
  all: try (left; now rewrite ?negb_involutive).
  rewrite (Z.min_comm ey ex).
    set (a := cond_Zopp sx (Z.pos (fst (shl_align mx ex (Z.min ex ey))))).
    set (b := cond_Zopp sy (Z.pos (fst (shl_align my ey (Z.min ex ey))))).
  destruct (Z.eq_dec (a - b) 0) as [E|E].
  - right. replace (b - a) with 0 by lia. rewrite E. split; reflexivity.
  - left. replace (b - a) with (- (a - b)) by lia.
    now apply binary_normalize_opp.
Qed.

(** The square of a difference does not depend on its direction. *)
Lemma square_sub_swap (x y : float) :
  mul (sub y x) (sub y x) = mul (sub x y) (sub x y).
Proof.
  destruct (sub_swap x y) as [E|[E1 E2]].
  - rewrite E. apply square_opp.
  - now rewrite E1, E2.
Qed.

Lemma sub_self (x : float) : zero_or_nan (sub x x) = true.
Proof.
  unfold sub. destruct x as [[]|[]| |s m e]; simpl; try reflexivity.
  now rewrite Z.sub_diag.
Qed.

Lemma add_opp_self (x : float) : zero_or_nan (add x (SFopp x)) = true.
Proof.
  unfold add. destruct x as [[]|[]| |s m e]; simpl; try reflexivity.
  set (k := Z.pos (fst (shl_align m e (Z.min e e)))). clearbody k.
  replace (cond_Zopp s k + cond_Zopp (negb s) k) with 0; [reflexivity|].
  destruct s; cbn [cond_Zopp negb]; lia.
Qed.

Lemma mul_zero_or_nan_l (x y : float) :
  zero_or_nan x = true -> zero_or_nan (mul x y) = true.
Proof.
  unfold mul. destruct x as [sx|sx| |sx mx ex], y as [sy|sy| |sy my ey];
    simpl; try discriminate; reflexivity.
Qed.

Lemma mul_zero_or_nan_r (x y : float) :
  zero_or_nan y = true -> zero_or_nan (mul x y) = true.
Proof. rewrite mul_comm. apply mul_zero_or_nan_l. Qed.

Lemma add_zero_or_nan (x y : float) :
  zero_or_nan x = true -> zero_or_nan y = true -> zero_or_nan (add x y) = true.
Proof.
  unfold add. destruct x as [[]|sx| |sx mx ex], y as [[]|sy| |sy my ey];
    simpl; try discriminate; reflexivity.
Qed.

Lemma sub_zero_or_nan (x y : float) :
  zero_or_nan x = true -> zero_or_nan y = true -> zero_or_nan (sub x y) = true.
Proof.
  unfold sub. destruct x as [[]|sx| |sx mx ex], y as [[]|sy| |sy my ey];
    simpl; try discriminate; reflexivity.
Qed.

Lemma div_zero_or_nan (x y : float) :
  zero_or_nan x = true -> zero_or_nan (div x y) = true.
Proof.
  unfold div. destruct x as [sx|sx| |sx mx ex], y as [sy|sy| |sy my ey];
    simpl; try discriminate; reflexivity.
Qed.

(** Nothing is below, nor above, a zero or a NaN that is itself a zero or
    a NaN; in particular such a value is not positive. *)
Lemma zero_or_nan_not_pos (x : float) :
  zero_or_nan x = true -> gtb x (of_Z 0) = false.
Proof. destruct x as [[]|[]| |[] m e]; simpl; try discriminate; reflexivity. Qed.

Lemma fabsf_zero_or_nan (x : float) :
  zero_or_nan x = true -> zero_or_nan (fabsf x) = true.
Proof. destruct x; simpl; try discriminate; reflexivity. Qed.

Lemma fabsf_nonneg (x : float) : nonneg_or_nan (fabsf x) = true.
Proof. destruct x; reflexivity. Qed.

Lemma sqrtf_nonneg (x : float) : nonneg_or_nan (sqrtf x) = true.
Proof.
  unfold sqrtf. destruct x as [[]|[]| |[] m e]; simpl; try reflexivity.
  destruct (SFsqrt_core_binary prec emax (Z.pos m) e) as [[mz ez] lz].
  apply binary_round_aux_nonneg.
Qed.

(** A value that is not negative is never below or equal to a negative
    one, and never below one that is not positive. *)
Lemma nonneg_not_leb_neg (d r : float) :
  nonneg_or_nan d = true -> ltb r (of_Z 0) = true -> leb d r = false.
Proof.
  destruct d as [[]|[]| |[] md ed], r as [[]|[]| |[] mr er]; simpl;
    try discriminate; reflexivity.
Qed.

Lemma nonneg_not_ltb_nonpos (d r : float) :
  nonneg_or_nan d = true -> nonpos_or_nan r = true -> ltb d r = false.
Proof.
  destruct d as [[]|[]| |[] md ed], r as [[]|[]| |[] mr er]; simpl;
    try discriminate; reflexivity.
Qed.

Lemma mul_nonpos_nonneg (x y : float) :
  nonpos_or_nan x = true -> nonneg_or_nan y = true -> nonpos_or_nan (mul x y) = true.
Proof.
  unfold mul.
  destruct x as [[]|[]| |[] mx ex], y as [[]|[]| |[] my ey]; simpl;
    try discriminate; try reflexivity.
  intros _ _.
  pose proof (binary_round_aux_opp false (Z.pos (mx * my)) (ex + ey) loc_Exact) as E.
  simpl in E. rewrite E.
  pose proof (binary_round_aux_nonneg (Z.pos (mx * my)) (ex + ey) loc_Exact) as N.
  destruct (binary_round_aux prec emax false _ _ _) as [[]|[]| |[] m e];
    try discriminate N; reflexivity.
Qed.

(** The conversion of an integer that is not positive. *)
Lemma of_Z_nonpos (z : Z) : z <= 0 -> nonpos_or_nan (of_Z z) = true.
Proof.
  intros Hz. unfold of_Z. destruct z as [|p|p]; try lia; [reflexivity|].
  simpl. pose proof (binary_round_opp false p 0) as E. simpl in E. rewrite E.
  unfold binary_round. destruct (shl_align p 0 _) as [mz ez].
  pose proof (binary_round_aux_nonneg (Z.pos mz) ez loc_Exact) as N.
  destruct (binary_round_aux prec emax false _ _ _) as [[]|[]| |[] m e];
    try discriminate N; reflexivity.
Qed.

(** Adding a zero does not change how a number compares. *)
Lemma compare_add_zero (p x z : float) :
  (match z with S754_zero _ => true | _ => false end) = true ->
  SFcompare p (add x z) = SFcompare p x.
Proof.
  unfold add. destruct z as [sz| | |]; try discriminate. intros _.
  destruct x as [[]|sx| |sx mx ex], sz, p as [sp|sp| |sp mp ep]; reflexivity.
Qed.

Lemma compare_add_zero_l (p x z : float) :
  (match z with S754_zero _ => true | _ => false end) = true ->
  SFcompare (add x z) p = SFcompare x p.
Proof.
  unfold add. destruct z as [sz| | |]; try discriminate. intros _.
  destruct x as [[]|sx| |sx mx ex], sz, p as [sp|sp| |sp mp ep]; reflexivity.
Qed.

(** Subtracting [+0] changes nothing at all. *)
Lemma sub_pos_zero (x : float) : sub x (of_Z 0) = x.
Proof. destruct x as [[]|[]| |[] m e]; reflexivity. Qed.

End F32Algebra.

Import F32Algebra.

(** ** Symmetry and reach of the circle and rectangle tests *)

(** X1.  [RL_CheckCollisionRecs] gives the same answer when its two
    rectangles are exchanged, whatever the fields are (NaN and the
    infinities included). *)
Theorem collision_recs_symmetric :
  forall rec1 rec2 : RlRectangle,
    RL_CheckCollisionRecs rec1 rec2 = RL_CheckCollisionRecs rec2 rec1.
Proof.
  intros rec1 rec2. unfold RL_CheckCollisionRecs. rewrite !F32Facts.gtb_ltb.
  destruct (rec_x rec1 <? rec_x rec2 + rec_width rec2),
    (rec_x rec2 <? rec_x rec1 + rec_width rec1),
    (rec_y rec1 <? rec_y rec2 + rec_height rec2),
    (rec_y rec2 <? rec_y rec1 + rec_height rec1); reflexivity.
Qed.

(** X2.  [RL_CheckCollisionCircles] gives the same answer when the two
    circles are exchanged: the rounded distance and the rounded sum of the
    radii do not depend on the order. *)
Theorem collision_circles_symmetric :
  forall (center1 : RlVector2) (radius1 : float) (center2 : RlVector2) (radius2 : float),
    RL_CheckCollisionCircles center1 radius1 center2 radius2
    = RL_CheckCollisionCircles center2 radius2 center1 radius1.
Proof.
  intros center1 radius1 center2 radius2. unfold RL_CheckCollisionCircles.
  cbv zeta.
  rewrite (square_sub_swap (v_x center2) (v_x center1)).
  rewrite (square_sub_swap (v_y center2) (v_y center1)).
  rewrite (add_comm radius1 radius2). reflexivity.
Qed.

Lemma ltb_zero_add_zero_l (r : float) : ($0 + r <? $0) = (r <? $0).
Proof.
  unfold F32.ltb, SFltb. rewrite (add_comm $0 r).
  now rewrite (compare_add_zero_l $0 r $0 eq_refl).
Qed.

(** X3.  Two circles whose radii sum, in [float], to a negative number or
    to NaN never collide, wherever their centers are (the same point
    included); in particular a circle of negative radius contains no
    point for [RL_CheckCollisionPointCircle]. *)
Theorem collision_circles_negative_reach :
  forall (center1 : RlVector2) (radius1 : float) (center2 : RlVector2) (radius2 : float),
    ((radius1 + radius2 <? $0) = true ->
     RL_CheckCollisionCircles center1 radius1 center2 radius2 = false)
    /\ (F32.is_nan (radius1 + radius2) = true ->
        RL_CheckCollisionCircles center1 radius1 center2 radius2 = false)
    /\ ((radius2 <? $0) = true ->
        RL_CheckCollisionPointCircle center1 center2 radius2 = false).
Proof.
  intros center1 radius1 center2 radius2.
  assert (neg : forall r1 r2, (r1 + r2 <? $0) = true ->
            RL_CheckCollisionCircles center1 r1 center2 r2 = false).
  { intros r1 r2 H. unfold RL_CheckCollisionCircles. cbv zeta.
    apply nonneg_not_leb_neg; [apply sqrtf_nonneg|exact H]. }
  split; [apply neg|]. split.
  - intros H. unfold RL_CheckCollisionCircles. cbv zeta.
    destruct (radius1 + radius2); try discriminate H.
    unfold F32.leb, SFleb.
    destruct (F32.sqrtf _) as [[]|[]| |[] m e]; reflexivity.
  - intros H. unfold RL_CheckCollisionPointCircle. apply neg.
    now rewrite ltb_zero_add_zero_l.
Qed.

Lemma leb_ltb_false (x p : float) : (x <=? p) = true -> (p <? x) = false.
Proof.
  unfold F32.leb, F32.ltb, SFleb, SFltb. rewrite (F32Facts.SFcompare_swap x p).
  destruct (SFcompare x p) as [[]|]; simpl; congruence.
Qed.

Lemma eqb_zero (w : float) :
  (w =? $0) = true -> (match w with S754_zero _ => true | _ => false end) = true.
Proof. destruct w as [[]|[]| |[] m e]; simpl; try discriminate; reflexivity. Qed.

Lemma between_empty (x p w : float) :
  (w =? $0) = true -> (p >=? x) && (p <? x + w) = false.
Proof.
  intros Hw. rewrite F32Facts.geb_leb.
  replace (p <? x + w) with (p <? x)
    by (unfold F32.ltb, SFltb; now rewrite (compare_add_zero p x w (eqb_zero w Hw))).
  destruct (x <=? p) eqn:E; [|reflexivity].
  now rewrite (leb_ltb_false x p E).
Qed.

(** X4.  A rectangle whose width or height compares equal to zero
    contains no point for [RL_CheckCollisionPointRec], not even its own
    corner [(x, y)]. *)
Theorem point_rec_flat_rectangle :
  forall (point : RlVector2) (rec : RlRectangle),
    (rec_width rec =? $0) = true \/ (rec_height rec =? $0) = true ->
    RL_CheckCollisionPointRec point rec = false.
Proof.
  intros point rec [H|H]; unfold RL_CheckCollisionPointRec.
  - now rewrite (between_empty (rec_x rec) (v_x point) (rec_width rec) H).
  - rewrite <- andb_assoc.
    rewrite (between_empty (rec_y rec) (v_y point) (rec_height rec) H).
    apply andb_false_r.
Qed.

Lemma point_rec_flat_rectangle_witness :
  RL_CheckCollisionPointRec (mkVector2 $0 $0) (mkRectangle $0 $0 $0 $1) = false.
Proof.
  apply (point_rec_flat_rectangle (mkVector2 $0 $0) (mkRectangle $0 $0 $0 $1)).
  left. vm_compute. reflexivity.
Defined.

(** [a*b + b'*a] cancels when [b'] is the difference opposite to [b]. *)
Lemma cross_cancel (a x y : float) :
  zero_or_nan ((y - x) * a + a * (x - y)) = true
  /\ zero_or_nan (a * (x - y) + (y - x) * a) = true.
Proof.
  assert (H : zero_or_nan (a * (x - y) + (y - x) * a) = true).
  { destruct (sub_swap x y) as [E|[E1 E2]].
    - fold (F32.sub y x) in E. fold (F32.sub x y) in E. rewrite E.
      rewrite mul_opp_l, (mul_comm (x - y) a). apply add_opp_self.
    - fold (F32.sub y x) in E2. fold (F32.sub x y) in E1. rewrite E1, E2.
      apply add_zero_or_nan;
        [apply mul_zero_or_nan_r|apply mul_zero_or_nan_l]; reflexivity. }
  split; [|exact H]. now rewrite add_comm.
Qed.

(** X5.  None of the three vertices of a triangle is inside it for
    [RL_CheckCollisionPointTriangle], whatever the coordinates are: at a
    vertex one of the computed barycentric coordinates is a zero or a
    NaN. *)
Theorem point_triangle_vertices_outside :
  forall p1 p2 p3 : RlVector2,
    RL_CheckCollisionPointTriangle p1 p1 p2 p3 = false
    /\ RL_CheckCollisionPointTriangle p2 p1 p2 p3 = false
    /\ RL_CheckCollisionPointTriangle p3 p1 p2 p3 = false.
Proof.
  intros p1 p2 p3. unfold RL_CheckCollisionPointTriangle. cbv zeta.
  split; [|split].
  - assert (B : (triangle_beta p1 p1 p2 p3 >? $0) = false).
    { apply zero_or_nan_not_pos. unfold triangle_beta. apply div_zero_or_nan.
      apply (cross_cancel (v_x p1 - v_x p3) (v_y p1) (v_y p3)). }
    rewrite B. now rewrite andb_false_r.
  - assert (A : (triangle_alpha p2 p1 p2 p3 >? $0) = false).
    { apply zero_or_nan_not_pos. unfold triangle_alpha. apply div_zero_or_nan.
      apply (cross_cancel (v_y p2 - v_y p3) (v_x p2) (v_x p3)). }
    rewrite A. reflexivity.
  - assert (A : (triangle_alpha p3 p1 p2 p3 >? $0) = false).
    { apply zero_or_nan_not_pos. unfold triangle_alpha. apply div_zero_or_nan.
      apply add_zero_or_nan; apply mul_zero_or_nan_r; apply sub_self. }
    rewrite A. reflexivity.
Qed.

(** A quotient by a zero or a NaN is an infinity or a NaN. *)
Lemma div_by_zero_or_nan (x d : float) :
  zero_or_nan d = true -> infinite_or_nan (x / d) = true.
Proof.
  unfold F32.div.
  destruct x as [sx|sx| |sx mx ex], d as [sd|sd| |sd md ed]; simpl;
    try discriminate; reflexivity.
Qed.

(** With both [alpha] and [beta] infinite or NaN, the three coordinates
    are never all positive. *)
Lemma infinite_coordinates (alpha beta : float) :
  infinite_or_nan alpha = true -> infinite_or_nan beta = true ->
  (alpha >? $0) && (beta >? $0) && ($1 - alpha - beta >? $0) = false.
Proof.
  destruct alpha as [|[]| |], beta as [|[]| |]; try discriminate; reflexivity.
Qed.

(** X6.  A triangle two of whose vertices are the same point contains no
    point for [RL_CheckCollisionPointTriangle]: the division by the zero
    denominator gives infinities or NaN, never three positive
    coordinates. *)
Theorem point_triangle_collapsed :
  forall point p q : RlVector2,
    RL_CheckCollisionPointTriangle point p p q = false
    /\ RL_CheckCollisionPointTriangle point p q p = false
    /\ RL_CheckCollisionPointTriangle point q p p = false.
Proof.
  intros point p q. unfold RL_CheckCollisionPointTriangle. cbv zeta.
  split; [|split].
  - apply infinite_coordinates.
    + unfold triangle_alpha. apply div_by_zero_or_nan.
      apply (cross_cancel (v_y p - v_y q) (v_x p) (v_x q)).
    + unfold triangle_beta. apply div_by_zero_or_nan.
      apply (cross_cancel (v_y p - v_y q) (v_x p) (v_x q)).
  - assert (B : (triangle_beta point p q p >? $0) = false).
    { apply zero_or_nan_not_pos. unfold triangle_beta. apply div_zero_or_nan.
      apply add_zero_or_nan; apply mul_zero_or_nan_l; apply sub_self. }
    rewrite B. now rewrite andb_false_r.
  - assert (A : (triangle_alpha point q p p >? $0) = false).
    { apply zero_or_nan_not_pos. unfold triangle_alpha. apply div_zero_or_nan.
      apply add_zero_or_nan; apply mul_zero_or_nan_l; apply sub_self. }
    rewrite A. reflexivity.
Qed.

(** ** Lines *)

Lemma fmaxf_nonneg (x y : float) :
  nonneg_or_nan x = true -> nonneg_or_nan y = true -> nonneg_or_nan (fmaxf x y) = true.
Proof.
  intros Hx Hy. unfold fmaxf.
  destruct (F32.is_nan x); [assumption|].
  destruct (F32.is_nan y); [assumption|].
  destruct (x <? y); assumption.
Qed.

Lemma fmaxf_zero_or_nan (x y : float) :
  zero_or_nan x = true -> zero_or_nan y = true -> zero_or_nan (fmaxf x y) = true.
Proof.
  intros Hx Hy. unfold fmaxf.
  destruct (F32.is_nan x); [assumption|].
  destruct (F32.is_nan y); [assumption|].
  destruct (x <? y); assumption.
Qed.

Lemma zero_or_nan_nonpos (x : float) : zero_or_nan x = true -> nonpos_or_nan x = true.
Proof. destruct x; simpl; try discriminate; reflexivity. Qed.

(** X8.  With a [threshold] of zero or less [RL_CheckCollisionPointLine]
    finds no point on any line, the end points included; and whatever
    the threshold, no point (not even [p1]) is on the line from [p1] to
    [p1] itself. *)
Theorem point_line_no_reach :
  forall (point p1 p2 : RlVector2) (threshold : Z),
    ((threshold <= 0)%Z -> RL_CheckCollisionPointLine point p1 p2 threshold = false)
    /\ RL_CheckCollisionPointLine point p1 p1 threshold = false.
Proof.
  intros point p1 p2 threshold. split.
  - intros Ht. unfold RL_CheckCollisionPointLine. cbv zeta.
    rewrite nonneg_not_ltb_nonpos; [reflexivity|apply fabsf_nonneg|].
    apply mul_nonpos_nonneg; [now apply of_Z_nonpos|].
    apply fmaxf_nonneg; apply fabsf_nonneg.
  - unfold RL_CheckCollisionPointLine. cbv zeta.
    rewrite nonneg_not_ltb_nonpos; [reflexivity|apply fabsf_nonneg|].
    apply zero_or_nan_nonpos, mul_zero_or_nan_r.
    apply fmaxf_zero_or_nan; apply fabsf_zero_or_nan, sub_self.
Qed.

(** The scenario of the specification. *)
Example point_line_scenario :
  RL_CheckCollisionPointLine (mkVector2 $5 ($2 / $5)) (mkVector2 $0 $0) (mkVector2 $10 $0) 1
  = true
  /\ RL_CheckCollisionPointLine (mkVector2 $5 $2) (mkVector2 $0 $0) (mkVector2 $10 $0) 1
     = false
  /\ RL_CheckCollisionPointLine (mkVector2 $5 $0) (mkVector2 $0 $0) (mkVector2 $10 $0) 0
     = false.
Proof. vm_compute. repeat split. Qed.

Lemma not_geb_epsilon (x : float) :
  zero_or_nan x = true -> (F32.fabsf x >=? FLT_EPSILON) = false.
Proof. destruct x as [[]|[]| |[] m e]; simpl; try discriminate; reflexivity. Qed.

(** [t - t'] is a zero or a NaN when [t'] is [t] with its factors swapped. *)
Lemma sub_mul_comm (a b : float) : zero_or_nan (a * b - b * a) = true.
Proof. rewrite (mul_comm b a). apply sub_self. Qed.

(** X9.  [RL_CheckCollisionLines] reports no collision, and leaves
    [*collisionPoint] alone, for two segments with the same direction
    vector, so also for a segment and itself.  In general the point is
    written only when the answer is true, and a null [collisionPoint] is
    never written through. *)
Theorem collision_lines_parallel :
  forall (startPos1 endPos1 startPos2 endPos2 : RlVector2)
         (collisionPoint : option RlVector2),
    (v_x endPos2 - v_x startPos2 = v_x endPos1 - v_x startPos1 ->
     v_y endPos2 - v_y startPos2 = v_y endPos1 - v_y startPos1 ->
     RL_CheckCollisionLines startPos1 endPos1 startPos2 endPos2 collisionPoint
     = (false, collisionPoint))
    /\ RL_CheckCollisionLines startPos1 endPos1 startPos1 endPos1 collisionPoint
       = (false, collisionPoint)
    /\ (fst (RL_CheckCollisionLines startPos1 endPos1 startPos2 endPos2 collisionPoint)
        = false ->
        snd (RL_CheckCollisionLines startPos1 endPos1 startPos2 endPos2 collisionPoint)
        = collisionPoint)
    /\ snd (RL_CheckCollisionLines startPos1 endPos1 startPos2 endPos2 None) = None.
Proof.
  intros startPos1 endPos1 startPos2 endPos2 collisionPoint.
  assert (par : forall s2 e2,
    v_x e2 - v_x s2 = v_x endPos1 - v_x startPos1 ->
    v_y e2 - v_y s2 = v_y endPos1 - v_y startPos1 ->
    RL_CheckCollisionLines startPos1 endPos1 s2 e2 collisionPoint
    = (false, collisionPoint)).
  { intros s2 e2 Hx Hy. unfold RL_CheckCollisionLines. cbv zeta.
    rewrite Hx, Hy. now rewrite (not_geb_epsilon _ (sub_mul_comm _ _)). }
  split; [apply par|]. split; [now apply par|]. split.
  - unfold RL_CheckCollisionLines. cbv zeta.
    destruct (F32.fabsf _ >=? FLT_EPSILON); [|reflexivity].
    destruct collisionPoint; cbn [fst snd]; [|reflexivity].
    now intros ->.
  - unfold RL_CheckCollisionLines. cbv zeta.
    destruct (F32.fabsf _ >=? FLT_EPSILON); reflexivity.
Qed.

(** Two crossing diagonals meet at [(1, 1)]; two disjoint segments on
    crossing lines do not collide and leave the point alone. *)
Example collision_lines_runs :
  RL_CheckCollisionLines (mkVector2 $0 $0) (mkVector2 $2 $2)
    (mkVector2 $0 $2) (mkVector2 $2 $0) (Some (mkVector2 $7 $7))
  = (true, Some (mkVector2 $1 $1))
  /\ RL_CheckCollisionLines (mkVector2 $0 $0) (mkVector2 $2 $2)
       (mkVector2 $3 $0) (mkVector2 $4 (SFopp $1)) (Some (mkVector2 $7 $7))
     = (false, Some (mkVector2 $7 $7)).
Proof. vm_compute. split; reflexivity. Qed.

(** ** Flat edges of a polygon *)

(** An edge whose two ends have the same [y] is never crossed: the
    quotient by [vn.y - vc.y] is only looked at when the two differ. *)
Lemma poly_flat_edge (point vc vn : RlVector2) :
  (v_y vc =? v_y vn) = true \/ v_y vc = v_y vn ->
  poly_edge_crosses point vc vn = false.
Proof.
  intros H. unfold poly_edge_crosses. rewrite !F32Facts.geb_leb.
  assert (E : forall p, SFcompare (v_y vn) p = SFcompare (v_y vc) p
                        /\ SFcompare p (v_y vn) = SFcompare p (v_y vc)).
  { intros p. destruct H as [H|H]; [|rewrite H; split; reflexivity].
    unfold F32.eqb, SFeqb in H.
    destruct (v_y vc) as [[]|[]| |[] mc ec], (v_y vn) as [[]|[]| |[] mn en];
      simpl in H; try discriminate H; try (split; reflexivity).
    all: destruct (Z.compare_spec ec en); try discriminate H; subst en.
    all: change (PosDef.Pos.compare_cont Eq mc mn) with (Pos.compare mc mn) in H.
    all: destruct (Pos.compare_spec mc mn); try discriminate H.
    all: subst mn; split; reflexivity. }
  replace (v_y vn <? v_y point) with (v_y vc <? v_y point)
    by (unfold F32.ltb, SFltb; now rewrite (proj1 (E (v_y point)))).
  replace (v_y point <=? v_y vn) with (v_y point <=? v_y vc)
    by (unfold F32.leb, SFleb; now rewrite (proj2 (E (v_y point)))).
  destruct (v_y point <=? v_y vc) eqn:L.
  - rewrite (leb_ltb_false _ _ L). reflexivity.
  - rewrite !andb_false_r. reflexivity.
Qed.

Lemma fold_toggle_flat (point : RlVector2) (edges : list (RlVector2 * RlVector2)) :
  (forall e, In e edges -> v_y (fst e) = v_y (snd e)) ->
  forall c : bool, fold_left (toggle point) edges c = c.
Proof.
  induction edges as [|e edges IH]; intros H c; [reflexivity|].
  cbn [fold_left]. unfold toggle at 2.
  rewrite (poly_flat_edge point (fst e) (snd e))
    by (right; apply H; left; reflexivity).
  apply IH. intros e' He'. apply H. right. exact He'.
Qed.

Lemma chain_edges_In (l : list RlVector2) (e : RlVector2 * RlVector2) :
  In e (chain_edges l) -> In (fst e) l /\ In (snd e) l.
Proof.
  unfold chain_edges. destruct e as [a b]. intros H. split.
  - exact (in_combine_l _ _ _ _ H).
  - apply in_combine_r in H. destruct l; [contradiction|]. right. exact H.
Qed.

(** X7.  A polygon all of whose points have the same [y] contains no
    point for [RL_CheckCollisionPointPoly], whatever its length: no edge
    is crossed, and the quotient by [vn.y - vc.y = 0] is never looked
    at. *)
Theorem point_poly_flat :
  forall (point : RlVector2) (points : list RlVector2) (y : float),
    (forall p, In p points -> v_y p = y) ->
    RL_CheckCollisionPointPoly point points (Z.of_nat (length points)) = Some false.
Proof.
  intros point points y Hflat.
  destruct points as [|x l].
  - reflexivity.
  - destruct (le_lt_dec 2 (length l)) as [Hl|Hl].
    + pose proof (point_poly_prefix point x l [] Hl) as P.
      rewrite app_nil_r in P. cbn [length]. rewrite P.
      rewrite fold_toggle_flat; [reflexivity|].
      intros e He. apply chain_edges_In in He. destruct He as [H1 H2].
      now rewrite (Hflat _ H1), (Hflat _ H2).
    + unfold RL_CheckCollisionPointPoly.
      destruct (Z.gtb_spec (Z.of_nat (length (x :: l))) 2) as [H|_];
        [simpl in H; lia|reflexivity].
Qed.

Lemma point_poly_flat_witness :
  RL_CheckCollisionPointPoly (mkVector2 $1 $0)
    [mkVector2 $0 $0; mkVector2 $4 $0; mkVector2 $2 $0]
    (Z.of_nat (length [mkVector2 $0 $0; mkVector2 $4 $0; mkVector2 $2 $0]))
  = Some false.
Proof.
  apply (point_poly_flat (mkVector2 $1 $0)
           [mkVector2 $0 $0; mkVector2 $4 $0; mkVector2 $2 $0] $0).
  intros p [<-|[<-|[<-|[]]]]; reflexivity.
Defined.

(** ** Sectors, rings and polygons: symmetry and vertex counts *)

(** A loop whose body emits [k] vertices each time emits [n * k]. *)
Lemma arc_loop_vertices (k : nat) (step : float) (body : float -> list rl_call) :
  (forall angle, length (vertices (body angle)) = k) ->
  forall (n : nat) (angle : float),
    length (vertices (fst (arc_loop n step body angle))) = (n * k)%nat.
Proof.
  intros Hbody. induction n as [|n IH]; intros angle; [reflexivity|].
  cbn [arc_loop]. specialize (IH (angle + step)).
  destruct (arc_loop n step body (angle + step)) as [tr angle'].
  cbn [fst] in *. rewrite vertices_app, length_app, Hbody, IH. reflexivity.
Qed.

Section SectorFacts.

Variables acosf cosf sinf : float -> float.
Variable powf : float -> float -> float.
Variable SUPPORT_QUADS_DRAW_MODE : bool.
Variable shapes : shapes_state.

(** The order of the two angles does not matter. *)
Lemma sector_arc_swap (radius startAngle endAngle : float) (segments : Z) :
  (endAngle <? startAngle) = true ->
  RL_DrawCircleSector_arc acosf powf radius startAngle endAngle segments
  = RL_DrawCircleSector_arc acosf powf radius endAngle startAngle segments.
Proof.
  intros H. unfold RL_DrawCircleSector_arc.
  now rewrite H, (F32Facts.ltb_asym _ _ H).
Qed.

(** X10.  [RL_DrawCircleSector] and [RL_DrawCircleSectorLines] draw the
    same when the two angles are exchanged, as soon as one is below the
    other. *)
Theorem sector_angles_swap :
  forall (center : RlVector2) (radius startAngle endAngle : float)
         (segments : Z) (color : RlColor),
    (endAngle <? startAngle) = true \/ (startAngle <? endAngle) = true ->
    RL_DrawCircleSector acosf cosf sinf powf SUPPORT_QUADS_DRAW_MODE shapes
      center radius startAngle endAngle segments color
    = RL_DrawCircleSector acosf cosf sinf powf SUPPORT_QUADS_DRAW_MODE shapes
        center radius endAngle startAngle segments color
    /\ RL_DrawCircleSectorLines acosf cosf sinf powf
         center radius startAngle endAngle segments color
       = RL_DrawCircleSectorLines acosf cosf sinf powf
           center radius endAngle startAngle segments color.
Proof.
  intros center radius startAngle endAngle segments color [H|H];
    unfold RL_DrawCircleSector, RL_DrawCircleSectorLines.
  - now rewrite (sector_arc_swap radius startAngle endAngle segments H).
  - now rewrite (sector_arc_swap radius endAngle startAngle segments H).
Qed.

Lemma sector_emit_vertices (center : RlVector2) (a : arc) (color : RlColor) :
  length (vertices (sector_emit cosf sinf SUPPORT_QUADS_DRAW_MODE shapes center a color))
  = sector_vertex_count SUPPORT_QUADS_DRAW_MODE (arc_segments a).
Proof.
  unfold sector_emit, sector_vertex_count. cbv zeta.
  destruct SUPPORT_QUADS_DRAW_MODE.
  - match goal with
    | |- context [arc_loop ?n ?step ?body ?angle] =>
        pose proof (arc_loop_vertices 4 step body (fun _ => eq_refl) n angle) as H;
        destruct (arc_loop n step body angle) as [tr angle']
    end.
    cbn [fst] in H. rewrite !vertices_app, !length_app, H.
    destruct (Z.rem (arc_segments a) 2 =? 0)%Z; simpl; lia.
  - match goal with
    | |- context [arc_loop ?n ?step ?body ?angle] =>
        pose proof (arc_loop_vertices 3 step body (fun _ => eq_refl) n angle) as H
    end.
    rewrite !vertices_app, !length_app, H. simpl. lia.
Qed.

(** X11.  When [RL_DrawCircleSector] returns, it has drawn with the
    segment count [n] of [RL_DrawCircleSector_arc]: three vertices per
    segment in triangle mode, and in quad mode four vertices for every
    two segments, an odd last segment taking a quad of its own, that
    is [4 * ceil(n / 2)]. *)
Theorem sector_vertices :
  forall (center : RlVector2) (radius startAngle endAngle : float)
         (segments : Z) (color : RlColor) (tr : list rl_call),
    RL_DrawCircleSector acosf cosf sinf powf SUPPORT_QUADS_DRAW_MODE shapes
      center radius startAngle endAngle segments color = Some tr ->
    exists a : arc,
      RL_DrawCircleSector_arc acosf powf radius startAngle endAngle segments = Some a
      /\ length (vertices tr)
         = sector_vertex_count SUPPORT_QUADS_DRAW_MODE (arc_segments a)
      /\ ((0 <= arc_segments a)%Z ->
          Z.of_nat (length (vertices tr))
          = if SUPPORT_QUADS_DRAW_MODE then (4 * ((arc_segments a + 1) / 2))%Z
            else (3 * arc_segments a)%Z).
Proof.
  intros center radius startAngle endAngle segments color tr.
  unfold RL_DrawCircleSector.
  destruct (RL_DrawCircleSector_arc acosf powf radius startAngle endAngle segments)
    as [a|]; [|discriminate].
  intros [= <-]. exists a. split; [reflexivity|].
  rewrite sector_emit_vertices. split; [reflexivity|].
  intros Hn. unfold sector_vertex_count.
  destruct SUPPORT_QUADS_DRAW_MODE; [|lia].
  pose proof (Z.quot_rem' (arc_segments a) 2) as Hqr.
  pose proof (Z.rem_bound_pos (arc_segments a) 2 Hn ltac:(lia)) as Hr.
  pose proof (Z.quot_pos (arc_segments a) 2 Hn ltac:(lia)) as Hq.
  destruct (Z.eqb_spec (Z.rem (arc_segments a) 2) 0) as [E|E].
  - replace ((arc_segments a + 1) / 2)%Z with (Z.quot (arc_segments a) 2); [lia|].
    apply (Z.div_unique _ 2 _ 1); lia.
  - replace ((arc_segments a + 1) / 2)%Z with (Z.quot (arc_segments a) 2 + 1)%Z; [lia|].
    apply (Z.div_unique _ 2 _ 0); lia.
Qed.

(** X12.  [RL_DrawCircleV] always draws the full turn from 0 to 360
    degrees in exactly 36 segments, for every radius (a radius of zero or
    less is drawn as 0.1): the count is never recomputed from the radius,
    no conversion to [int] is undefined, [acosf] and [powf] are not
    called, and 72 vertices (quads) or 108 (triangles) are emitted. *)
Theorem circle_v_fixed_segments :
  forall (center : RlVector2) (radius : float) (color : RlColor),
    RL_DrawCircleV acosf cosf sinf powf SUPPORT_QUADS_DRAW_MODE shapes center radius color
    = Some (sector_emit cosf sinf SUPPORT_QUADS_DRAW_MODE shapes center
              (mkArc (clamped_radius radius) $0 $360 36) color)
    /\ option_map (fun tr => length (vertices tr))
         (RL_DrawCircleV acosf cosf sinf powf SUPPORT_QUADS_DRAW_MODE shapes
            center radius color)
       = Some (if SUPPORT_QUADS_DRAW_MODE then 72%nat else 108%nat).
Proof.
  intros center radius color.
  assert (E : RL_DrawCircleV acosf cosf sinf powf SUPPORT_QUADS_DRAW_MODE shapes
                center radius color
              = Some (sector_emit cosf sinf SUPPORT_QUADS_DRAW_MODE shapes center
                        (mkArc (clamped_radius radius) $0 $360 36) color)).
  { unfold RL_DrawCircleV, RL_DrawCircleSector, RL_DrawCircleSector_arc.
    fold (clamped_radius radius).
    replace ($360 <? $0) with false by (vm_compute; reflexivity).
    replace (F32.to_int (F32.ceilf (($360 - $0) / $90))) with (Some 4%Z)
      by (vm_compute; reflexivity).
    reflexivity. }
  split; [exact E|]. rewrite E. cbn [option_map].
  rewrite sector_emit_vertices. cbn [arc_segments].
  destruct SUPPORT_QUADS_DRAW_MODE; reflexivity.
Qed.

(** X13.  [RL_DrawRing] and [RL_DrawRingLines] draw the same when the
    two radii are handed over in the wrong order, as long as the larger
    one is positive. *)
Theorem ring_radii_swap :
  forall (center : RlVector2) (innerRadius outerRadius startAngle endAngle : float)
         (segments : Z) (color : RlColor),
    (outerRadius <? innerRadius) = true ->
    (innerRadius <=? $0) = false ->
    RL_DrawRing acosf cosf sinf powf SUPPORT_QUADS_DRAW_MODE shapes
      center innerRadius outerRadius startAngle endAngle segments color
    = RL_DrawRing acosf cosf sinf powf SUPPORT_QUADS_DRAW_MODE shapes
        center outerRadius innerRadius startAngle endAngle segments color
    /\ RL_DrawRingLines acosf cosf sinf powf
         center innerRadius outerRadius startAngle endAngle segments color
       = RL_DrawRingLines acosf cosf sinf powf
           center outerRadius innerRadius startAngle endAngle segments color.
Proof.
  intros center innerRadius outerRadius startAngle endAngle segments color Hlt Hpos.
  unfold RL_DrawRing, RL_DrawRingLines.
  now rewrite Hlt, (F32Facts.ltb_asym _ _ Hlt), Hpos.
Qed.

(** X14.  A ring outline without a hole is a sector outline: for
    [innerRadius] equal to zero, below [outerRadius], and two different
    angles, [RL_DrawRingLines] makes the calls of
    [RL_DrawCircleSectorLines] on the outer radius, with the caller's
    angles and segment count. *)
Theorem ring_lines_without_hole :
  forall (center : RlVector2) (innerRadius outerRadius startAngle endAngle : float)
         (segments : Z) (color : RlColor),
    (innerRadius <=? $0) = true ->
    (startAngle =? endAngle) = false ->
    ($0 <=? innerRadius) = true ->
    (innerRadius <? outerRadius) = true ->
    RL_DrawRingLines acosf cosf sinf powf
      center innerRadius outerRadius startAngle endAngle segments color
    = RL_DrawCircleSectorLines acosf cosf sinf powf
        center outerRadius startAngle endAngle segments color.
Proof.
  intros center innerRadius outerRadius startAngle endAngle segments color
    Hinner Hangles Hnonneg Hlt.
  assert (Hclamp : clamped_radius outerRadius = outerRadius).
  { unfold clamped_radius.
    now rewrite (F32Facts.pos_of_nonneg_ltb _ _ Hnonneg Hlt). }
  unfold RL_DrawRingLines.
  rewrite Hangles, (F32Facts.ltb_asym _ _ Hlt), Hinner.
  pose proof (sector_arc_stable acosf powf outerRadius startAngle endAngle segments)
    as Hstable.
  replace (RL_DrawCircleSectorLines acosf cosf sinf powf center outerRadius
             startAngle endAngle segments color)
    with (let? a := RL_DrawCircleSector_arc acosf powf outerRadius startAngle endAngle
                      segments in
          Some (sector_lines_emit cosf sinf center a color)) by reflexivity.
  unfold RL_DrawCircleSector_arc at 1 in Hstable.
  unfold RL_DrawCircleSector_arc.
  fold (clamped_radius outerRadius) in *. rewrite Hclamp in *.
  destruct (if endAngle <? startAngle then (endAngle, startAngle)
            else (startAngle, endAngle)) as [s e].
  destruct (F32.to_int (F32.ceilf ((e - s) / $90))) as [minSegments|];
    [|reflexivity].
  destruct (segments <? minSegments)%Z.
  - destruct (F32.to_int _) as [d|]; [|reflexivity].
    specialize (Hstable _ eq_refl).
    cbn [arc_start arc_end arc_segments] in Hstable.
    unfold RL_DrawCircleSectorLines. rewrite Hstable. reflexivity.
  - specialize (Hstable _ eq_refl).
    cbn [arc_start arc_end arc_segments] in Hstable.
    unfold RL_DrawCircleSectorLines. rewrite Hstable. reflexivity.
Qed.

(** X15.  The polygon functions draw [n = max(3, sides)] sides (a count
    below three is drawn as a triangle): [RL_DrawPoly] emits [4n]
    vertices in quad mode and [3n] in triangle mode, [RL_DrawPolyLines]
    [2n], and [RL_DrawPolyLinesEx] [4n] in quad mode and [6n] in triangle
    mode. *)
Theorem poly_vertices :
  forall (center : RlVector2) (sides : Z) (radius rotation lineThick : float)
         (color : RlColor),
    let n := Z.to_nat (Z.max 3 sides) in
    length (vertices (RL_DrawPoly cosf sinf SUPPORT_QUADS_DRAW_MODE shapes
                        center sides radius rotation color))
    = ((if SUPPORT_QUADS_DRAW_MODE then 4 else 3) * n)%nat
    /\ length (vertices (RL_DrawPolyLines cosf sinf center sides radius rotation color))
       = (2 * n)%nat
    /\ length (vertices (RL_DrawPolyLinesEx cosf sinf SUPPORT_QUADS_DRAW_MODE shapes
                           center sides radius rotation lineThick color))
       = ((if SUPPORT_QUADS_DRAW_MODE then 4 else 6) * n)%nat.
Proof.
  intros center sides radius rotation lineThick color n.
  assert (E : Z.to_nat (poly_sides sides) = n).
  { unfold poly_sides, n. destruct (Z.ltb_spec sides 3); f_equal; lia. }
  unfold RL_DrawPoly, RL_DrawPolyLines, RL_DrawPolyLinesEx. cbv zeta. rewrite E.
  split; [|split].
  - destruct SUPPORT_QUADS_DRAW_MODE;
      rewrite !vertices_app, !length_app;
      [rewrite (arc_loop_vertices 4)|rewrite (arc_loop_vertices 3)];
      try (intros; reflexivity); simpl; lia.
  - rewrite !vertices_app, !length_app, (arc_loop_vertices 2);
      try (intros; reflexivity); simpl; lia.
  - destruct SUPPORT_QUADS_DRAW_MODE;
      rewrite !vertices_app, !length_app;
      [rewrite (arc_loop_vertices 4)|rewrite (arc_loop_vertices 6)];
      try (intros; reflexivity); simpl; lia.
Qed.

End SectorFacts.

Lemma sector_angles_swap_witness :
  let center := mkVector2 $0 $0 in
  let color := mkColor 255 255 255 255 in
  RL_DrawCircleSector (fun _ => PI) (fun _ => $1) (fun _ => $0) (fun x _ => x * x)
    true shapes_init center $5 $90 $0 0%Z color
  = RL_DrawCircleSector (fun _ => PI) (fun _ => $1) (fun _ => $0) (fun x _ => x * x)
      true shapes_init center $5 $0 $90 0%Z color
  /\ RL_DrawCircleSectorLines (fun _ => PI) (fun _ => $1) (fun _ => $0)
       (fun x _ => x * x) center $5 $90 $0 0%Z color
     = RL_DrawCircleSectorLines (fun _ => PI) (fun _ => $1) (fun _ => $0)
         (fun x _ => x * x) center $5 $0 $90 0%Z color.
Proof.
  apply (sector_angles_swap (fun _ => PI) (fun _ => $1) (fun _ => $0)
           (fun x _ => x * x) true shapes_init
           (mkVector2 $0 $0) $5 $90 $0 0%Z (mkColor 255 255 255 255)).
  left. vm_compute. reflexivity.
Defined.

Lemma sector_vertices_witness :
  let center := mkVector2 $0 $0 in
  let color := mkColor 255 255 255 255 in
  let tr :=
    sector_emit (fun _ => $1) (fun _ => $0) true shapes_init center
      (mkArc $5 $0 $360 9) color in
  exists a : arc,
    RL_DrawCircleSector_arc (fun _ => PI) (fun x _ => x * x) $5 $0 $360 9 = Some a
    /\ length (vertices tr) = sector_vertex_count true (arc_segments a)
    /\ ((0 <= arc_segments a)%Z ->
        Z.of_nat (length (vertices tr)) = (4 * ((arc_segments a + 1) / 2))%Z).
Proof.
  apply (sector_vertices (fun _ => PI) (fun _ => $1) (fun _ => $0)
           (fun x _ => x * x) true shapes_init
           (mkVector2 $0 $0) $5 $0 $360 9%Z (mkColor 255 255 255 255)).
  vm_compute. reflexivity.
Defined.

Lemma ring_radii_swap_witness :
  let center := mkVector2 $0 $0 in
  let color := mkColor 255 255 255 255 in
  RL_DrawRing (fun _ => PI) (fun _ => $1) (fun _ => $0) (fun x _ => x * x)
    true shapes_init center $5 $2 $0 $360 0%Z color
  = RL_DrawRing (fun _ => PI) (fun _ => $1) (fun _ => $0) (fun x _ => x * x)
      true shapes_init center $2 $5 $0 $360 0%Z color
  /\ RL_DrawRingLines (fun _ => PI) (fun _ => $1) (fun _ => $0) (fun x _ => x * x)
       center $5 $2 $0 $360 0%Z color
     = RL_DrawRingLines (fun _ => PI) (fun _ => $1) (fun _ => $0) (fun x _ => x * x)
         center $2 $5 $0 $360 0%Z color.
Proof.
  apply (ring_radii_swap (fun _ => PI) (fun _ => $1) (fun _ => $0)
           (fun x _ => x * x) true shapes_init
           (mkVector2 $0 $0) $5 $2 $0 $360 0%Z (mkColor 255 255 255 255));
    vm_compute; reflexivity.
Defined.

Lemma ring_lines_without_hole_witness :
  let center := mkVector2 $0 $0 in
  let color := mkColor 255 255 255 255 in
  RL_DrawRingLines (fun _ => PI) (fun _ => $1) (fun _ => $0) (fun x _ => x * x)
    center $0 $5 $0 $360 0%Z color
  = RL_DrawCircleSectorLines (fun _ => PI) (fun _ => $1) (fun _ => $0)
      (fun x _ => x * x) center $5 $0 $360 0%Z color.
Proof.
  apply (ring_lines_without_hole (fun _ => PI) (fun _ => $1) (fun _ => $0)
           (fun x _ => x * x)
           (mkVector2 $0 $0) $0 $5 $0 $360 0%Z (mkColor 255 255 255 255));
    vm_compute; reflexivity.
Defined.

(** ** Emitters of point lists *)

Lemma array_get_out_of_range {A : Type} (l : list A) (i : Z) :
  (Z.of_nat (length l) <= i)%Z -> array_get l i = None.
Proof.
  intros Hi. unfold array_get.
  destruct (Z.ltb_spec i 0) as [_|H]; [reflexivity|].
  apply nth_error_None. lia.
Qed.

(** The loop of [RL_DrawTriangleStrip] runs into undefined behaviour as
    soon as its last index is outside of the array. *)
Lemma strip_loop_overrun (points : list RlVector2) (n : nat) :
  forall i : Z,
    (0 < n)%nat -> (Z.of_nat (length points) < i + Z.of_nat n)%Z ->
    strip_loop points n i = None.
Proof.
  induction n as [|n IH]; intros i Hn Hhi; [lia|].
  cbn [strip_loop].
  destruct (Z.le_gt_cases (Z.of_nat (length points)) i) as [Hout|Hin].
  - now rewrite (array_get_out_of_range points i Hout).
  - rewrite (IH (i + 1)%Z) by lia.
    destruct (array_get points i); [|reflexivity].
    destruct (array_get points (i - 1)); [|reflexivity].
    destruct (array_get points (i - 2)); reflexivity.
Qed.

(** X16.  [RL_DrawTriangleStrip] draws nothing at all (no [rlBegin]) for
    fewer than three points; for [3 <= pointCount] points of the array it
    emits the [pointCount - 2] triangles, three vertices each; and it
    reads outside of the array exactly when [pointCount] exceeds the
    array's length. *)
Theorem triangle_strip_behaviour :
  forall (points : list RlVector2) (pointCount : Z) (color : RlColor),
    ((pointCount < 3)%Z -> RL_DrawTriangleStrip points pointCount color = Some [])
    /\ ((3 <= pointCount <= Z.of_nat (length points))%Z ->
        exists tr : list rl_call,
          RL_DrawTriangleStrip points pointCount color = Some tr
          /\ Z.of_nat (length (vertices tr)) = (3 * (pointCount - 2))%Z)
    /\ ((3 <= pointCount)%Z -> (Z.of_nat (length points) < pointCount)%Z ->
        RL_DrawTriangleStrip points pointCount color = None).
Proof.
  intros points pointCount color. unfold RL_DrawTriangleStrip.
  split; [|split].
  - intros H. destruct (Z.geb_spec pointCount 3). lia. reflexivity.
  - intros [Hlo Hhi]. destruct (Z.geb_spec pointCount 3); [|lia].
    destruct (strip_loop_runs points (Z.to_nat (pointCount - 2)) 2)
      as (tr & -> & Htr); [lia|lia|].
    eexists. split; [reflexivity|].
    rewrite !vertices_app, !length_app, Htr. cbn [vertices flat_map app length color4ub]. lia.
  - intros Hlo Hhi. destruct (Z.geb_spec pointCount 3); [|lia].
    rewrite strip_loop_overrun by lia. reflexivity.
Qed.

Section FanFacts.

Variable shapes : shapes_state.

Lemma fan_loop_runs (points : list RlVector2) (n : nat) :
  forall i : Z,
    (1 <= i)%Z -> (i + Z.of_nat n < Z.of_nat (length points))%Z ->
    exists tr : list rl_call,
      fan_loop shapes points n i = Some tr /\ length (vertices tr) = (4 * n)%nat.
Proof.
  induction n as [|n IH]; intros i Hlo Hhi.
  - exists []. split; reflexivity.
  - cbn [fan_loop].
    destruct (array_get_in_range points 0) as [p0 ->]; [lia|].
    destruct (array_get_in_range points i) as [p ->]; [lia|].
    destruct (array_get_in_range points (i + 1)) as [p' ->]; [lia|].
    destruct (IH (i + 1)%Z) as (tr & -> & Htr); [lia|lia|].
    eexists. split; [reflexivity|].
    rewrite vertices_app, length_app, Htr. simpl. lia.
Qed.

Lemma fan_loop_overrun (points : list RlVector2) (n : nat) :
  forall i : Z,
    (0 < n)%nat -> (Z.of_nat (length points) <= i + Z.of_nat n)%Z ->
    fan_loop shapes points n i = None.
Proof.
  induction n as [|n IH]; intros i Hn Hhi; [lia|].
  cbn [fan_loop].
  destruct (array_get points 0); [|reflexivity].
  destruct (array_get points i); [|reflexivity].
  destruct (Z.le_gt_cases (Z.of_nat (length points)) (i + 1)) as [Hout|Hin].
  - now rewrite (array_get_out_of_range points (i + 1) Hout).
  - rewrite (IH (i + 1)%Z) by lia.
    destruct (array_get points (i + 1)); reflexivity.
Qed.

(** X17.  [RL_DrawTriangleFan] draws nothing for fewer than three points;
    for [3 <= pointCount] points of the array it emits [pointCount - 2]
    quads of four vertices (the last vertex doubled); and it reads
    outside of the array exactly when [pointCount] exceeds the array's
    length. *)
Theorem triangle_fan_behaviour :
  forall (points : list RlVector2) (pointCount : Z) (color : RlColor),
    ((pointCount < 3)%Z -> RL_DrawTriangleFan shapes points pointCount color = Some [])
    /\ ((3 <= pointCount <= Z.of_nat (length points))%Z ->
        exists tr : list rl_call,
          RL_DrawTriangleFan shapes points pointCount color = Some tr
          /\ Z.of_nat (length (vertices tr)) = (4 * (pointCount - 2))%Z)
    /\ ((3 <= pointCount)%Z -> (Z.of_nat (length points) < pointCount)%Z ->
        RL_DrawTriangleFan shapes points pointCount color = None).
Proof.
  intros points pointCount color. unfold RL_DrawTriangleFan.
  split; [|split].
  - intros H. destruct (Z.geb_spec pointCount 3); [lia|reflexivity].
  - intros [Hlo Hhi]. destruct (Z.geb_spec pointCount 3); [|lia].
    destruct (fan_loop_runs points (Z.to_nat (pointCount - 2)) 1)
      as (tr & -> & Htr); [lia|lia|].
    eexists. split; [reflexivity|].
    rewrite !vertices_app, !length_app, Htr. cbn [vertices flat_map app length color4ub]. lia.
  - intros Hlo Hhi. destruct (Z.geb_spec pointCount 3); [|lia].
    rewrite fan_loop_overrun by lia. reflexivity.
Qed.

End FanFacts.

Lemma line_strip_loop_runs (points : list RlVector2) (n : nat) :
  forall i : Z,
    (0 <= i)%Z -> (i + Z.of_nat n < Z.of_nat (length points))%Z ->
    exists tr : list rl_call,
      line_strip_loop points n i = Some tr /\ length (vertices tr) = (2 * n)%nat.
Proof.
  induction n as [|n IH]; intros i Hlo Hhi.
  - exists []. split; reflexivity.
  - cbn [line_strip_loop].
    destruct (array_get_in_range points i) as [p ->]; [lia|].
    destruct (array_get_in_range points (i + 1)) as [p' ->]; [lia|].
    destruct (IH (i + 1)%Z) as (tr & -> & Htr); [lia|lia|].
    eexists. split; [reflexivity|].
    rewrite vertices_app, length_app, Htr. simpl. lia.
Qed.

Lemma line_strip_loop_overrun (points : list RlVector2) (n : nat) :
  forall i : Z,
    (0 < n)%nat -> (Z.of_nat (length points) <= i + Z.of_nat n)%Z ->
    line_strip_loop points n i = None.
Proof.
  induction n as [|n IH]; intros i Hn Hhi; [lia|].
  cbn [line_strip_loop].
  destruct (array_get points i); [|reflexivity].
  destruct (Z.le_gt_cases (Z.of_nat (length points)) (i + 1)) as [Hout|Hin].
  - now rewrite (array_get_out_of_range points (i + 1) Hout).
  - rewrite (IH (i + 1)%Z) by lia.
    destruct (array_get points (i + 1)); reflexivity.
Qed.

(** X18.  [RL_DrawLineStrip] draws nothing for fewer than two points; for
    [2 <= pointCount] points of the array it emits the [pointCount - 1]
    segments, two vertices each; and it reads outside of the array
    exactly when [pointCount] exceeds the array's length. *)
Theorem line_strip_behaviour :
  forall (points : list RlVector2) (pointCount : Z) (color : RlColor),
    ((pointCount < 2)%Z -> RL_DrawLineStrip points pointCount color = Some [])
    /\ ((2 <= pointCount <= Z.of_nat (length points))%Z ->
        exists tr : list rl_call,
          RL_DrawLineStrip points pointCount color = Some tr
          /\ Z.of_nat (length (vertices tr)) = (2 * (pointCount - 1))%Z)
    /\ ((2 <= pointCount)%Z -> (Z.of_nat (length points) < pointCount)%Z ->
        RL_DrawLineStrip points pointCount color = None).
Proof.
  intros points pointCount color. unfold RL_DrawLineStrip.
  split; [|split].
  - intros H. destruct (Z.geb_spec pointCount 2); [lia|reflexivity].
  - intros [Hlo Hhi]. destruct (Z.geb_spec pointCount 2); [|lia].
    destruct (line_strip_loop_runs points (Z.to_nat (pointCount - 1)) 0)
      as (tr & -> & Htr); [lia|lia|].
    eexists. split; [reflexivity|].
    rewrite !vertices_app, !length_app, Htr. cbn [vertices flat_map app length color4ub]. lia.
  - intros Hlo Hhi. destruct (Z.geb_spec pointCount 2); [|lia].
    rewrite line_strip_loop_overrun by lia. reflexivity.
Qed.

(** ** Thick lines *)

Lemma sqrtf_zero_or_nan (x : float) :
  zero_or_nan x = true -> zero_or_nan (F32.sqrtf x) = true.
Proof. destruct x as [[]|[]| |[] m e]; simpl; try discriminate; reflexivity. Qed.

(** X19.  [RL_DrawLineEx] never fails: it draws either nothing or one
    strip of two triangles (six vertices).  It draws nothing when [thick]
    is not positive (NaN included), and nothing for a line from a point
    to itself, whatever the coordinates: the division by the zero length
    is never reached. *)
Theorem line_ex_behaviour :
  forall (startPos endPos : RlVector2) (thick : float) (color : RlColor),
    (exists tr : list rl_call,
        RL_DrawLineEx startPos endPos thick color = Some tr
        /\ (tr = [] \/ length (vertices tr) = 6%nat))
    /\ ((thick >? $0) = false -> RL_DrawLineEx startPos endPos thick color = Some [])
    /\ RL_DrawLineEx startPos startPos thick color = Some [].
Proof.
  intros startPos endPos thick color. split; [|split].
  - unfold RL_DrawLineEx.
    destruct (line_ex_strip startPos endPos thick) as [strip|] eqn:E.
    + unfold line_ex_strip in E. cbv zeta in E.
      destruct (_ && _) in E; [|discriminate]. injection E as <-.
      match goal with
      | |- context [RL_DrawTriangleStrip ?strip 4 color] =>
          destruct (RL_DrawTriangleStrip_runs strip color) as (tr & Hrun & Htr);
            [simpl; lia|]
      end.
      exists tr. split; [exact Hrun|]. right. exact Htr.
    + exists []. split; [reflexivity|]. left. reflexivity.
  - intros H. unfold RL_DrawLineEx, line_ex_strip. cbv zeta.
    now rewrite H, andb_false_r.
  - unfold RL_DrawLineEx, line_ex_strip. cbv zeta.
    rewrite (zero_or_nan_not_pos (F32.sqrtf _)); [reflexivity|].
    apply sqrtf_zero_or_nan, add_zero_or_nan;
      apply mul_zero_or_nan_l, sub_self.
Qed.

(** A horizontal line of thickness 2 from (0,0) to (10,0). *)
Example line_ex_run :
  line_ex_strip (mkVector2 $0 $0) (mkVector2 $10 $0) $2
  = Some [ mkVector2 $0 (SFopp $1); mkVector2 $0 $1;
           mkVector2 $10 (SFopp $1); mkVector2 $10 $1 ].
Proof. vm_compute. reflexivity. Qed.

Lemma nth_error_array_set {A : Type} (l : list A) :
  forall (i k : nat) (v : A),
    nth_error (array_set l i v) k
    = if (k =? i)%nat && (i <? length l)%nat then Some v else nth_error l k.
Proof.
  induction l as [|x l IH]; intros i k v.
  - cbn. destruct k; cbn; now rewrite andb_false_r.
  - destruct i as [|i], k as [|k]; cbn [array_set nth_error]; try reflexivity.
    rewrite IH. reflexivity.
Qed.

Lemma bezier_store_length (thick : float) (i : Z) (previous current : RlVector2)
    (points : list RlVector2) :
  length (bezier_store thick i previous current points) = length points.
Proof.
  unfold bezier_store. cbv zeta.
  destruct (i =? 1)%Z; now rewrite !array_set_length.
Qed.

(** Two arrays that agree below the slots an iteration writes agree, after
    it, below the slots the next one writes: what the iteration stores
    does not depend on the array. *)
Lemma bezier_store_agree (thick : float) (i : Z) (previous current : RlVector2)
    (l l' : list RlVector2) :
  length l = length l' ->
  (1 <= i)%Z -> (2 * i + 1 < Z.of_nat (length l))%Z ->
  (i = 1%Z
   \/ forall k : nat, (k < Z.to_nat (2 * i))%nat -> nth_error l k = nth_error l' k) ->
  forall k : nat,
    (k < Z.to_nat (2 * (i + 1)))%nat ->
    nth_error (bezier_store thick i previous current l) k
    = nth_error (bezier_store thick i previous current l') k.
Proof.
  intros Hlen Hlo Hhi Hinv k Hk. unfold bezier_store. cbv zeta.
  rewrite !nth_error_array_set, !array_set_length.
  assert (Hlen1 : forall a b : RlVector2,
             length (if (i =? 1)%Z then array_set (array_set l 0 a) 1 b else l)
             = length l)
    by (intros a b; destruct (i =? 1)%Z; now rewrite ?array_set_length).
  assert (Hlen1' : forall a b : RlVector2,
             length (if (i =? 1)%Z then array_set (array_set l' 0 a) 1 b else l')
             = length l)
    by (intros a b; destruct (i =? 1)%Z; now rewrite ?array_set_length).
  rewrite Hlen1, Hlen1'.
  replace (Z.to_nat (2 * i) <? length l)%nat with true
    by (symmetry; apply Nat.ltb_lt; lia).
  replace (Z.to_nat (2 * i + 1) <? length l)%nat with true
    by (symmetry; apply Nat.ltb_lt; lia).
  rewrite !andb_true_r.
  destruct (Nat.eqb_spec k (Z.to_nat (2 * i))) as [E|E]; [reflexivity|].
  destruct (Nat.eqb_spec k (Z.to_nat (2 * i + 1))) as [E'|E']; [reflexivity|].
  assert (Hk' : (k < Z.to_nat (2 * i))%nat) by lia.
  destruct (Z.eqb_spec i 1) as [->|Hne].
  - rewrite !nth_error_array_set, !array_set_length, <- Hlen.
    change (Z.to_nat (2 * 1)) with 2%nat in Hk'.
    destruct k as [|[|k]]; [| |lia]; cbn [Nat.eqb andb].
    + replace (1 <? length l)%nat with true by (symmetry; apply Nat.ltb_lt; lia).
      replace (0 <? length l)%nat with true by (symmetry; apply Nat.ltb_lt; lia).
      reflexivity.
    + replace (1 <? length l)%nat with true by (symmetry; apply Nat.ltb_lt; lia).
      reflexivity.
  - destruct Hinv as [E1|Hinv]; [contradiction|]. now apply Hinv.
Qed.

Section MoreBezierFacts.

Variable powf : float -> float -> float.
Variable thick : float.

Lemma bezier_cubic_loop_length (startPos endPos startControlPos endControlPos : RlVector2)
    (n : nat) :
  forall (i : Z) (previous : RlVector2) (points : list RlVector2),
    length (bezier_cubic_loop powf thick startPos endPos startControlPos endControlPos
              n i previous points)
    = length points.
Proof.
  induction n as [|n IH]; intros i previous points; [reflexivity|].
  cbn [bezier_cubic_loop]. cbv zeta. now rewrite IH, bezier_store_length.
Qed.

Lemma bezier_ease_loop_length (startPos endPos : RlVector2) (n : nat) :
  forall (i : Z) (previous : RlVector2) (points : list RlVector2),
    length (bezier_ease_loop thick startPos endPos n i previous points)
    = length points.
Proof.
  induction n as [|n IH]; intros i previous points; [reflexivity|].
  cbn [bezier_ease_loop]. cbv zeta. now rewrite IH, bezier_store_length.
Qed.

Lemma bezier_cubic_loop_agree
    (startPos endPos startControlPos endControlPos : RlVector2) (n : nat) :
  forall (i : Z) (previous : RlVector2) (l l' : list RlVector2),
    (1 <= i)%Z -> (Z.of_nat n + i = BEZIER_LINE_DIVISIONS + 1)%Z ->
    length l = Z.to_nat (2 * BEZIER_LINE_DIVISIONS + 2) ->
    length l' = Z.to_nat (2 * BEZIER_LINE_DIVISIONS + 2) ->
    (i = 1%Z
     \/ forall k : nat, (k < Z.to_nat (2 * i))%nat -> nth_error l k = nth_error l' k) ->
    bezier_cubic_loop powf thick startPos endPos startControlPos endControlPos
      n i previous l
    = bezier_cubic_loop powf thick startPos endPos startControlPos endControlPos
        n i previous l'.
Proof.
  change BEZIER_LINE_DIVISIONS with 24%Z. change (Z.to_nat (2 * 24 + 2)) with 50%nat.
  induction n as [|n IH]; intros i previous l l' Hlo Hn Hlen Hlen' Hinv.
  - cbn [bezier_cubic_loop]. destruct Hinv as [->|Hinv]; [lia|].
    apply nth_error_ext. intros k.
    destruct (Nat.lt_ge_cases k 50) as [Hk|Hk]; [apply Hinv; lia|].
    transitivity (@None RlVector2); [|symmetry]; apply nth_error_None; lia.
  - cbn [bezier_cubic_loop]. cbv zeta. apply IH.
    + lia.
    + lia.
    + now rewrite bezier_store_length.
    + now rewrite bezier_store_length.
    + right. apply bezier_store_agree; [congruence|lia|lia|exact Hinv].
Qed.

Lemma bezier_ease_loop_agree (startPos endPos : RlVector2) (n : nat) :
  forall (i : Z) (previous : RlVector2) (l l' : list RlVector2),
    (1 <= i)%Z -> (Z.of_nat n + i = BEZIER_LINE_DIVISIONS + 1)%Z ->
    length l = Z.to_nat (2 * BEZIER_LINE_DIVISIONS + 2) ->
    length l' = Z.to_nat (2 * BEZIER_LINE_DIVISIONS + 2) ->
    (i = 1%Z
     \/ forall k : nat, (k < Z.to_nat (2 * i))%nat -> nth_error l k = nth_error l' k) ->
    bezier_ease_loop thick startPos endPos n i previous l
    = bezier_ease_loop thick startPos endPos n i previous l'.
Proof.
  change BEZIER_LINE_DIVISIONS with 24%Z. change (Z.to_nat (2 * 24 + 2)) with 50%nat.
  induction n as [|n IH]; intros i previous l l' Hlo Hn Hlen Hlen' Hinv.
  - cbn [bezier_ease_loop]. destruct Hinv as [->|Hinv]; [lia|].
    apply nth_error_ext. intros k.
    destruct (Nat.lt_ge_cases k 50) as [Hk|Hk]; [apply Hinv; lia|].
    transitivity (@None RlVector2); [|symmetry]; apply nth_error_None; lia.
  - cbn [bezier_ease_loop]. cbv zeta. apply IH.
    + lia.
    + lia.
    + now rewrite bezier_store_length.
    + now rewrite bezier_store_length.
    + right. apply bezier_store_agree; [congruence|lia|lia|exact Hinv].
Qed.

(** X20.  [RL_DrawLineBezierCubic] and [RL_DrawLineBezier] overwrite every
    one of the [2*BEZIER_LINE_DIVISIONS + 2] entries of [points] before
    they hand the array to [RL_DrawTriangleStrip]: run on an array with
    any other contents their loops leave the same strip, so nothing of
    the [{ 0 }] the array starts with reaches the backend.  The strip is
    drawn in full, 48 triangles and 144 vertices, for every input and
    every [powf]. *)
Theorem bezier_strips_overwritten :
  forall (startPos endPos startControlPos endControlPos : RlVector2) (color : RlColor)
         (init : list RlVector2),
    length init = Z.to_nat (2 * BEZIER_LINE_DIVISIONS + 2) ->
    RL_DrawLineBezierCubic powf thick startPos endPos startControlPos endControlPos color
    = RL_DrawTriangleStrip
        (bezier_cubic_loop powf thick startPos endPos startControlPos endControlPos
           (Z.to_nat BEZIER_LINE_DIVISIONS) 1 startPos init)
        (2 * BEZIER_LINE_DIVISIONS + 2) color
    /\ RL_DrawLineBezier thick startPos endPos color
       = RL_DrawTriangleStrip
           (bezier_ease_loop thick startPos endPos
              (Z.to_nat BEZIER_LINE_DIVISIONS) 1 startPos init)
           (2 * BEZIER_LINE_DIVISIONS + 2) color
    /\ (exists tr : list rl_call,
           RL_DrawLineBezierCubic powf thick startPos endPos startControlPos
             endControlPos color = Some tr
           /\ length (vertices tr) = 144%nat)
    /\ (exists tr : list rl_call,
           RL_DrawLineBezier thick startPos endPos color = Some tr
           /\ length (vertices tr) = 144%nat).
Proof.
  intros startPos endPos startControlPos endControlPos color init Hinit.
  split; [|split; [|split]].
  - unfold RL_DrawLineBezierCubic. f_equal.
    apply bezier_cubic_loop_agree;
      [lia|reflexivity|apply repeat_length|exact Hinit|left; reflexivity].
  - unfold RL_DrawLineBezier. f_equal.
    apply bezier_ease_loop_agree;
      [lia|reflexivity|apply repeat_length|exact Hinit|left; reflexivity].
  - unfold RL_DrawLineBezierCubic.
    set (points := bezier_cubic_loop _ _ _ _ _ _ _ _ _ _).
    assert (Hlen : length points = 50%nat)
      by (unfold points; rewrite bezier_cubic_loop_length; apply repeat_length).
    destruct (RL_DrawTriangleStrip_runs points color) as (tr & Hrun & Htr);
      [rewrite Hlen; lia|].
    rewrite Hlen in Hrun, Htr. exists tr. split; assumption.
  - unfold RL_DrawLineBezier.
    set (points := bezier_ease_loop _ _ _ _ _ _ _).
    assert (Hlen : length points = 50%nat)
      by (unfold points; rewrite bezier_ease_loop_length; apply repeat_length).
    destruct (RL_DrawTriangleStrip_runs points color) as (tr & Hrun & Htr);
      [rewrite Hlen; lia|].
    rewrite Hlen in Hrun, Htr. exists tr. split; assumption.
Qed.

End MoreBezierFacts.

Lemma bezier_strips_overwritten_witness :
  let powf := fun x _ : float => x * x in
  let P0 := mkVector2 $0 $0 in
  let C0 := mkVector2 $0 $10 in
  let C1 := mkVector2 $10 $10 in
  let P1 := mkVector2 $10 $0 in
  let color := mkColor 255 255 255 255 in
  let init := repeat (mkVector2 $7 $7) 50 in
  RL_DrawLineBezierCubic powf $2 P0 P1 C0 C1 color
  = RL_DrawTriangleStrip
      (bezier_cubic_loop powf $2 P0 P1 C0 C1 (Z.to_nat BEZIER_LINE_DIVISIONS) 1 P0 init)
      (2 * BEZIER_LINE_DIVISIONS + 2) color
  /\ RL_DrawLineBezier $2 P0 P1 color
     = RL_DrawTriangleStrip
         (bezier_ease_loop $2 P0 P1 (Z.to_nat BEZIER_LINE_DIVISIONS) 1 P0 init)
         (2 * BEZIER_LINE_DIVISIONS + 2) color
  /\ (exists tr : list rl_call,
         RL_DrawLineBezierCubic powf $2 P0 P1 C0 C1 color = Some tr
         /\ length (vertices tr) = 144%nat)
  /\ (exists tr : list rl_call,
         RL_DrawLineBezier $2 P0 P1 color = Some tr
         /\ length (vertices tr) = 144%nat).
Proof.
  apply (bezier_strips_overwritten (fun x _ : float => x * x) $2
           (mkVector2 $0 $0) (mkVector2 $10 $0) (mkVector2 $0 $10) (mkVector2 $10 $10)
           (mkColor 255 255 255 255) (repeat (mkVector2 $7 $7) 50)).
  reflexivity.
Defined.

(** ** A bezier from a point to itself *)

Lemma add_nan_r (x : float) : x + S754_nan = S754_nan.
Proof. destruct x as [[]|[]| |[] m e]; reflexivity. Qed.

Lemma sub_nan_r (x : float) : x - S754_nan = S754_nan.
Proof. destruct x as [[]|[]| |[] m e]; reflexivity. Qed.

Lemma mul_zero_infinite (x y : float) :
  zero_or_nan x = true -> infinite_or_nan y = true -> x * y = S754_nan.
Proof.
  destruct x as [sx|sx| |sx mx ex], y as [sy|sy| |sy my ey];
    try discriminate; reflexivity.
Qed.

Lemma add_zero_shifted (z b : float) :
  zero_or_nan z = true -> zero_shifted b (z + b).
Proof.
  unfold zero_shifted.
  destruct z as [[]|[]| |[] mz ez]; try discriminate; intros _;
    destruct b as [[]|[]| |[] mb eb]; cbn;
    solve [ left; reflexivity | right; left; reflexivity
          | right; right; split; reflexivity ].
Qed.

Lemma zero_shifted_sub (b u v : float) :
  zero_shifted b u -> zero_shifted b v -> zero_or_nan (u - v) = true.
Proof.
  intros [->|[->|[Hb Hu]]] [->|[->|[Hb' Hv]]];
    rewrite ?sub_nan_r; try reflexivity;
    try (destruct v as [[]|[]| |[] m e]; reflexivity);
    try (destruct b as [[]|[]| |[] m e]; reflexivity).
  - apply sub_self.
  - now apply sub_zero_or_nan.
  - now apply sub_zero_or_nan.
  - now apply sub_zero_or_nan.
Qed.

Lemma add_zero_sub (p z : float) :
  zero_or_nan z = true -> zero_or_nan (p + z - p) = true.
Proof.
  intros Hz. destruct z as [sz|sz| |sz mz ez]; try discriminate.
  - destruct p as [sp|sp| |sp mp ep].
    + destruct sp, sz; reflexivity.
    + destruct sp; reflexivity.
    + reflexivity.
    + change (S754_finite sp mp ep + S754_zero sz) with (S754_finite sp mp ep).
      apply sub_self.
  - rewrite add_nan_r. destruct p as [[]|[]| |[] m e]; reflexivity.
Qed.

(** The eased ordinate of a curve that does not move in [y]. *)
Lemma ease_flat (t b c d : float) :
  zero_or_nan c = true -> zero_shifted b (EaseCubicInOut t b c d).
Proof.
  intros Hc. unfold EaseCubicInOut. cbv zeta.
  destruct (_ <? _); apply add_zero_shifted.
  - do 3 apply mul_zero_or_nan_l. now apply mul_zero_or_nan_r.
  - apply mul_zero_or_nan_l. now apply mul_zero_or_nan_r.
Qed.

Lemma nan_upto_set (m i : nat) (points : list RlVector2) (v : RlVector2) :
  nan_point v = true -> nan_upto m points -> nan_upto m (array_set points i v).
Proof.
  intros Hv H k Hk. rewrite nth_error_array_set.
  destruct (_ && _); [now exists v|]. now apply H.
Qed.

Lemma nan_upto_extend (m : nat) (points : list RlVector2) (v : RlVector2) :
  nan_point v = true -> (m < length points)%nat ->
  nan_upto m points -> nan_upto (S m) (array_set points m v).
Proof.
  intros Hv Hm H k Hk. rewrite nth_error_array_set.
  destruct (Nat.eqb_spec k m) as [->|Hne].
  - apply Nat.ltb_lt in Hm. rewrite Hm. now exists v.
  - apply H. lia.
Qed.

(** With [current] on [previous] every point stored is a NaN point. *)
Lemma bezier_store_nan (thick : float) (i : Z) (previous current : RlVector2)
    (points : list RlVector2) :
  zero_or_nan (v_x current - v_x previous) = true ->
  zero_or_nan (v_y current - v_y previous) = true ->
  (1 <= i)%Z -> (2 * i + 1 < Z.of_nat (length points))%Z ->
  i = 1 \/ nan_upto (Z.to_nat (2 * i)) points ->
  nan_upto (Z.to_nat (2 * (i + 1))) (bezier_store thick i previous current points).
Proof.
  intros Hdx Hdy Hlo Hhi Hinv. unfold bezier_store. cbv zeta.
  set (dy := v_y current - v_y previous) in *.
  set (dx := v_x current - v_x previous) in *.
  set (size := F32.half * thick / F32.sqrtf (dx * dx + dy * dy)).
  assert (Hsize : infinite_or_nan size = true).
  { apply div_by_zero_or_nan, sqrtf_zero_or_nan, add_zero_or_nan;
      now apply mul_zero_or_nan_l. }
  rewrite (mul_zero_infinite dy size Hdy Hsize).
  rewrite (mul_zero_infinite dx size Hdx Hsize).
  rewrite !add_nan_r, !sub_nan_r.
  set (nan := mkVector2 S754_nan S754_nan).
  assert (Hnan : nan_point nan = true) by reflexivity.
  assert (Hpre : nan_upto (Z.to_nat (2 * i))
                   (if (i =? 1)%Z then array_set (array_set points 0 nan) 1 nan
                    else points)).
  { destruct (Z.eqb_spec i 1) as [->|Hne].
    - change (Z.to_nat (2 * 1)) with 2%nat.
      apply (nan_upto_extend 1); [exact Hnan|rewrite array_set_length; lia|].
      apply (nan_upto_extend 0); [exact Hnan|lia|].
      intros k Hk. lia.
    - destruct Hinv as [E|Hinv]; [contradiction|exact Hinv]. }
  set (points1 := if (i =? 1)%Z then _ else points) in *.
  assert (Hlen1 : length points1 = length points).
  { unfold points1. destruct (i =? 1)%Z; now rewrite ?array_set_length. }
  replace (Z.to_nat (2 * (i + 1))) with (S (S (Z.to_nat (2 * i)))) by lia.
  replace (Z.to_nat (2 * i + 1)) with (S (Z.to_nat (2 * i))) by lia.
  intros k Hk. rewrite !nth_error_array_set, !array_set_length, Hlen1.
  destruct (Nat.eqb_spec k (Z.to_nat (2 * i))) as [->|Hne].
  - replace (Z.to_nat (2 * i) <? length points)%nat with true
      by (symmetry; apply Nat.ltb_lt; lia).
    now exists nan.
  - cbn [andb].
    destruct (Nat.eqb_spec k (S (Z.to_nat (2 * i)))) as [->|Hne'].
    + replace (S (Z.to_nat (2 * i)) <? length points)%nat with true
        by (symmetry; apply Nat.ltb_lt; lia).
      now exists nan.
    + cbn [andb]. apply Hpre. lia.
Qed.

Section DegenerateBezier.

Variable thick : float.
Variable p : RlVector2.

Lemma bezier_ease_loop_nan (n : nat) :
  forall (i : Z) (previous : RlVector2) (points : list RlVector2),
    (1 <= i)%Z -> (Z.of_nat n + i = 25)%Z -> length points = 50%nat ->
    zero_shifted (v_y p) (v_y previous) ->
    i = 1 \/ nan_upto (Z.to_nat (2 * i)) points ->
    nan_upto 50 (bezier_ease_loop thick p p n i previous points).
Proof.
  induction n as [|n IH]; intros i previous points Hlo Hn Hlen Hprev Hinv.
  - cbn [bezier_ease_loop]. destruct Hinv as [->|Hinv]; [lia|].
    replace (Z.to_nat (2 * i)) with 50%nat in Hinv by lia. exact Hinv.
  - cbn [bezier_ease_loop]. cbv zeta.
    set (cy := EaseCubicInOut _ _ _ _).
    set (cx := v_x previous + _).
    assert (Hcy : zero_shifted (v_y p) cy) by (apply ease_flat, sub_self).
    apply IH.
    + lia.
    + lia.
    + now rewrite bezier_store_length.
    + exact Hcy.
    + right. apply bezier_store_nan.
      * cbn [v_x]. apply add_zero_sub, div_zero_or_nan, sub_self.
      * cbn [v_y]. exact (zero_shifted_sub _ _ _ Hcy Hprev).
      * exact Hlo.
      * rewrite Hlen. lia.
      * exact Hinv.
Qed.

End DegenerateBezier.

Lemma strip_loop_vertices (points : list RlVector2) (n : nat) :
  forall (i : Z) (tr : list rl_call),
    strip_loop points n i = Some tr ->
    Forall (fun v => In v points) (vertices tr).
Proof.
  assert (G : forall i v, array_get points i = Some v -> In v points).
  { intros i v. unfold array_get. destruct (i <? 0)%Z; [discriminate|].
    apply nth_error_In. }
  induction n as [|n IH]; intros i tr H.
  - injection H as <-. constructor.
  - cbn [strip_loop] in H.
    destruct (array_get points i) as [a|] eqn:Ea; [|discriminate].
    destruct (array_get points (i - 1)) as [b|] eqn:Eb; [|discriminate].
    destruct (array_get points (i - 2)) as [c|] eqn:Ec; [|discriminate].
    destruct (strip_loop points n (i + 1)) as [tr'|] eqn:Etr; [|discriminate].
    specialize (IH _ _ Etr). apply G in Ea, Eb, Ec.
    destruct (Z.rem i 2 =? 0)%Z; injection H as <-;
      destruct a, b, c;
      repeat (apply Forall_cons; [assumption|]); exact IH.
Qed.

(** X21.  [RL_DrawLineBezier] from a point to itself is not guarded as
    [RL_DrawLineEx] is: every chord has length zero, [size] is a quotient
    by zero, and all 144 vertices handed to the backend have NaN for both
    coordinates, whatever the point and the thickness. *)
Theorem bezier_to_itself_is_nan :
  forall (thick : float) (p : RlVector2) (color : RlColor),
    exists tr : list rl_call,
      RL_DrawLineBezier thick p p color = Some tr
      /\ length (vertices tr) = 144%nat
      /\ Forall (fun v => nan_point v = true) (vertices tr).
Proof.
  intros thick p color. unfold RL_DrawLineBezier.
  set (points := bezier_ease_loop _ _ _ _ _ _ _).
  assert (Hlen : length points = 50%nat)
    by (unfold points; rewrite bezier_ease_loop_length; apply repeat_length).
  assert (Hnan : nan_upto 50 points).
  { unfold points. apply bezier_ease_loop_nan.
    - lia.
    - reflexivity.
    - apply repeat_length.
    - right. left. reflexivity.
    - left. reflexivity. }
  destruct (RL_DrawTriangleStrip_runs points color) as (tr & Hrun & Htr);
    [rewrite Hlen; lia|].
  rewrite Hlen in Hrun, Htr. exists tr. split; [exact Hrun|]. split; [exact Htr|].
  unfold RL_DrawTriangleStrip in Hrun.
  destruct (_ >=? _)%Z; [|injection Hrun as <-; constructor].
  destruct (strip_loop points _ 2) as [tr'|] eqn:E; [|discriminate].
  injection Hrun as <-.
  match goal with
  | |- Forall _ (vertices (?a :: ?b :: ?t)) =>
      change (vertices (a :: b :: t)) with (vertices t)
  end.
  rewrite vertices_app. change (vertices [rlEnd]) with (@nil RlVector2).
  rewrite app_nil_r.
  apply strip_loop_vertices in E.
  rewrite Forall_forall in E |- *. intros v Hv. specialize (E v Hv).
  apply In_nth_error in E. destruct E as [k Hk].
  assert (Hk' : (k < 50)%nat).
  { rewrite <- Hlen. apply nth_error_Some. now rewrite Hk. }
  destruct (Hnan k Hk') as (v' & Hv' & Hn). rewrite Hk in Hv'.
  now injection Hv' as <-.
Qed.

(** ** Rectangles and pixels *)

Section RectangleFacts.

Variable SUPPORT_QUADS_DRAW_MODE : bool.
Variable shapes : shapes_state.

(** With no rotation and no origin the corners are the rectangle's own,
    whatever the library's [cosf] and [sinf] are; a rotation of [-0.0f] is
    no rotation either. *)
Lemma rectangle_corners_plain (cosf sinf : float -> float) (rec : RlRectangle)
    (rotation : float) :
  (rotation =? $0) = true ->
  rectangle_corners cosf sinf rec (mkVector2 $0 $0) rotation
  = mkCorners (mkVector2 (rec_x rec) (rec_y rec))
              (mkVector2 (rec_x rec + rec_width rec) (rec_y rec))
              (mkVector2 (rec_x rec) (rec_y rec + rec_height rec))
              (mkVector2 (rec_x rec + rec_width rec) (rec_y rec + rec_height rec)).
Proof.
  intros H. unfold rectangle_corners. rewrite H.
  cbn [v_x v_y]. rewrite !sub_pos_zero. reflexivity.
Qed.

Lemma rectangle_pro_plain (cosf sinf cosf' sinf' : float -> float)
    (rec : RlRectangle) (rotation : float) (color : RlColor) :
  (rotation =? $0) = true ->
  RL_DrawRectanglePro cosf sinf SUPPORT_QUADS_DRAW_MODE shapes rec
    (mkVector2 $0 $0) rotation color
  = RL_DrawRectangleRec cosf' sinf' SUPPORT_QUADS_DRAW_MODE shapes rec color.
Proof.
  intros H. unfold RL_DrawRectangleRec, RL_DrawRectanglePro.
  rewrite (rectangle_corners_plain cosf sinf rec rotation H).
  rewrite (rectangle_corners_plain cosf' sinf' rec $0 eq_refl).
  reflexivity.
Qed.

(** X22.  [RL_DrawRectangleRec] emits exactly the four corners [(x, y)],
    [(x, y + height)], [(x + width, y + height)], [(x + width, y)] of its
    rectangle, in this order in quad mode and as the two triangles
    top-left, bottom-left, top-right and top-right, bottom-left,
    bottom-right otherwise.  The calls do not depend on [cosf] and
    [sinf]; [RL_DrawRectanglePro] with a rotation of [-0.0f] and
    [RL_DrawRectangleV] make the same calls. *)
Theorem rectangle_rec_corners :
  forall (cosf sinf : float -> float) (rec : RlRectangle) (color : RlColor),
    let tl := mkVector2 (rec_x rec) (rec_y rec) in
    let bl := mkVector2 (rec_x rec) (rec_y rec + rec_height rec) in
    let br := mkVector2 (rec_x rec + rec_width rec) (rec_y rec + rec_height rec) in
    let tr := mkVector2 (rec_x rec + rec_width rec) (rec_y rec) in
    let drawn := RL_DrawRectangleRec cosf sinf SUPPORT_QUADS_DRAW_MODE shapes rec color in
    command_vertices drawn
    = (if SUPPORT_QUADS_DRAW_MODE then [tl; bl; br; tr] else [tl; bl; tr; tr; bl; br])
    /\ (forall cosf' sinf' : float -> float,
          RL_DrawRectangleRec cosf' sinf' SUPPORT_QUADS_DRAW_MODE shapes rec color = drawn)
    /\ RL_DrawRectanglePro cosf sinf SUPPORT_QUADS_DRAW_MODE shapes rec
         (mkVector2 $0 $0) (SFopp $0) color = drawn
    /\ RL_DrawRectangleV cosf sinf SUPPORT_QUADS_DRAW_MODE shapes
         (mkVector2 (rec_x rec) (rec_y rec))
         (mkVector2 (rec_width rec) (rec_height rec)) color = drawn.
Proof.
  intros cosf sinf rec color tl bl br tr drawn.
  split; [|split; [|split]].
  - unfold drawn, RL_DrawRectangleRec, RL_DrawRectanglePro.
    rewrite (rectangle_corners_plain cosf sinf rec $0 eq_refl).
    destruct SUPPORT_QUADS_DRAW_MODE; reflexivity.
  - intros c s. exact (rectangle_pro_plain c s cosf sinf rec $0 color eq_refl).
  - exact (rectangle_pro_plain cosf sinf cosf sinf rec (SFopp $0) color eq_refl).
  - destruct rec as [x y w h].
    exact (rectangle_pro_plain cosf sinf cosf sinf (mkRectangle x y w h) $0 color eq_refl).
Qed.

(** X23.  [RL_DrawPixel] makes, call for call, the calls of
    [RL_DrawRectangle] for the rectangle of width and height 1 at the
    same place, in both draw modes. *)
Theorem pixel_is_unit_rectangle :
  forall (cosf sinf : float -> float) (posX posY : Z) (color : RlColor),
    RL_DrawPixel SUPPORT_QUADS_DRAW_MODE shapes posX posY color
    = RL_DrawRectangle cosf sinf SUPPORT_QUADS_DRAW_MODE shapes posX posY 1 1 color.
Proof.
  intros cosf sinf posX posY color.
  unfold RL_DrawPixel, RL_DrawPixelV, RL_DrawRectangle, RL_DrawRectangleV,
    RL_DrawRectanglePro.
  rewrite (rectangle_corners_plain cosf sinf _ $0 eq_refl).
  destruct SUPPORT_QUADS_DRAW_MODE; reflexivity.
Qed.

(** The thickness of the outline is left alone when the rectangle is a
    square. *)
Lemma lines_ex_thick_square (rec : RlRectangle) (lineThick : float) :
  rec_width rec = rec_height rec -> lines_ex_thick rec lineThick = lineThick.
Proof.
  intros H. unfold lines_ex_thick. rewrite H.
  replace (rec_height rec >? rec_height rec) with false
    by (now rewrite F32Facts.gtb_ltb, F32Facts.ltb_irrefl).
  rewrite F32Facts.ltb_irrefl.
  destruct (_ || _); reflexivity.
Qed.

(** X24.  [RL_DrawRectangleLinesEx] does not reduce the thickness of the
    outline of a square: with [width] and [height] the same number
    neither of the two branches that halve a side applies, and the four
    bars are drawn with the caller's [lineThick] even where it exceeds
    the side (the left and right bars then get the negative height
    [side - 2*lineThick]). *)
Theorem rectangle_lines_ex_square :
  forall (cosf sinf : float -> float) (x y side lineThick : float) (color : RlColor),
    let draw := RL_DrawRectangleRec cosf sinf SUPPORT_QUADS_DRAW_MODE shapes in
    RL_DrawRectangleLinesEx cosf sinf SUPPORT_QUADS_DRAW_MODE shapes
      (mkRectangle x y side side) lineThick color
    = draw (mkRectangle x y side lineThick) color
        ++ draw (mkRectangle x (y - lineThick + side) side lineThick) color
        ++ draw (mkRectangle x (y + lineThick) lineThick (side - lineThick * $2)) color
        ++ draw (mkRectangle (x - lineThick + side) (y + lineThick) lineThick
                   (side - lineThick * $2)) color.
Proof.
  intros cosf sinf x y side lineThick color draw.
  unfold RL_DrawRectangleLinesEx.
  rewrite (lines_ex_thick_square (mkRectangle x y side side) lineThick eq_refl).
  reflexivity.
Qed.

(** A square of side 4 outlined with a thickness of 10: the left and right
    bars get the height [4 - 20], where a 8 by 4 rectangle is outlined with
    the thickness 2. *)
Example rectangle_lines_ex_run :
  lines_ex_thick (mkRectangle $0 $0 $4 $4) $10 = $10
  /\ $4 - lines_ex_thick (mkRectangle $0 $0 $4 $4) $10 * $2 = SFopp $16
  /\ lines_ex_thick (mkRectangle $0 $0 $8 $4) $10 = $2
  /\ lines_ex_thick (mkRectangle $0 $0 $4 $8) $10 = $2
  /\ lines_ex_thick (mkRectangle $0 $0 $8 $4) $1 = $1.
Proof. vm_compute. repeat split. Qed.

End RectangleFacts.
